(** * transformer.py: a shallow embedding of the Transformer forward architecture

    The development follows [src/transformer.py] top to bottom.

    - Python integers are [Z]; Python float literals ([1e-6], [-1e9], the
      dropout rate) are rationals [Q].
    - A tensor is a shape together with an indexing function.  numpy and
      torch operations are given by what they do to each entry.
    - torch itself is an external collaborator.  The modules of the file are
      written once, over an interface [Torch] of the tensor operations they
      call, and then read at the instance [RealTorch] in which every float is
      a real number.  Statements that mention sums, square roots or
      exponentials are statements about that instance: rounding is not part
      of the model.
    - Parameters, buffers and the one mutable attribute of the program
      ([MultiHeadedAttention.attn]) live in a store ([world]) addressed by
      locations, so that [copy.deepcopy] and aliasing can be talked about.
    - Two contracts of the callers are hypotheses of the statements that
      depend on them: a mask broadcasts to the scores it masks, and a module
      is copied before any forward call has run on it. *)

From Stdlib Require Import ZArith QArith List Bool Lia Arith.
From Stdlib Require Import Reals Lra Qreals.
Import ListNotations.

Set Implicit Arguments.

Close Scope R_scope.
Close Scope Q_scope.
Close Scope Z_scope.

(** ** Python preliminaries *)

Inductive exn : Type :=
| ZeroDivisionError
| AssertionError
| ValueError
| IndexError
| RuntimeError.

Inductive result (A : Type) : Type :=
| Ok (a : A)
| Raise (e : exn).

Arguments Ok {A} a.
Arguments Raise {A} e.

(** [a % b] and [a // b] on Python ints: floor semantics, which is that of
    [Z.modulo] and [Z.div], and [ZeroDivisionError] on a zero divisor. *)
Definition py_mod (a b : Z) : result Z :=
  if (b =? 0)%Z then Raise ZeroDivisionError else Ok (a mod b)%Z.

Definition py_floordiv (a b : Z) : result Z :=
  if (b =? 0)%Z then Raise ZeroDivisionError else Ok (a / b)%Z.

(** [range(n)] as the list of its values. *)
Definition py_range (n : Z) : list nat := seq 0 (Z.to_nat n).

(** ** Tensors *)

Record tensor (A : Type) : Type := mkTensor {
  shape : list nat;
  get : list nat -> A
}.

Arguments mkTensor {A} shape get.

(** The last two components of an index, [(i, j)]. *)
Definition last2 (idx : list nat) : nat * nat :=
  (nth (length idx - 2) idx 0, nth (length idx - 1) idx 0).

(** [t.tolist()] of a rank 3 tensor. *)
Definition tolist3 {A} (t : tensor A) : list (list (list A)) :=
  map (fun b =>
    map (fun i =>
      map (fun j => get t [b; i; j]) (seq 0 (nth 2 (shape t) 0)))
      (seq 0 (nth 1 (shape t) 0)))
    (seq 0 (nth 0 (shape t) 0)).

(** ** numpy, as far as [subsequent_mask] uses it *)

(** [np.ones(shape)]: float64 ones; a negative dimension is a [ValueError]. *)
Definition np_ones (shp : list Z) : result (tensor Q) :=
  if forallb (fun d => 0 <=? d)%Z shp
  then Ok (mkTensor (map Z.to_nat shp) (fun _ => 1%Q))
  else Raise ValueError.

(** [np.triu(m, k)]: on the last two axes, entries below the [k]-th diagonal
    (those with [j - i < k]) are zeroed. *)
Definition np_triu (k : Z) (m : tensor Q) : tensor Q :=
  mkTensor (shape m)
    (fun idx => let '(i, j) := last2 idx in
                if (k <=? Z.of_nat j - Z.of_nat i)%Z then get m idx else 0%Q).

(** [.astype('uint8')]: the C conversion of a float64, truncation toward
    zero, then reduction modulo 256. *)
Definition uint8_of_float (q : Q) : Z :=
  (Z.quot (Qnum q) (Zpos (Qden q)) mod 256)%Z.

Definition np_astype_uint8 (m : tensor Q) : tensor Z :=
  mkTensor (shape m) (fun idx => uint8_of_float (get m idx)).

(** [torch.from_numpy(a) == 0]: the boolean tensor of the entries equal to 0. *)
Definition torch_eq0 (m : tensor Z) : tensor bool :=
  mkTensor (shape m) (fun idx => (get m idx =? 0)%Z).

(** [subsequent_mask(size)] *)
Definition subsequent_mask (size : Z) : result (tensor bool) :=
  let attn_shape := [1; size; size]%Z in
  match np_ones attn_shape with
  | Raise e => Raise e
  | Ok ones =>
      let subsequent_mask := np_astype_uint8 (np_triu 1 ones) in
      Ok (torch_eq0 subsequent_mask)
  end.

(** ** The tensor library, as an interface

    What the file calls in torch, [torch.nn.functional] and [math].  Shape
    errors inside a tensor operation are the library's and are not modelled:
    the operations are total.  Failures the file's own control flow depends
    on (an index out of an embedding table, [math.sqrt] of a negative
    number, a negative dimension given to a constructor) are explicit. *)

Inductive initializer : Type :=
| Zeros            (* torch.zeros *)
| Ones             (* torch.ones *)
| KaimingUniform   (* the weight of nn.Linear *)
| BiasUniform      (* the bias of nn.Linear *)
| Normal           (* the weight of nn.Embedding *)
| XavierUniform.   (* nn.init.xavier_uniform_ *)

Class Torch : Type := {
  Tensor : Type;        (* float tensors *)
  LongTensor : Type;    (* tensors of token ids *)
  MaskTensor : Type;    (* boolean / 0-1 masks *)
  Float : Type;         (* Python floats *)
  RNG : Type;           (* the state of the global random generator *)
  float_lit : Q -> Float;
  float_sqrt : Z -> Float;
  t_shape : Tensor -> list Z;
  t_size : Tensor -> Z -> Z;
  t_matmul : Tensor -> Tensor -> Tensor;
  t_transpose : Tensor -> Z -> Z -> Tensor;
  t_div_float : Tensor -> Float -> Tensor;
  t_mul_float : Tensor -> Float -> Tensor;
  t_add_float : Tensor -> Float -> Tensor;
  t_mask_eq0 : MaskTensor -> MaskTensor;
  t_mask_unsqueeze : MaskTensor -> Z -> MaskTensor;
  t_masked_fill : Tensor -> MaskTensor -> Float -> Tensor;
  t_softmax : Tensor -> Z -> Tensor;
  t_log_softmax : Tensor -> Z -> Tensor;
  t_view : Tensor -> list Z -> Tensor;
  t_contiguous : Tensor -> Tensor;
  t_linear : Tensor -> Tensor -> Tensor -> Tensor;
  t_relu : Tensor -> Tensor;
  t_mean : Tensor -> Z -> Tensor;
  t_std : Tensor -> Z -> Tensor;
  t_add : Tensor -> Tensor -> Tensor;
  t_sub : Tensor -> Tensor -> Tensor;
  t_mul : Tensor -> Tensor -> Tensor;
  t_div : Tensor -> Tensor -> Tensor;
  t_embedding : LongTensor -> Tensor -> result Tensor;
  t_slice1 : Tensor -> Z -> Tensor;
  t_dropout : Tensor -> Q -> RNG -> Tensor * RNG;
  t_init : initializer -> list Z -> RNG -> Tensor * RNG;
  t_positional_table : Z -> Z -> Tensor
}.

(** [math.sqrt(n)] of a Python int. *)
Definition math_sqrt {T : Torch} (n : Z) : result Float :=
  if (n <? 0)%Z then Raise ValueError else Ok (float_sqrt n).

(** ** Object store *)

Definition loc := nat.

(** Keeps the first occurrence of every location, in order: the traversal
    order of [copy.deepcopy]'s memo and of [Module.parameters()]. *)
Fixpoint uniq_from (seen l : list loc) : list loc :=
  match l with
  | [] => []
  | x :: xs =>
      if existsb (Nat.eqb x) seen then uniq_from seen xs
      else x :: uniq_from (x :: seen) xs
  end.

Definition uniq (l : list loc) : list loc := uniq_from [] l.

Fixpoint index_of (x : loc) (l : list loc) : option nat :=
  match l with
  | [] => None
  | y :: ys => if Nat.eqb x y then Some 0
               else option_map S (index_of x ys)
  end.

(** What a module object reaches: [storages] lists every location it owns
    (parameters, buffers and attribute slots), [parameters] is
    [Module.parameters()] before duplicates are removed, and [relocate]
    rebuilds the object over renamed locations. *)
Class NNModule (M : Type) : Type := {
  storages : M -> list loc;
  parameters : M -> list loc;
  relocate : (loc -> loc) -> M -> M
}.

#[export] Instance NNModule_list {M} `{NNModule M} : NNModule (list M) := {
  storages := flat_map storages;
  parameters := flat_map parameters;
  relocate f := map (relocate f)
}.

Section Model.

Context {T : Torch}.

(** [tensors] holds the storage of parameters and buffers, [attrs] the
    tensor-valued attributes that start as [None]. *)
Record world : Type := mkWorld {
  next : loc;
  tensors : loc -> Tensor;
  attrs : loc -> option Tensor;
  rng : RNG
}.

Definition Mon (A : Type) : Type := world -> result (A * world).

Definition ret {A} (a : A) : Mon A := fun w => Ok (a, w).

Definition bind {A B} (m : Mon A) (k : A -> Mon B) : Mon B :=
  fun w => match m w with
           | Ok (a, w') => k a w'
           | Raise e => Raise e
           end.

Definition raise {A} (e : exn) : Mon A := fun _ => Raise e.

Definition lift {A} (r : result A) : Mon A :=
  fun w => match r with Ok a => Ok (a, w) | Raise e => Raise e end.

End Model.

Declare Scope mon_scope.
Delimit Scope mon_scope with mon.
Notation "x <- c ;; k" := (bind c (fun x => k))
  (at level 61, c at next level, right associativity) : mon_scope.
Notation "' pat <- c ;; k" := (bind c (fun x => match x with pat => k end))
  (at level 61, pat pattern, c at next level, right associativity) : mon_scope.
Open Scope mon_scope.

Section Modules.

Context {T : Torch}.

(** A new tensor gets storage of its own. *)
Definition new_tensor (t : Tensor) : Mon loc :=
  fun w => Ok (next w,
               mkWorld (S (next w))
                       (fun l => if Nat.eqb l (next w) then t else tensors w l)
                       (attrs w) (rng w)).

(** A new attribute, set to [None]. *)
Definition new_attr : Mon loc :=
  fun w => Ok (next w,
               mkWorld (S (next w)) (tensors w)
                       (fun l => if Nat.eqb l (next w) then None else attrs w l)
                       (rng w)).

Definition read_tensor (l : loc) : Mon Tensor :=
  fun w => Ok (tensors w l, w).

Definition write_tensor (l : loc) (t : Tensor) : Mon unit :=
  fun w => Ok (tt, mkWorld (next w)
                           (fun l' => if Nat.eqb l' l then t else tensors w l')
                           (attrs w) (rng w)).

Definition write_attr (l : loc) (v : option Tensor) : Mon unit :=
  fun w => Ok (tt, mkWorld (next w) (tensors w)
                           (fun l' => if Nat.eqb l' l then v else attrs w l')
                           (rng w)).

Definition with_rng {A} (f : RNG -> A * RNG) : Mon A :=
  fun w => let '(a, g) := f (rng w) in
           Ok (a, mkWorld (next w) (tensors w) (attrs w) g).

Fixpoint mapM {A B} (f : A -> Mon B) (l : list A) : Mon (list B) :=
  match l with
  | [] => ret []
  | a :: l' => b <- f a ;; bs <- mapM f l' ;; ret (b :: bs)
  end.

(** [for a in l: x = f(a, x)] *)
Fixpoint foldM {A B} (f : A -> B -> Mon B) (l : list A) (x : B) : Mon B :=
  match l with
  | [] => ret x
  | a :: l' => y <- f a x ;; foldM f l' y
  end.

(** [l[i]] on a [ModuleList]. *)
Definition item {A} (l : list A) (i : nat) : Mon A :=
  match nth_error l i with
  | Some a => ret a
  | None => raise IndexError
  end.

(** [l[-1]] *)
Definition item_last {A} (l : list A) : Mon A :=
  match rev l with
  | a :: _ => ret a
  | [] => raise IndexError
  end.

(** [copy.deepcopy(module)]: every location the module reaches is copied
    once, into fresh storage, and the copy refers to the copies.  This is
    the copy of a module none of whose attribute slots holds a tensor, the
    state in which the program copies its modules: torch refuses to copy a
    tensor that a forward call computed and left in [attn].  Statements
    about the copy of a module given from outside carry that condition as a
    hypothesis. *)
Definition deepcopy {M} `{NNModule M} (m : M) : Mon M :=
  fun w =>
    let olds := uniq (storages m) in
    let memo := fun l => match index_of l olds with
                         | Some i => next w + i
                         | None => l
                         end in
    let fresh := fun l => (next w <=? l) && (l <? next w + length olds) in
    let origin := fun l => nth (l - next w) olds 0 in
    Ok (relocate memo m,
        mkWorld (next w + length olds)
                (fun l => if fresh l then tensors w (origin l) else tensors w l)
                (fun l => if fresh l then attrs w (origin l) else attrs w l)
                (rng w)).

(** [clones(module, N)] *)
Definition clones {M} `{NNModule M} (module : M) (N : Z) : Mon (list M) :=
  mapM (fun _ => deepcopy module) (py_range N).

(** *** torch.nn building blocks *)

Record Linear : Type := mkLinear { weight : loc; bias : loc }.

(** [nn.Linear(in_features, out_features)] *)
Definition nn_Linear (in_features out_features : Z) : Mon Linear :=
  if ((in_features <? 0) || (out_features <? 0))%Z then raise RuntimeError
  else
    w <- with_rng (t_init KaimingUniform [out_features; in_features]) ;;
    weight <- new_tensor w ;;
    b <- with_rng (t_init BiasUniform [out_features]) ;;
    bias <- new_tensor b ;;
    ret (mkLinear weight bias).

Definition Linear_forward (self : Linear) (x : Tensor) : Mon Tensor :=
  w <- read_tensor (weight self) ;;
  b <- read_tensor (bias self) ;;
  ret (t_linear x w b).

Record Dropout : Type := mkDropout { dropout_p : Q; training : bool }.

(** [nn.Dropout(p)]; a module starts in training mode. *)
Definition nn_Dropout (p : Q) : Mon Dropout :=
  if (Qle_bool 0 p && Qle_bool p 1) then ret (mkDropout p true)
  else raise ValueError.

Definition Dropout_forward (self : Dropout) (x : Tensor) : Mon Tensor :=
  if training self then with_rng (t_dropout x (dropout_p self)) else ret x.

Record Embedding : Type := mkEmbedding { emb_weight : loc }.

(** [nn.Embedding(num_embeddings, embedding_dim)] *)
Definition nn_Embedding (num_embeddings embedding_dim : Z) : Mon Embedding :=
  if ((num_embeddings <? 0) || (embedding_dim <? 0))%Z then raise RuntimeError
  else
    w <- with_rng (t_init Normal [num_embeddings; embedding_dim]) ;;
    weight <- new_tensor w ;;
    ret (mkEmbedding weight).

Definition Embedding_forward (self : Embedding) (x : LongTensor) : Mon Tensor :=
  w <- read_tensor (emb_weight self) ;;
  lift (t_embedding x w).

#[export] Instance NNModule_Linear : NNModule Linear := {
  storages l := [weight l; bias l];
  parameters l := [weight l; bias l];
  relocate f l := mkLinear (f (weight l)) (f (bias l))
}.

#[export] Instance NNModule_Dropout : NNModule Dropout := {
  storages _ := [];
  parameters _ := [];
  relocate _ d := d
}.

#[export] Instance NNModule_Embedding : NNModule Embedding := {
  storages e := [emb_weight e];
  parameters e := [emb_weight e];
  relocate f e := mkEmbedding (f (emb_weight e))
}.

(** *** Input *)

Record Embeddings : Type := mkEmbeddings {
  emb_lut : Embedding;
  emb_d_model : Z
}.

Definition Embeddings_init (d_model vocab : Z) : Mon Embeddings :=
  lut <- nn_Embedding vocab d_model ;;
  ret (mkEmbeddings lut d_model).

Definition Embeddings_forward (self : Embeddings) (x : LongTensor) : Mon Tensor :=
  embedds <- Embedding_forward (emb_lut self) x ;;
  s <- lift (math_sqrt (emb_d_model self)) ;;
  ret (t_mul_float embedds s).

Record PositionalEncoding : Type := mkPositionalEncoding {
  pos_dropout : Dropout;
  pos_pe : loc
}.

(** A slice assignment [dst[...] = src] along one axis needs the source
    length to be the destination length, or 1. *)
Definition expandable (src dst : Z) : bool := ((src =? dst) || (src =? 1))%Z.

(** [PositionalEncoding(d_model, dropout, max_len)].  The table itself is
    [t_positional_table]; what can fail on the way is kept: [torch.zeros]
    on a negative size, the float division by [d_model], and the two slice
    assignments, where [div_term] has [len(range(0, d_model, 2))] entries
    while [pe[:, 0::2]] and [pe[:, 1::2]] have as many columns as there are
    even and odd indices below [d_model]. *)
Definition PositionalEncoding_init (d_model : Z) (dropout : Q) (max_len : Z)
  : Mon PositionalEncoding :=
  drop <- nn_Dropout dropout ;;
  if ((max_len <? 0) || (d_model <? 0))%Z then raise RuntimeError
  else if (d_model =? 0)%Z then raise ZeroDivisionError
  else
    let div_term := ((d_model + 1) / 2)%Z in
    let even_columns := ((d_model + 1) / 2)%Z in
    let odd_columns := (d_model / 2)%Z in
    if negb (expandable div_term even_columns) then raise RuntimeError
    else if negb (expandable div_term odd_columns) then raise RuntimeError
    else
      pe <- new_tensor (t_positional_table max_len d_model) ;;
      ret (mkPositionalEncoding drop pe).

Definition PositionalEncoding_forward (self : PositionalEncoding) (x : Tensor)
  : Mon Tensor :=
  pe <- read_tensor (pos_pe self) ;;
  let x := t_add x (t_slice1 pe (t_size x 1)) in
  Dropout_forward (pos_dropout self) x.

(** *** Encoder *)

(** [attention(query, key, value, mask, dropout)] *)
Definition attention (query key value : Tensor) (mask : option MaskTensor)
  (dropout : option (Tensor -> Mon Tensor)) : Mon (Tensor * Tensor) :=
  let d_k := t_size query (-1) in
  s <- lift (math_sqrt d_k) ;;
  let scores := t_div_float (t_matmul query (t_transpose key (-2) (-1))) s in
  let scores :=
    match mask with
    | Some mask => t_masked_fill scores (t_mask_eq0 mask)
                                 (float_lit (- (1000000000 # 1)))
    | None => scores
    end in
  let p_attn := t_softmax scores (-1) in
  p_attn <- match dropout with
            | Some dropout => dropout p_attn
            | None => ret p_attn
            end ;;
  ret (t_matmul p_attn value, p_attn).

Record MultiHeadedAttention : Type := mkMultiHeadedAttention {
  mha_d_k : Z;
  mha_h : Z;
  mha_linears : list Linear;
  mha_attn : loc;
  mha_dropout : Dropout
}.

Definition MultiHeadedAttention_init (h d_model : Z) (dropout : Q)
  : Mon MultiHeadedAttention :=
  r <- lift (py_mod d_model h) ;;
  if negb (r =? 0)%Z then raise AssertionError
  else
    d_k <- lift (py_floordiv d_model h) ;;
    template <- nn_Linear d_model d_model ;;
    linears <- clones template 4 ;;
    attn <- new_attr ;;
    drop <- nn_Dropout dropout ;;
    ret (mkMultiHeadedAttention d_k h linears attn drop).

Definition MultiHeadedAttention_forward (self : MultiHeadedAttention)
  (query key value : Tensor) (mask : option MaskTensor) : Mon Tensor :=
  let mask := option_map (fun mask => t_mask_unsqueeze mask 1) mask in
  let nbatches := t_size query 0 in
  projected <-
    mapM (fun '(l, x) =>
            y <- Linear_forward l x ;;
            ret (t_transpose
                   (t_view y [nbatches; -1; mha_h self; mha_d_k self]%Z) 1 2))
         (combine (mha_linears self) [query; key; value]) ;;
  match projected with
  | [query; key; value] =>
      ' (x, p_attn) <- attention query key value mask
                                 (Some (Dropout_forward (mha_dropout self))) ;;
      _ <- write_attr (mha_attn self) (Some p_attn) ;;
      let x := t_view (t_contiguous (t_transpose x 1 2))
                      [nbatches; -1; mha_h self * mha_d_k self]%Z in
      l <- item_last (mha_linears self) ;;
      Linear_forward l x
  | _ => raise ValueError
  end.

Record PositionwiseFeedForward : Type := mkPositionwiseFeedForward {
  ff_w_1 : Linear;
  ff_w_2 : Linear;
  ff_dropout : Dropout
}.

Definition PositionwiseFeedForward_init (d_model d_ff : Z) (dropout : Q)
  : Mon PositionwiseFeedForward :=
  w_1 <- nn_Linear d_model d_ff ;;
  w_2 <- nn_Linear d_ff d_model ;;
  drop <- nn_Dropout dropout ;;
  ret (mkPositionwiseFeedForward w_1 w_2 drop).

Definition PositionwiseFeedForward_forward (self : PositionwiseFeedForward)
  (x : Tensor) : Mon Tensor :=
  y <- Linear_forward (ff_w_1 self) x ;;
  y <- Dropout_forward (ff_dropout self) (t_relu y) ;;
  Linear_forward (ff_w_2 self) y.

Record LayerNorm : Type := mkLayerNorm {
  ln_a_2 : loc;
  ln_b_2 : loc;
  ln_eps : Q
}.

Definition LayerNorm_init (feature_size : Z) (eps : Q) : Mon LayerNorm :=
  if (feature_size <? 0)%Z then raise RuntimeError
  else
    ones <- with_rng (t_init Ones [feature_size]) ;;
    a_2 <- new_tensor ones ;;
    zeros <- with_rng (t_init Zeros [feature_size]) ;;
    b_2 <- new_tensor zeros ;;
    ret (mkLayerNorm a_2 b_2 eps).

Definition LayerNorm_forward (self : LayerNorm) (x : Tensor) : Mon Tensor :=
  let mean := t_mean x (-1) in
  let std := t_std x (-1) in
  a_2 <- read_tensor (ln_a_2 self) ;;
  b_2 <- read_tensor (ln_b_2 self) ;;
  ret (t_add (t_div (t_mul a_2 (t_sub x mean))
                    (t_add_float std (float_lit (ln_eps self))))
             b_2).

Record SublayerConnection : Type := mkSublayerConnection {
  sc_norm : LayerNorm;
  sc_dropout : Dropout
}.

Definition SublayerConnection_init (size : Z) (dropout : Q)
  : Mon SublayerConnection :=
  norm <- LayerNorm_init size (1 # 1000000) ;;
  drop <- nn_Dropout dropout ;;
  ret (mkSublayerConnection norm drop).

Definition SublayerConnection_forward (self : SublayerConnection) (x : Tensor)
  (sublayer : Tensor -> Mon Tensor) : Mon Tensor :=
  y <- sublayer x ;;
  y <- Dropout_forward (sc_dropout self) y ;;
  y <- LayerNorm_forward (sc_norm self) y ;;
  let x_norm := t_add x y in
  ret x_norm.

#[export] Instance NNModule_PositionalEncoding : NNModule PositionalEncoding := {
  storages m := [pos_pe m];
  parameters _ := [];
  relocate f m := mkPositionalEncoding (pos_dropout m) (f (pos_pe m))
}.

#[export] Instance NNModule_Embeddings : NNModule Embeddings := {
  storages m := storages (emb_lut m);
  parameters m := parameters (emb_lut m);
  relocate f m := mkEmbeddings (relocate f (emb_lut m)) (emb_d_model m)
}.

#[export] Instance NNModule_MultiHeadedAttention : NNModule MultiHeadedAttention := {
  storages m := storages (mha_linears m) ++ [mha_attn m];
  parameters m := parameters (mha_linears m);
  relocate f m :=
    mkMultiHeadedAttention (mha_d_k m) (mha_h m) (relocate f (mha_linears m))
                           (f (mha_attn m)) (mha_dropout m)
}.

#[export] Instance NNModule_PositionwiseFeedForward
  : NNModule PositionwiseFeedForward := {
  storages m := storages (ff_w_1 m) ++ storages (ff_w_2 m);
  parameters m := parameters (ff_w_1 m) ++ parameters (ff_w_2 m);
  relocate f m :=
    mkPositionwiseFeedForward (relocate f (ff_w_1 m)) (relocate f (ff_w_2 m))
                              (ff_dropout m)
}.

#[export] Instance NNModule_LayerNorm : NNModule LayerNorm := {
  storages m := [ln_a_2 m; ln_b_2 m];
  parameters m := [ln_a_2 m; ln_b_2 m];
  relocate f m := mkLayerNorm (f (ln_a_2 m)) (f (ln_b_2 m)) (ln_eps m)
}.

#[export] Instance NNModule_SublayerConnection : NNModule SublayerConnection := {
  storages m := storages (sc_norm m);
  parameters m := parameters (sc_norm m);
  relocate f m := mkSublayerConnection (relocate f (sc_norm m)) (sc_dropout m)
}.

Record EncoderLayer : Type := mkEncoderLayer {
  el_self_attn : MultiHeadedAttention;
  el_feed_forward : PositionwiseFeedForward;
  el_sublayer : list SublayerConnection;
  el_size : Z
}.

Definition EncoderLayer_init (size : Z) (self_attn : MultiHeadedAttention)
  (feed_forward : PositionwiseFeedForward) (dropout : Q) : Mon EncoderLayer :=
  template <- SublayerConnection_init size dropout ;;
  sublayer <- clones template 2 ;;
  ret (mkEncoderLayer self_attn feed_forward sublayer size).

Definition EncoderLayer_forward (self : EncoderLayer) (x : Tensor)
  (mask : option MaskTensor) : Mon Tensor :=
  s0 <- item (el_sublayer self) 0 ;;
  x <- SublayerConnection_forward s0 x
         (fun x => MultiHeadedAttention_forward (el_self_attn self) x x x mask) ;;
  s1 <- item (el_sublayer self) 1 ;;
  z <- SublayerConnection_forward s1 x
         (PositionwiseFeedForward_forward (el_feed_forward self)) ;;
  ret z.

#[export] Instance NNModule_EncoderLayer : NNModule EncoderLayer := {
  storages m := storages (el_self_attn m) ++ storages (el_feed_forward m)
                ++ storages (el_sublayer m);
  parameters m := parameters (el_self_attn m) ++ parameters (el_feed_forward m)
                  ++ parameters (el_sublayer m);
  relocate f m :=
    mkEncoderLayer (relocate f (el_self_attn m)) (relocate f (el_feed_forward m))
                   (relocate f (el_sublayer m)) (el_size m)
}.

Record Encoder : Type := mkEncoder {
  enc_layers : list EncoderLayer;
  enc_norm : LayerNorm
}.

Definition Encoder_init (layer : EncoderLayer) (N : Z) : Mon Encoder :=
  layers <- clones layer N ;;
  norm <- LayerNorm_init (el_size layer) (1 # 1000000) ;;
  ret (mkEncoder layers norm).

Definition Encoder_forward (self : Encoder) (x : Tensor)
  (mask : option MaskTensor) : Mon Tensor :=
  x <- foldM (fun layer x => EncoderLayer_forward layer x mask)
             (enc_layers self) x ;;
  LayerNorm_forward (enc_norm self) x.

(** *** Decoder *)

Record DecoderLayer : Type := mkDecoderLayer {
  dl_size : Z;
  dl_self_attn : MultiHeadedAttention;
  dl_src_attn : MultiHeadedAttention;
  dl_feed_forward : PositionwiseFeedForward;
  dl_sublayer : list SublayerConnection
}.

Definition DecoderLayer_init (size : Z) (self_attn src_attn : MultiHeadedAttention)
  (feed_forward : PositionwiseFeedForward) (dropout : Q) : Mon DecoderLayer :=
  template <- SublayerConnection_init size dropout ;;
  sublayer <- clones template 3 ;;
  ret (mkDecoderLayer size self_attn src_attn feed_forward sublayer).

Definition DecoderLayer_forward (self : DecoderLayer) (x memory : Tensor)
  (src_mask tgt_mask : option MaskTensor) : Mon Tensor :=
  let m := memory in
  s0 <- item (dl_sublayer self) 0 ;;
  x <- SublayerConnection_forward s0 x
         (fun x => MultiHeadedAttention_forward (dl_self_attn self) x x x tgt_mask) ;;
  s1 <- item (dl_sublayer self) 1 ;;
  x <- SublayerConnection_forward s1 x
         (fun x => MultiHeadedAttention_forward (dl_src_attn self) x m m src_mask) ;;
  s2 <- item (dl_sublayer self) 2 ;;
  SublayerConnection_forward s2 x
    (PositionwiseFeedForward_forward (dl_feed_forward self)).

#[export] Instance NNModule_DecoderLayer : NNModule DecoderLayer := {
  storages m := storages (dl_self_attn m) ++ storages (dl_src_attn m)
                ++ storages (dl_feed_forward m) ++ storages (dl_sublayer m);
  parameters m := parameters (dl_self_attn m) ++ parameters (dl_src_attn m)
                  ++ parameters (dl_feed_forward m) ++ parameters (dl_sublayer m);
  relocate f m :=
    mkDecoderLayer (dl_size m) (relocate f (dl_self_attn m))
                   (relocate f (dl_src_attn m)) (relocate f (dl_feed_forward m))
                   (relocate f (dl_sublayer m))
}.

Record Decoder : Type := mkDecoder {
  dec_layers : list DecoderLayer;
  dec_norm : LayerNorm
}.

Definition Decoder_init (layer : DecoderLayer) (N : Z) : Mon Decoder :=
  layers <- clones layer N ;;
  norm <- LayerNorm_init (dl_size layer) (1 # 1000000) ;;
  ret (mkDecoder layers norm).

Definition Decoder_forward (self : Decoder) (x memory : Tensor)
  (src_mask tgt_mask : option MaskTensor) : Mon Tensor :=
  x <- foldM (fun layer x => DecoderLayer_forward layer x memory src_mask tgt_mask)
             (dec_layers self) x ;;
  LayerNorm_forward (dec_norm self) x.

(** *** Output *)

Record Generator : Type := mkGenerator { gen_proj : Linear }.

Definition Generator_init (d_model vocab : Z) : Mon Generator :=
  proj <- nn_Linear d_model vocab ;;
  ret (mkGenerator proj).

Definition Generator_forward (self : Generator) (x : Tensor) : Mon Tensor :=
  y <- Linear_forward (gen_proj self) x ;;
  ret (t_log_softmax y (-1)).

(** *** Model architecture *)

(** [nn.Sequential(Embeddings(...), PositionalEncoding(...))] *)
Record Sequential : Type := mkSequential {
  seq_0 : Embeddings;
  seq_1 : PositionalEncoding
}.

Definition Sequential_forward (self : Sequential) (x : LongTensor) : Mon Tensor :=
  y <- Embeddings_forward (seq_0 self) x ;;
  PositionalEncoding_forward (seq_1 self) y.

Record EncoderDecoder : Type := mkEncoderDecoder {
  ed_encoder : Encoder;
  ed_decoder : Decoder;
  ed_src_embed : Sequential;
  ed_tgt_embed : Sequential;
  ed_generator : Generator
}.

Definition EncoderDecoder_encode (self : EncoderDecoder) (src : LongTensor)
  (src_mask : option MaskTensor) : Mon Tensor :=
  src_embedds <- Sequential_forward (ed_src_embed self) src ;;
  Encoder_forward (ed_encoder self) src_embedds src_mask.

Definition EncoderDecoder_decode (self : EncoderDecoder) (memory : Tensor)
  (src_mask : option MaskTensor) (tgt : LongTensor)
  (tgt_mask : option MaskTensor) : Mon Tensor :=
  target_embedds <- Sequential_forward (ed_tgt_embed self) tgt ;;
  Decoder_forward (ed_decoder self) target_embedds memory src_mask tgt_mask.

Definition EncoderDecoder_forward (self : EncoderDecoder) (src tgt : LongTensor)
  (src_mask tgt_mask : option MaskTensor) : Mon Tensor :=
  memory <- EncoderDecoder_encode self src src_mask ;;
  res <- EncoderDecoder_decode self memory src_mask tgt tgt_mask ;;
  ret res.

Definition model_parameters (model : EncoderDecoder) : list loc :=
  uniq (flat_map parameters (enc_layers (ed_encoder model))
        ++ parameters (enc_norm (ed_encoder model))
        ++ flat_map parameters (dec_layers (ed_decoder model))
        ++ parameters (dec_norm (ed_decoder model))
        ++ parameters (seq_0 (ed_src_embed model))
        ++ parameters (seq_0 (ed_tgt_embed model))
        ++ parameters (gen_proj (ed_generator model))).

(** [make_model(src_vocab, tgt_vocab, N, d_model, d_ff, h, dropout)];
    [MultiHeadedAttention(h, d_model)] takes its default rate 0.1, and
    [PositionalEncoding] its default [max_len] 5000. *)
Definition make_model (src_vocab tgt_vocab N d_model d_ff h : Z) (dropout : Q)
  : Mon EncoderDecoder :=
  attn <- MultiHeadedAttention_init h d_model (1 # 10) ;;
  ff <- PositionwiseFeedForward_init d_model d_ff dropout ;;
  position <- PositionalEncoding_init d_model dropout 5000 ;;
  a <- deepcopy attn ;;
  f <- deepcopy ff ;;
  encoder_layer <- EncoderLayer_init d_model a f dropout ;;
  encoder <- Encoder_init encoder_layer N ;;
  a1 <- deepcopy attn ;;
  a2 <- deepcopy attn ;;
  f <- deepcopy ff ;;
  decoder_layer <- DecoderLayer_init d_model a1 a2 f dropout ;;
  decoder <- Decoder_init decoder_layer N ;;
  src_emb <- Embeddings_init d_model src_vocab ;;
  src_pos <- deepcopy position ;;
  tgt_emb <- Embeddings_init d_model tgt_vocab ;;
  tgt_pos <- deepcopy position ;;
  generator <- Generator_init d_model tgt_vocab ;;
  let model := mkEncoderDecoder encoder decoder
                 (mkSequential src_emb src_pos) (mkSequential tgt_emb tgt_pos)
                 generator in
  _ <- foldM (fun l (_ : unit) =>
                p <- read_tensor l ;;
                if (1 <? Z.of_nat (length (t_shape p)))%Z
                then t <- with_rng (t_init XavierUniform (t_shape p)) ;;
                     write_tensor l t
                else ret tt)
             (model_parameters model) tt ;;
  ret model.

(** The attribute slots a forward pass of the modules writes. *)
Definition EncoderLayer_attn_slots (m : EncoderLayer) : list loc :=
  [mha_attn (el_self_attn m)].

Definition DecoderLayer_attn_slots (m : DecoderLayer) : list loc :=
  [mha_attn (dl_self_attn m); mha_attn (dl_src_attn m)].

Definition EncoderDecoder_attn_slots (m : EncoderDecoder) : list loc :=
  flat_map EncoderLayer_attn_slots (enc_layers (ed_encoder m))
  ++ flat_map DecoderLayer_attn_slots (dec_layers (ed_decoder m)).

End Modules.

(** ** The tensor library over the reals

    Every operation of [Torch] by what it does to an entry, with floats read
    as real numbers.  Negative dimension arguments count from the end;
    binary operations broadcast, aligned on the last axis. *)

Definition norm_dim (rank : nat) (d : Z) : nat :=
  Z.to_nat (if (d <? 0)%Z then d + Z.of_nat rank else d)%Z.

Fixpoint set_nth {A} (i : nat) (v : A) (l : list A) : list A :=
  match l, i with
  | [], _ => []
  | _ :: l', 0 => v :: l'
  | x :: l', S i' => x :: set_nth i' v l'
  end.

Definition swap (i j : nat) (l : list nat) : list nat :=
  set_nth i (nth j l 0) (set_nth j (nth i l 0) l).

Definition sum_n (n : nat) (f : nat -> R) : R :=
  fold_right Rplus 0%R (map f (seq 0 n)).

Definition numel (shp : list nat) : nat := fold_right Nat.mul 1 shp.

(** Row-major position of an index, and back. *)
Definition ravel (shp idx : list nat) : nat :=
  fold_left (fun acc '(s, i) => acc * s + i) (combine shp idx) 0.

Fixpoint unravel (shp : list nat) (n : nat) : list nat :=
  match shp with
  | [] => []
  | s :: rest => (n / numel rest) mod s :: unravel rest n
  end.

Definition all_indices (shp : list nat) : list (list nat) :=
  map (unravel shp) (seq 0 (numel shp)).

Definition pad_left (n : nat) (shp : list nat) : list nat :=
  repeat 1 (n - length shp) ++ shp.

Definition bshape (a b : list nat) : list nat :=
  let n := Nat.max (length a) (length b) in
  map (fun '(x, y) => if x =? 1 then y else x)
      (combine (pad_left n a) (pad_left n b)).

(** The index into an operand of shape [shp] that an index of the broadcast
    result reads. *)
Definition bindex (shp idx : list nat) : list nat :=
  map (fun '(s, i) => if s =? 1 then 0 else i)
      (combine shp (skipn (length idx - length shp) idx)).

Definition r_shape {A} (x : tensor A) : list Z := map Z.of_nat (shape x).

Definition r_size {A} (x : tensor A) (d : Z) : Z :=
  Z.of_nat (nth (norm_dim (length (shape x)) d) (shape x) 0).

Definition r_map (f : R -> R) (x : tensor R) : tensor R :=
  mkTensor (shape x) (fun idx => f (get x idx)).

Definition r_zip (f : R -> R -> R) (a b : tensor R) : tensor R :=
  mkTensor (bshape (shape a) (shape b))
    (fun idx => f (get a (bindex (shape a) idx)) (get b (bindex (shape b) idx))).

Definition r_matmul (a b : tensor R) : tensor R :=
  let ra := length (shape a) in
  let rb := length (shape b) in
  let batch_a := firstn (ra - 2) (shape a) in
  let batch_b := firstn (rb - 2) (shape b) in
  let m := nth (ra - 2) (shape a) 0 in
  let n := nth (ra - 1) (shape a) 0 in
  let p := nth (rb - 1) (shape b) 0 in
  mkTensor (bshape batch_a batch_b ++ [m; p])
    (fun idx =>
       let batch := firstn (length idx - 2) idx in
       let '(i, j) := last2 idx in
       sum_n n (fun k => get a (bindex batch_a batch ++ [i; k])
                         * get b (bindex batch_b batch ++ [k; j]))%R).

Definition r_transpose {A} (x : tensor A) (dim0 dim1 : Z) : tensor A :=
  let i := norm_dim (length (shape x)) dim0 in
  let j := norm_dim (length (shape x)) dim1 in
  mkTensor (swap i j (shape x)) (fun idx => get x (swap i j idx)).

Definition r_unsqueeze {A} (x : tensor A) (dim : Z) : tensor A :=
  let i := norm_dim (S (length (shape x))) dim in
  mkTensor (firstn i (shape x) ++ 1 :: skipn i (shape x))
           (fun idx => get x (firstn i idx ++ skipn (S i) idx)).

(** [x.view(...)] on the sizes [shp], one of them possibly [-1]. *)
Definition view_shape (total : nat) (shp : list Z) : list nat :=
  let known := fold_right (fun d acc => if (d =? -1)%Z then acc
                                        else Z.to_nat d * acc) 1 shp in
  map (fun d => if (d =? -1)%Z then total / known else Z.to_nat d) shp.

Definition r_view {A} (x : tensor A) (shp : list Z) : tensor A :=
  let new := view_shape (numel (shape x)) shp in
  mkTensor new (fun idx => get x (unravel (shape x) (ravel new idx))).

(** [x.masked_fill(cond, v)] for a [cond] that broadcasts to the shape of
    [x], as [attention] requires of its mask: the result has the shape of
    [x].  Statements about masked scores carry that condition as a
    hypothesis. *)
Definition r_masked_fill (x : tensor R) (cond : tensor bool) (v : R) : tensor R :=
  mkTensor (shape x)
    (fun idx => if get cond (bindex (shape cond) idx) then v else get x idx).

Definition r_mask_eq0 (mask : tensor bool) : tensor bool :=
  mkTensor (shape mask) (fun idx => negb (get mask idx)).

Definition r_softmax (x : tensor R) (dim : Z) : tensor R :=
  let i := norm_dim (length (shape x)) dim in
  let n := nth i (shape x) 0 in
  mkTensor (shape x)
    (fun idx => exp (get x idx)
                / sum_n n (fun j => exp (get x (set_nth i j idx))))%R.

Definition r_log_softmax (x : tensor R) (dim : Z) : tensor R :=
  let i := norm_dim (length (shape x)) dim in
  let n := nth i (shape x) 0 in
  mkTensor (shape x)
    (fun idx => get x idx
                - ln (sum_n n (fun j => exp (get x (set_nth i j idx)))))%R.

(** [x.mean(dim, keepdim=True)] *)
Definition r_mean (x : tensor R) (dim : Z) : tensor R :=
  let i := norm_dim (length (shape x)) dim in
  let n := nth i (shape x) 0 in
  mkTensor (set_nth i 1 (shape x))
    (fun idx => sum_n n (fun j => get x (set_nth i j idx)) / INR n)%R.

(** [x.std(dim, keepdim=True)]: torch's default, the unbiased estimate. *)
Definition r_std (x : tensor R) (dim : Z) : tensor R :=
  let i := norm_dim (length (shape x)) dim in
  let n := nth i (shape x) 0 in
  mkTensor (set_nth i 1 (shape x))
    (fun idx =>
       let mean := (sum_n n (fun j => get x (set_nth i j idx)) / INR n)%R in
       sqrt (sum_n n (fun j => (get x (set_nth i j idx) - mean) ^ 2)
             / (INR n - 1)))%R.

(** [F.linear(x, weight, bias)], [weight] of shape (out, in). *)
Definition r_linear (x w b : tensor R) : tensor R :=
  let last := length (shape x) - 1 in
  let out_features := nth 0 (shape w) 0 in
  let in_features := nth 1 (shape w) 0 in
  mkTensor (set_nth last out_features (shape x))
    (fun idx =>
       let o := nth last idx 0%nat in
       sum_n in_features (fun k => get x (set_nth last k idx) * get w [o; k])
       + get b [o])%R.

(** [F.embedding(ids, weight)]; an id outside the table is an [IndexError]. *)
Definition r_embedding (ids : tensor Z) (w : tensor R) : result (tensor R) :=
  let rows := Z.of_nat (nth 0 (shape w) 0) in
  if forallb (fun idx => (0 <=? get ids idx)%Z && (get ids idx <? rows)%Z)
             (all_indices (shape ids))
  then Ok (mkTensor (shape ids ++ [nth 1 (shape w) 0])
             (fun idx => get w [Z.to_nat (get ids (removelast idx)); last idx 0]))
  else Raise IndexError.

(** [x[:, :n]] *)
Definition r_slice1 (x : tensor R) (n : Z) : tensor R :=
  mkTensor (set_nth 1 (Nat.min (Z.to_nat n) (nth 1 (shape x) 0)) (shape x))
           (get x).

(** The generator is a stream of samples and a cursor into it. *)
Record rng_state : Type := mkRng { cursor : nat; stream : nat -> R }.

(** [F.dropout(x, p, training=True)]: the entry whose sample falls below [p]
    is zeroed, the others are scaled by [1 / (1 - p)]. *)
Definition r_dropout (x : tensor R) (p : Q) (g : rng_state)
  : tensor R * rng_state :=
  (mkTensor (shape x)
     (fun idx =>
        if Rlt_dec (stream g (cursor g + ravel (shape x) idx)) (Q2R p)
        then 0 else get x idx / (1 - Q2R p))%R,
   mkRng (cursor g + numel (shape x)) (stream g)).

Definition r_init (k : initializer) (shp : list Z) (g : rng_state)
  : tensor R * rng_state :=
  let s := map Z.to_nat shp in
  match k with
  | Zeros => (mkTensor s (fun _ => 0%R), g)
  | Ones => (mkTensor s (fun _ => 1%R), g)
  | _ => (mkTensor s (fun idx => stream g (cursor g + ravel s idx)),
          mkRng (cursor g + numel s) (stream g))
  end.

(** Lines 70 to 76 of the source: column [2i] holds [sin(pos * div_term[i])]
    and column [2i+1] holds [cos(pos * div_term[i])], with
    [div_term[i] = exp(2i * -(log(10000) / d_model))]. *)
Definition r_positional_table (max_len d_model : Z) : tensor R :=
  mkTensor [1; Z.to_nat max_len; Z.to_nat d_model]
    (fun idx =>
       let position := INR (nth 1 idx 0%nat) in
       let column := nth 2 idx 0%nat in
       let div_term :=
         exp (INR (2 * (column / 2))%nat * - (ln 10000 / IZR d_model)) in
       if Nat.even column then sin (position * div_term)
       else cos (position * div_term))%R.

#[export] Instance RealTorch : Torch := {
  Tensor := tensor R;
  LongTensor := tensor Z;
  MaskTensor := tensor bool;
  Float := R;
  RNG := rng_state;
  float_lit := Q2R;
  float_sqrt n := sqrt (IZR n);
  t_shape := r_shape;
  t_size := r_size;
  t_matmul := r_matmul;
  t_transpose := r_transpose;
  t_div_float x c := r_map (fun v => v / c)%R x;
  t_mul_float x c := r_map (fun v => v * c)%R x;
  t_add_float x c := r_map (fun v => v + c)%R x;
  t_mask_eq0 := r_mask_eq0;
  t_mask_unsqueeze := r_unsqueeze;
  t_masked_fill := r_masked_fill;
  t_softmax := r_softmax;
  t_log_softmax := r_log_softmax;
  t_view := r_view;
  t_contiguous x := x;
  t_linear := r_linear;
  t_relu := r_map (Rmax 0);
  t_mean := r_mean;
  t_std := r_std;
  t_add := r_zip Rplus;
  t_sub := r_zip Rminus;
  t_mul := r_zip Rmult;
  t_div := r_zip Rdiv;
  t_embedding := r_embedding;
  t_slice1 := r_slice1;
  t_dropout := r_dropout;
  t_init := r_init;
  t_positional_table := r_positional_table
}.

(** ** Concrete states and inputs *)

(** A store with nothing allocated and a generator whose samples are all 0. *)
Definition empty_world : @world RealTorch :=
  mkWorld 0 (fun _ => mkTensor [] (fun _ => 0%R)) (fun _ => None)
          (mkRng 0 (fun _ => 0%R)).

(** ** Vocabulary of the statements *)

(** A dropout rate [nn.Dropout] accepts. *)
Definition valid_rate (p : Q) : Prop := Qle_bool 0 p && Qle_bool p 1 = true.

(** [relocate] renames exactly the locations that [storages] lists. *)
Definition lawful (M : Type) `{NNModule M} : Prop :=
  forall (f : loc -> loc) (m : M), storages (relocate f m) = map f (storages m).

Arguments lawful M {_}.

(** Every location of the module has been handed out by the store. *)
Definition allocated {T : Torch} {M} `{NNModule M} (w : world) (m : M) : Prop :=
  forall l, In l (storages m) -> l < next w.

(** Two module objects reach a common location. *)
Definition share_storage {M N} `{NNModule M} `{NNModule N} (a : M) (b : N) : Prop :=
  exists l, In l (storages a) /\ In l (storages b).

(** "Applies the layers sequentially": the first to the input, each next one
    to the output of the one before. *)
Fixpoint apply_sequentially {T : Torch} (fs : list (Tensor -> Mon Tensor))
  (x : Tensor) : Mon Tensor :=
  match fs with
  | [] => ret x
  | f :: fs' => bind (f x) (apply_sequentially fs')
  end.

(** A model of dimension 2 with one head, one encoder layer and one decoder
    layer, a vocabulary of 3 tokens, in evaluation mode, and a store in
    which every weight, bias and embedding is zero and every [LayerNorm] has
    its initial scale 1 and shift 0.  Locations 0 to 31 are the weights
    (even) and biases (odd) of sixteen [Linear]s, 32 to 45 the scales (even)
    and shifts (odd) of seven [LayerNorm]s, 46 to 48 the three [attn]
    attributes, 49 and 50 the embedding tables, 51 and 52 the positional
    tables, 53 and 54 the weight and bias of the generator. *)
Definition example_linear (i : nat) : Linear := mkLinear (2 * i) (2 * i + 1).

Definition example_dropout : Dropout := mkDropout (1 # 10) false.

Definition example_norm (i : nat) : LayerNorm :=
  mkLayerNorm (32 + 2 * i) (33 + 2 * i) (1 # 1000000).

Definition example_sublayer (i : nat) : SublayerConnection :=
  mkSublayerConnection (example_norm i) example_dropout.

Definition example_self_attn : MultiHeadedAttention :=
  mkMultiHeadedAttention 2 1 (map example_linear [0; 1; 2; 3]) 46 example_dropout.

Definition example_src_attn : MultiHeadedAttention :=
  mkMultiHeadedAttention 2 1 (map example_linear [4; 5; 6; 7]) 47 example_dropout.

Definition example_decoder_layer : DecoderLayer :=
  mkDecoderLayer 2 example_self_attn example_src_attn
    (mkPositionwiseFeedForward (example_linear 8) (example_linear 9) example_dropout)
    (map example_sublayer [0; 1; 2]).

Definition example_encoder_layer : EncoderLayer :=
  mkEncoderLayer
    (mkMultiHeadedAttention 2 1 (map example_linear [10; 11; 12; 13]) 48
                            example_dropout)
    (mkPositionwiseFeedForward (example_linear 14) (example_linear 15)
                               example_dropout)
    (map example_sublayer [3; 4]) 2.

Definition example_model : EncoderDecoder :=
  mkEncoderDecoder
    (mkEncoder [example_encoder_layer] (example_norm 5))
    (mkDecoder [example_decoder_layer] (example_norm 6))
    (mkSequential (mkEmbeddings (mkEmbedding 49) 2)
                  (mkPositionalEncoding example_dropout 51))
    (mkSequential (mkEmbeddings (mkEmbedding 50) 2)
                  (mkPositionalEncoding example_dropout 52))
    (mkGenerator (mkLinear 53 54)).

Definition example_world : @world RealTorch :=
  mkWorld 55
    (fun l =>
       if l <? 32 then
         if Nat.even l then mkTensor [2; 2] (fun _ => 0%R)
         else mkTensor [2] (fun _ => 0%R)
       else if l <? 46 then
         if Nat.even l then mkTensor [2] (fun _ => 1%R)
         else mkTensor [2] (fun _ => 0%R)
       else if l <? 51 then mkTensor [3; 2] (fun _ => 0%R)
       else if l <? 53 then r_positional_table 5000 2
       else if l =? 53 then mkTensor [3; 2] (fun _ => 0%R)
       else mkTensor [3] (fun _ => 0%R))
    (fun _ => None)
    (mkRng 0 (fun _ => 0%R)).

(** The scores of line 91, [matmul(query, key.transpose(-2, -1)) / sqrt(d_k)],
    over the reals. *)
Definition attention_scores (query key : tensor R) : tensor R :=
  r_map (fun v => v / sqrt (IZR (r_size query (-1))))%R
        (r_matmul query (r_transpose key (-2) (-1))).

(** The fill value of line 96, [-1e9]. *)
Definition sentinel : R := Q2R (- (1000000000 # 1)).

(** The mask, broadcast to the scores, is 0 at [idx]. *)
Definition forbids (mask : tensor bool) (idx : list nat) : Prop :=
  get mask (bindex (shape mask) idx) = false.

Definition zeros (shp : list nat) : tensor R := mkTensor shp (fun _ => 0%R).

(** A mask over one query and two keys that forbids the second key, one
    that forbids the only key there is, and one that permits everything. *)
Definition mask_second_forbidden : tensor bool :=
  mkTensor [1; 2] (fun idx => nth 1 idx 0 =? 0).

Definition mask_all_forbidden : tensor bool :=
  mkTensor [1; 1] (fun _ => false).

Definition mask_all_permitted (shp : list nat) : tensor bool :=
  mkTensor shp (fun _ => true).

(** An index inside a shape. *)
Definition valid_index (shp idx : list nat) : Prop := Forall2 lt idx shp.

(** The claim's "result before applying the learnable scale and shift":
    [(x - mean) / (std + eps)] over the last axis. *)
Definition layer_norm_normalized (x : tensor R) (eps : Q) : tensor R :=
  r_zip Rdiv (r_zip Rminus x (r_mean x (-1)))
             (r_map (fun v => v + Q2R eps)%R (r_std x (-1))).

(** The vector [[0., 2.]]. *)
Definition example_vector : tensor R :=
  mkTensor [2] (fun idx => match nth 0 idx 0 with 0 => 0%R | _ => 2%R end).

(** An embedding of 3 tokens in dimension 4 whose table holds [row + column]
    at (row, column), stored at location 0, and the ids [[1, 2]]. *)
Definition example_embeddings : Embeddings := mkEmbeddings (mkEmbedding 0) 4.

Definition example_embedding_world : @world RealTorch :=
  mkWorld 1
    (fun _ => mkTensor [3; 4] (fun idx => INR (nth 0 idx 0 + nth 1 idx 0)))
    (fun _ => None)
    (mkRng 0 (fun _ => 0%R)).

Definition example_ids : tensor Z :=
  mkTensor [1; 2] (fun idx => (Z.of_nat (nth 1 idx 0%nat) + 1)%Z).

(** *** Purity of a computation in the store *)

(** Two stores hold the same tensors and the same generator state; they may
    differ in what has been allocated and in the attributes. *)
Definition agree {T : Torch} (w1 w2 : world) : Prop :=
  (forall l, tensors w1 l = tensors w2 l) /\ rng w1 = rng w2.

Definition same_outcome {T : Torch} {A} (r1 r2 : result (A * world)) : Prop :=
  match r1, r2 with
  | Ok (a1, w1), Ok (a2, w2) => a1 = a2 /\ agree w1 w2
  | Raise e1, Raise e2 => e1 = e2
  | _, _ => False
  end.

(** The outcome depends on the tensors and the generator state only. *)
Definition deterministic {T : Torch} {A} (m : Mon A) : Prop :=
  forall w1 w2, agree w1 w2 -> same_outcome (m w1) (m w2).

(** Nothing is allocated, no tensor is written, and no attribute outside
    [slots] is written. *)
Definition preserves {T : Torch} {A} (slots : list loc) (m : Mon A) : Prop :=
  forall w a w',
    m w = Ok (a, w') ->
    next w' = next w /\
    (forall l, tensors w' l = tensors w l) /\
    (forall l, ~ In l slots -> attrs w' l = attrs w l).

Definition forward_like {T : Torch} {A} (slots : list loc) (m : Mon A) : Prop :=
  deterministic m /\ preserves slots m.

(** What [LayerNorm.forward] returns over the reals, read off the store. *)
Definition LayerNorm_value (w : @world RealTorch) (self : LayerNorm)
  (x : tensor R) : tensor R :=
  r_zip Rplus
    (r_zip Rdiv
       (r_zip Rmult (tensors w (ln_a_2 self)) (r_zip Rminus x (r_mean x (-1))))
       (r_map (fun v => v + Q2R (ln_eps self))%R (r_std x (-1))))
    (tensors w (ln_b_2 self)).

(** The projection of [x] to heads by the linear layer [l], lines 152 and
    153: [l(x).view(nbatches, -1, h, d_k).transpose(1, 2)]. *)
Definition heads (w : @world RealTorch) (self : MultiHeadedAttention)
  (nbatches : Z) (l : Linear) (x : tensor R) : tensor R :=
  r_transpose
    (r_view (r_linear x (tensors w (weight l)) (tensors w (bias l)))
            [nbatches; -1; mha_h self; mha_d_k self]%Z) 1 2.

(** The masked scores and the weights [softmax(masked scores)] of a
    multi-head attention whose query and key projections are [lq] and [lk]. *)
Definition attention_filled_scores (w : @world RealTorch)
  (self : MultiHeadedAttention) (lq lk : Linear) (query key : tensor R)
  (mask : option (tensor bool)) : tensor R :=
  let scores := attention_scores (heads w self (r_size query 0) lq query)
                                 (heads w self (r_size query 0) lk key) in
  match mask with
  | Some m => r_masked_fill scores (r_mask_eq0 (r_unsqueeze m 1)) sentinel
  | None => scores
  end.

Definition attention_weights (w : @world RealTorch) (self : MultiHeadedAttention)
  (lq lk : Linear) (query key : tensor R) (mask : option (tensor bool))
  : tensor R :=
  r_softmax (attention_filled_scores w self lq lk query key mask) (-1).

(** *** Evaluation mode

    What [model.eval()] leaves behind: every dropout of the model has
    [training = False]. *)
Definition EncoderLayer_eval (m : EncoderLayer) : Prop :=
  training (mha_dropout (el_self_attn m)) = false /\
  training (ff_dropout (el_feed_forward m)) = false /\
  Forall (fun s => training (sc_dropout s) = false) (el_sublayer m).

Definition DecoderLayer_eval (m : DecoderLayer) : Prop :=
  training (mha_dropout (dl_self_attn m)) = false /\
  training (mha_dropout (dl_src_attn m)) = false /\
  training (ff_dropout (dl_feed_forward m)) = false /\
  Forall (fun s => training (sc_dropout s) = false) (dl_sublayer m).

Definition EncoderDecoder_eval (m : EncoderDecoder) : Prop :=
  Forall EncoderLayer_eval (enc_layers (ed_encoder m)) /\
  Forall DecoderLayer_eval (dec_layers (ed_decoder m)) /\
  training (pos_dropout (seq_1 (ed_src_embed m))) = false /\
  training (pos_dropout (seq_1 (ed_tgt_embed m))) = false.

(** The computation draws nothing from the random generator. *)
Definition keeps_rng {T : Torch} {A} (m : Mon A) : Prop :=
  forall w a w', m w = Ok (a, w') -> rng w' = rng w.


(** *** What the constructors build

    The shape of the objects [make_model] assembles: an attention module
    with [h] heads over [d_model] and its four projections, a feed-forward
    network, [n] sublayer connections, and the layers made of them.  A
    dropout just constructed is in training mode. *)
Definition attention_built (h d_model : Z) (rate : Q)
  (m : MultiHeadedAttention) : Prop :=
  mha_h m = h /\ (mha_h m * mha_d_k m = d_model)%Z /\
  length (mha_linears m) = 4 /\
  mha_dropout m = mkDropout rate true.

Definition sublayers_built (n : nat) (rate : Q)
  (l : list SublayerConnection) : Prop :=
  length l = n /\ Forall (fun s => sc_dropout s = mkDropout rate true) l.

Definition EncoderLayer_built (h d_model : Z) (rate : Q)
  (m : EncoderLayer) : Prop :=
  el_size m = d_model /\
  attention_built h d_model (1 # 10) (el_self_attn m) /\
  ff_dropout (el_feed_forward m) = mkDropout rate true /\
  sublayers_built 2 rate (el_sublayer m).

Definition DecoderLayer_built (h d_model : Z) (rate : Q)
  (m : DecoderLayer) : Prop :=
  dl_size m = d_model /\
  attention_built h d_model (1 # 10) (dl_self_attn m) /\
  attention_built h d_model (1 # 10) (dl_src_attn m) /\
  ff_dropout (dl_feed_forward m) = mkDropout rate true /\
  sublayers_built 3 rate (dl_sublayer m).


(** *** Shapes of the parameters

    What the constructors give the parameters of a model of dimension
    [h * d_k]: a [Linear] from [inp] to [out] features has a weight
    [(out, inp)] and a bias [(out,)]; a [LayerNorm] has a scale and a shift
    [(d,)]; an embedding has a table [(vocab, d)]; the positional table is
    [(1, max_len, d)].  [tn] is the content of the store. *)
Definition Linear_shaped (tn : loc -> tensor R) (inp out : nat) (l : Linear)
  : Prop :=
  shape (tn (weight l)) = [out; inp] /\ shape (tn (bias l)) = [out].

Definition LayerNorm_shaped (tn : loc -> tensor R) (d : nat) (n : LayerNorm)
  : Prop :=
  shape (tn (ln_a_2 n)) = [d] /\ shape (tn (ln_b_2 n)) = [d].

Definition MultiHeadedAttention_shaped (tn : loc -> tensor R) (h d_k : nat)
  (m : MultiHeadedAttention) : Prop :=
  mha_h m = Z.of_nat h /\ mha_d_k m = Z.of_nat d_k /\
  length (mha_linears m) = 4 /\
  Forall (Linear_shaped tn (h * d_k) (h * d_k)) (mha_linears m).

Definition PositionwiseFeedForward_shaped (tn : loc -> tensor R) (d : nat)
  (m : PositionwiseFeedForward) : Prop :=
  exists d_ff : nat,
    Linear_shaped tn d d_ff (ff_w_1 m) /\ Linear_shaped tn d_ff d (ff_w_2 m).

Definition EncoderLayer_shaped (tn : loc -> tensor R) (h d_k : nat)
  (m : EncoderLayer) : Prop :=
  MultiHeadedAttention_shaped tn h d_k (el_self_attn m) /\
  PositionwiseFeedForward_shaped tn (h * d_k) (el_feed_forward m) /\
  length (el_sublayer m) = 2 /\
  Forall (fun s => LayerNorm_shaped tn (h * d_k) (sc_norm s)) (el_sublayer m).

Definition DecoderLayer_shaped (tn : loc -> tensor R) (h d_k : nat)
  (m : DecoderLayer) : Prop :=
  MultiHeadedAttention_shaped tn h d_k (dl_self_attn m) /\
  MultiHeadedAttention_shaped tn h d_k (dl_src_attn m) /\
  PositionwiseFeedForward_shaped tn (h * d_k) (dl_feed_forward m) /\
  length (dl_sublayer m) = 3 /\
  Forall (fun s => LayerNorm_shaped tn (h * d_k) (sc_norm s)) (dl_sublayer m).

Definition Sequential_shaped (tn : loc -> tensor R) (d vocab max_len : nat)
  (m : Sequential) : Prop :=
  (0 <= emb_d_model (seq_0 m))%Z /\
  shape (tn (emb_weight (emb_lut (seq_0 m)))) = [vocab; d] /\
  shape (tn (pos_pe (seq_1 m))) = [1; max_len; d].

Definition EncoderDecoder_shaped (tn : loc -> tensor R)
  (h d_k src_vocab tgt_vocab max_len : nat) (m : EncoderDecoder) : Prop :=
  Forall (EncoderLayer_shaped tn h d_k) (enc_layers (ed_encoder m)) /\
  LayerNorm_shaped tn (h * d_k) (enc_norm (ed_encoder m)) /\
  Forall (DecoderLayer_shaped tn h d_k) (dec_layers (ed_decoder m)) /\
  LayerNorm_shaped tn (h * d_k) (dec_norm (ed_decoder m)) /\
  Sequential_shaped tn (h * d_k) src_vocab max_len (ed_src_embed m) /\
  Sequential_shaped tn (h * d_k) tgt_vocab max_len (ed_tgt_embed m).

(** A mask that broadcasts against scores of shape [(B, h, Sq, Sk)] once
    [unsqueeze(1)] has given it the head axis: [(B or 1, Sq or 1, Sk)]. *)
Definition mask_fits (B Sq Sk : nat) (mask : option (tensor bool)) : Prop :=
  match mask with
  | None => True
  | Some m => exists b q : nat,
                shape m = [b; q; Sk] /\ (b = 1 \/ b = B) /\ (q = 1 \/ q = Sq)
  end.

(** Token ids inside a vocabulary of [vocab] entries. *)
Definition ids_within (vocab : nat) (x : tensor Z) : Prop :=
  forall idx, valid_index (shape x) idx -> (0 <= get x idx < Z.of_nat vocab)%Z.


(** *** Contracts of the callers *)

(** [a] broadcasts to [b]: aligned on the last axis, every axis of [a] has
    size 1 or the size of the axis of [b] it meets. *)
Definition broadcasts_to (a b : list nat) : Prop :=
  length a <= length b /\
  Forall2 (fun x y => x = 1 \/ x = y) a (skipn (length b - length a) b).

(** The contract of [attention]: a query [(..., Sq, d_k)], a key
    [(..., Sk, d_k)] and a value [(..., Sk, d_v)] over the same leading
    axes, with [d_k >= 1], and a mask, if there is one, that broadcasts to
    the shape [(..., Sq, Sk)] of the scores. *)
Definition attention_fits (query key value : tensor R)
  (mask : option (tensor bool)) : Prop :=
  exists (batch : list nat) (Sq Sk d_k d_v : nat),
    shape query = batch ++ [Sq; d_k] /\
    shape key = batch ++ [Sk; d_k] /\
    shape value = batch ++ [Sk; d_v] /\
    1 <= d_k /\
    match mask with
    | Some m => broadcasts_to (shape m) (batch ++ [Sq; Sk])
    | None => True
    end.

(** No forward call has left a tensor in the module: every attribute slot
    it reaches holds [None], as when the module was built. *)
Definition attrs_unset {T : Torch} {M} `{NNModule M} (w : world) (m : M)
  : Prop :=
  forall l, In l (storages m) -> attrs w l = None.

(** [a & b] on masks: how the caller is to combine the target padding mask
    with the causal mask before handing it to the decoder. *)
Definition mask_and (a b : tensor bool) : tensor bool :=
  mkTensor (bshape (shape a) (shape b))
    (fun idx => get a (bindex (shape a) idx) && get b (bindex (shape b) idx)).

(** A mask over a target of [n] positions that forbids every position
    later than the query's. *)
Definition hides_later (n : nat) (m : tensor bool) : Prop :=
  forall b i j, i < j -> j < n -> forbids m [b; i; j].

(** The padding mask [(1, 1, 2)] of a target of two positions whose first
    position is padding. *)
Definition example_padding_mask : tensor bool :=
  mkTensor [1; 1; 2] (fun idx => negb (nth 2 idx 0 =? 0)).

(** The vector [[-1e-6, 0., 1e-6]], of standard deviation [1e-6]. *)
Definition example_small_vector : tensor R :=
  mkTensor [3] (fun idx => match nth 0 idx 0 with
                           | 0 => (- Q2R (1 # 1000000))%R
                           | 1 => 0%R
                           | _ => Q2R (1 # 1000000)
                           end).

(** The computation leaves a tensor in every attribute of [slots], and
    empties no attribute that held one. *)
Definition fills {T : Torch} {A} (slots : list loc) (m : Mon A) : Prop :=
  forall w a w',
    m w = Ok (a, w') ->
    (forall l, In l slots -> attrs w' l <> None) /\
    (forall l, attrs w l <> None -> attrs w' l <> None).


(** * Properties *)

(** ** [subsequent_mask] *)

Lemma subsequent_mask_ok (size : Z) :
  (0 <= size)%Z ->
  subsequent_mask size =
  Ok (torch_eq0 (np_astype_uint8 (np_triu 1
        (mkTensor [1; Z.to_nat size; Z.to_nat size] (fun _ => 1%Q))))).
Proof.
  intros Hsize. unfold subsequent_mask, np_ones. simpl.
  destruct (Z.leb_spec 0 size) as [_|Hneg]; [reflexivity | lia].
Qed.

Lemma subsequent_mask_entry (shp : list nat) (b i j : nat) :
  get (torch_eq0 (np_astype_uint8 (np_triu 1
        (mkTensor shp (fun _ => 1%Q))))) [b; i; j] = (j <=? i).
Proof.
  simpl. destruct (Z.leb_spec 1 (Z.of_nat j - Z.of_nat i)) as [H|H];
    destruct (Nat.leb_spec j i) as [H'|H']; try lia; reflexivity.
Qed.

(** C4: for a size [n >= 0], [subsequent_mask(n)] returns a boolean mask
    whose entry (i, j) is [True] exactly when [j <= i]; and
    [subsequent_mask(4)] has the rows [T,F,F,F], [T,T,F,F], [T,T,T,F],
    [T,T,T,T]. *)
Theorem subsequent_mask_lower_triangular (n : Z) (Hn : (0 <= n)%Z) :
  (exists m : tensor bool,
      subsequent_mask n = Ok m /\
      forall i j : nat, (Z.of_nat i < n)%Z -> (Z.of_nat j < n)%Z ->
                        (get m [0; i; j] = true <-> j <= i)) /\
  (exists m4 : tensor bool,
      subsequent_mask 4 = Ok m4 /\
      tolist3 m4 = [[[true; false; false; false];
                     [true; true; false; false];
                     [true; true; true; false];
                     [true; true; true; true]]]).
Proof.
  split.
  - eexists. split; [apply subsequent_mask_ok; exact Hn|].
    intros i j _ _. rewrite subsequent_mask_entry.
    apply Nat.leb_le.
  - eexists. split; reflexivity.
Qed.

Lemma subsequent_mask_lower_triangular_witness :
  (0 <= 3)%Z /\
  ((exists m : tensor bool,
      subsequent_mask 3 = Ok m /\
      forall i j : nat, (Z.of_nat i < 3)%Z -> (Z.of_nat j < 3)%Z ->
                        (get m [0; i; j] = true <-> j <= i)) /\
   (exists m4 : tensor bool,
      subsequent_mask 4 = Ok m4 /\
      tolist3 m4 = [[[true; false; false; false];
                     [true; true; false; false];
                     [true; true; true; false];
                     [true; true; true; true]]])).
Proof.
  split; [lia | apply (@subsequent_mask_lower_triangular 3); lia].
Defined.

(** C10: for a size [>= 1], [subsequent_mask(size)] returns a tensor of
    booleans of shape [(1, size, size)]. *)
Theorem subsequent_mask_shape (size : Z) (Hsize : (1 <= size)%Z) :
  exists m : tensor bool,
    subsequent_mask size = Ok m /\ r_shape m = [1; size; size]%Z.
Proof.
  eexists. split; [apply subsequent_mask_ok; lia|].
  unfold r_shape. simpl. rewrite Z2Nat.id by lia. reflexivity.
Qed.

Lemma subsequent_mask_shape_witness :
  (1 <= 4)%Z /\
  exists m : tensor bool,
    subsequent_mask 4 = Ok m /\ r_shape m = [1; 4; 4]%Z.
Proof.
  split; [lia | apply (@subsequent_mask_shape 4); lia].
Defined.

(** ** The construction monad *)

Section MonadFacts.

Context {T : Torch}.

Lemma bind_Ok {A B} (m : Mon A) (k : A -> Mon B) w a w1 :
  m w = Ok (a, w1) -> bind m k w = k a w1.
Proof. intros H. unfold bind. rewrite H. reflexivity. Qed.

Lemma bind_Raise {A B} (m : Mon A) (k : A -> Mon B) w e :
  m w = Raise e -> bind m k w = Raise e.
Proof. intros H. unfold bind. rewrite H. reflexivity. Qed.

Lemma bind_Ok_inv {A B} (m : Mon A) (k : A -> Mon B) w b w' :
  bind m k w = Ok (b, w') ->
  exists a w1, m w = Ok (a, w1) /\ k a w1 = Ok (b, w').
Proof.
  unfold bind. destruct (m w) as [[a w1]|e]; [|discriminate].
  intros H. exists a, w1. split; [reflexivity | exact H].
Qed.

Lemma with_rng_Ok {A} (f : RNG -> A * RNG) w :
  with_rng f w = Ok (fst (f (rng w)),
                     mkWorld (next w) (tensors w) (attrs w) (snd (f (rng w)))).
Proof. unfold with_rng. destruct (f (rng w)); reflexivity. Qed.

Lemma mapM_deepcopy_total {M} `{NNModule M} (m : M) (l : list nat) w :
  exists ms w', mapM (fun _ => deepcopy m) l w = Ok (ms, w').
Proof.
  revert w. induction l as [|i l IH]; intros w; simpl.
  - eexists _, _. reflexivity.
  - unfold bind at 1. unfold deepcopy at 1. cbv beta zeta.
    match goal with |- context [bind _ _ ?w1] => destruct (IH w1) as (ms & w' & E) end.
    unfold bind at 1. rewrite E. eexists _, _. reflexivity.
Qed.

Lemma clones_total {M} `{NNModule M} (m : M) (N : Z) w :
  exists ms w', clones m N w = Ok (ms, w').
Proof. apply mapM_deepcopy_total. Qed.

Lemma nn_Linear_total (i o : Z) w :
  (0 <= i)%Z -> (0 <= o)%Z -> exists l w', nn_Linear i o w = Ok (l, w').
Proof.
  intros Hi Ho. unfold nn_Linear.
  destruct (Z.ltb_spec i 0); [lia|]. destruct (Z.ltb_spec o 0); [lia|].
  simpl. unfold bind. rewrite with_rng_Ok. unfold new_tensor. cbv beta iota zeta.
  rewrite with_rng_Ok. eexists _, _. reflexivity.
Qed.

Lemma nn_Linear_negative (i o : Z) w :
  (i < 0)%Z \/ (o < 0)%Z -> nn_Linear i o w = Raise RuntimeError.
Proof.
  intros H. unfold nn_Linear.
  destruct (Z.ltb_spec i 0); destruct (Z.ltb_spec o 0); simpl; try reflexivity; lia.
Qed.

Lemma result_eq_dec_Z (r1 r2 : result Z) : {r1 = r2} + {r1 <> r2}.
Proof. decide equality; [apply Z.eq_dec | decide equality]. Qed.

(** What the guard [assert d_model % h == 0] lets through. *)
Lemma MultiHeadedAttention_init_guard (h d_model : Z) (dropout : Q) w :
  py_mod d_model h <> Ok 0%Z ->
  exists e, MultiHeadedAttention_init h d_model dropout w = Raise e /\
            (e = ZeroDivisionError \/ e = AssertionError).
Proof.
  intros Hmod. unfold MultiHeadedAttention_init, py_mod in *.
  destruct (Z.eqb_spec h 0) as [Hh|Hh].
  - exists ZeroDivisionError. split; [reflexivity | now left].
  - unfold bind at 1. simpl.
    destruct (Z.eqb_spec (d_model mod h) 0) as [E|E].
    + exfalso. apply Hmod. now rewrite E.
    + exists AssertionError. split; [reflexivity | now right].
Qed.

Lemma MultiHeadedAttention_init_succeeds (h d_model : Z) w :
  (0 <= d_model)%Z -> py_mod d_model h = Ok 0%Z ->
  exists m w', MultiHeadedAttention_init h d_model (1 # 10) w = Ok (m, w').
Proof.
  intros Hd Hmod. unfold MultiHeadedAttention_init.
  rewrite Hmod. unfold bind at 1. simpl.
  unfold py_mod in Hmod. unfold py_floordiv.
  destruct (Z.eqb_spec h 0) as [Hh|Hh]; [discriminate|].
  unfold bind at 1. simpl.
  destruct (nn_Linear_total w Hd Hd) as (l & w1 & El).
  rewrite (bind_Ok _ _ _ El).
  destruct (clones_total l 4 w1) as (ls & w2 & Ec).
  rewrite (bind_Ok _ _ _ Ec).
  eexists _, _. reflexivity.
Qed.

Lemma nn_Dropout_Ok (p : Q) w :
  Qle_bool 0 p && Qle_bool p 1 = true ->
  nn_Dropout p w = Ok (mkDropout p true, w).
Proof. intros H. unfold nn_Dropout. rewrite H. reflexivity. Qed.

Lemma PositionwiseFeedForward_init_total (d_model d_ff : Z) (dropout : Q) w :
  (0 <= d_model)%Z -> (0 <= d_ff)%Z ->
  Qle_bool 0 dropout && Qle_bool dropout 1 = true ->
  exists m w', PositionwiseFeedForward_init d_model d_ff dropout w = Ok (m, w').
Proof.
  intros Hd Hf Hp. unfold PositionwiseFeedForward_init.
  destruct (nn_Linear_total w Hd Hf) as (l1 & w1 & E1).
  rewrite (bind_Ok _ _ _ E1).
  destruct (nn_Linear_total w1 Hf Hd) as (l2 & w2 & E2).
  rewrite (bind_Ok _ _ _ E2).
  rewrite (bind_Ok _ _ _ (nn_Dropout_Ok _ w2 Hp)).
  eexists _, _. reflexivity.
Qed.

(** An odd [d_model] other than 1 stops [PositionalEncoding] at
    [pe[:, 1::2] = torch.cos(position * div_term)]. *)
Lemma PositionalEncoding_init_odd (k : Z) (dropout : Q) (max_len : Z) w :
  (1 <= k)%Z -> (0 <= max_len)%Z ->
  Qle_bool 0 dropout && Qle_bool dropout 1 = true ->
  PositionalEncoding_init (2 * k + 1) dropout max_len w = Raise RuntimeError.
Proof.
  intros Hk Hl Hp. unfold PositionalEncoding_init.
  rewrite (bind_Ok _ _ _ (nn_Dropout_Ok _ w Hp)).
  destruct (Z.ltb_spec max_len 0); [lia|].
  destruct (Z.ltb_spec (2 * k + 1) 0); [lia|]. simpl orb. cbv iota.
  destruct (Z.eqb_spec (2 * k + 1) 0); [lia|].
  replace ((2 * k + 1 + 1) / 2)%Z with (k + 1)%Z
    by (apply Z.div_unique with (r := 0%Z); lia).
  replace ((2 * k + 1) / 2)%Z with k
    by (apply Z.div_unique with (r := 1%Z); lia).
  unfold expandable. rewrite Z.eqb_refl. simpl.
  destruct (Z.eqb_spec (k + 1) k); [lia|].
  destruct (Z.eqb_spec (k + 1) 1); [lia|]. reflexivity.
Qed.

End MonadFacts.

(** ** [copy.deepcopy] and [clones] *)

Lemma uniq_from_In (x : loc) (l seen : list loc) :
  In x l -> ~ In x seen -> In x (uniq_from seen l).
Proof.
  revert seen. induction l as [|y ys IH]; intros seen Hin Hseen; simpl in *.
  - contradiction.
  - destruct (existsb (Nat.eqb y) seen) eqn:E.
    + apply IH; [|exact Hseen].
      destruct Hin as [->|Hin]; [|exact Hin].
      exfalso. apply Hseen. apply existsb_exists in E.
      destruct E as (z & Hz & Hyz). apply Nat.eqb_eq in Hyz. now subst.
    + destruct (Nat.eq_dec y x) as [->|Hne]; [now left|].
      right. apply IH.
      * destruct Hin as [Hin|Hin]; [contradiction | exact Hin].
      * intros [H|H]; [contradiction | now apply Hseen].
Qed.

Lemma index_of_In (x : loc) (l : list loc) :
  In x l -> exists i, index_of x l = Some i /\ i < length l.
Proof.
  induction l as [|y ys IH]; simpl; [contradiction|].
  intros Hin. destruct (Nat.eqb_spec x y) as [E|E].
  - exists 0. split; [reflexivity | lia].
  - destruct Hin as [Hin|Hin]; [congruence|].
    destruct (IH Hin) as (i & Ei & Hi). exists (S i).
    rewrite Ei. split; [reflexivity | lia].
Qed.

Section Clones.

Context {T : Torch} {M : Type} {HM : NNModule M}.
Hypothesis M_lawful : lawful M.

(** A deep copy lives in the interval of locations the copy allocates. *)
Lemma deepcopy_fresh (m : M) w m' w' :
  deepcopy m w = Ok (m', w') ->
  next w <= next w' /\
  forall l, In l (storages m') -> next w <= l < next w'.
Proof.
  unfold deepcopy. intros E. injection E as <- <-. simpl. split; [lia|].
  intros l Hl. rewrite M_lawful in Hl. apply in_map_iff in Hl.
  destruct Hl as (l0 & <- & Hl0).
  destruct (@index_of_In l0 (uniq (storages m))) as (i & Ei & Hi).
  { apply uniq_from_In; [exact Hl0 | intros []]. }
  rewrite Ei. lia.
Qed.

(** Successive deep copies occupy successive intervals. *)
Lemma mapM_deepcopy_ordered (m : M) (l : list nat) :
  forall w ms w',
    mapM (fun _ => deepcopy m) l w = Ok (ms, w') ->
    next w <= next w' /\
    length ms = length l /\
    (forall a x, In a ms -> In x (storages a) -> next w <= x < next w') /\
    (forall i j a b x y,
        i < j -> nth_error ms i = Some a -> nth_error ms j = Some b ->
        In x (storages a) -> In y (storages b) -> x < y).
Proof.
  induction l as [|k l IH]; intros w ms w' E; simpl in E.
  - injection E as <- <-. simpl.
    split; [lia|]. split; [reflexivity|]. split.
    + intros a x Ha. contradiction.
    + intros i j a b x y _ Hi. destruct i; discriminate.
  - apply bind_Ok_inv in E. destruct E as (m1 & w1 & E1 & E).
    apply bind_Ok_inv in E. destruct E as (ms' & w2 & E2 & E).
    injection E as <- <-.
    destruct (deepcopy_fresh E1) as (Hle1 & Hfresh).
    destruct (IH _ _ _ E2) as (Hle2 & Hlen & Hin & Hord).
    split; [lia|]. split; [simpl; lia|]. split.
    + intros a x [<-|Ha] Hx.
      * specialize (Hfresh _ Hx). lia.
      * specialize (Hin _ _ Ha Hx). lia.
    + intros i j a b x y Hij Hi Hj Hx Hy.
      destruct j as [|j]; [lia|]. simpl in Hj.
      destruct i as [|i]; simpl in Hi.
      * injection Hi as <-. specialize (Hfresh _ Hx).
        apply nth_error_In in Hj. specialize (Hin _ _ Hj Hy). lia.
      * apply (Hord i j a b x y); auto; lia.
Qed.

(** [clones(module, N)] returns [N] objects, no two of which reach a common
    location, and none of which reaches a location of [module]. *)
Lemma clones_independent (module : M) (N : Z) w :
  allocated w module ->
  exists ms w',
    clones module N w = Ok (ms, w') /\
    next w <= next w' /\
    length ms = Z.to_nat N /\
    (forall a, In a ms -> allocated w' a) /\
    (forall a, In a ms -> ~ share_storage a module) /\
    (forall i j a b, i <> j -> nth_error ms i = Some a ->
                     nth_error ms j = Some b -> ~ share_storage a b).
Proof.
  intros Halloc. destruct (clones_total module N w) as (ms & w' & E).
  exists ms, w'. split; [exact E|].
  destruct (@mapM_deepcopy_ordered module (py_range N) w ms w' E) as (Hle & Hlen & Hin & Hord).
  split; [exact Hle|]. split; [|split; [|split]].
  - rewrite Hlen. unfold py_range. apply length_seq.
  - intros a Ha l Hl. specialize (Hin _ _ Ha Hl). lia.
  - intros a Ha (x & Hx & Hx'). specialize (Hin _ _ Ha Hx).
    specialize (Halloc _ Hx'). lia.
  - intros i j a b Hij Hi Hj (x & Hx & Hx').
    destruct (Nat.lt_total i j) as [H|[H|H]]; [|contradiction|].
    + specialize (Hord i j a b x x H Hi Hj Hx Hx'). lia.
    + specialize (Hord j i b a x x H Hj Hi Hx' Hx). lia.
Qed.

End Clones.

(** ** The module classes rename what they reach *)

Lemma flat_map_relocate {M} `{NNModule M} :
  lawful M ->
  forall f (l : list M),
    flat_map storages (map (relocate f) l) = map f (flat_map storages l).
Proof.
  intros HM f l. induction l as [|m l IH]; simpl; [reflexivity|].
  rewrite map_app, HM, IH. reflexivity.
Qed.

Lemma lawful_list {M} `{NNModule M} : lawful M -> lawful (list M).
Proof. intros HM f l. apply flat_map_relocate, HM. Qed.

Section Lawful.

Context {T : Torch}.

Lemma lawful_Linear : lawful Linear.
Proof. intros f m. reflexivity. Qed.

Lemma lawful_LayerNorm : lawful LayerNorm.
Proof. intros f m. reflexivity. Qed.

Lemma lawful_MultiHeadedAttention : lawful MultiHeadedAttention.
Proof.
  intros f m.
  change (flat_map storages (map (relocate f) (mha_linears m)) ++ [f (mha_attn m)]
          = map f (flat_map storages (mha_linears m) ++ [mha_attn m])).
  rewrite map_app, (flat_map_relocate lawful_Linear). reflexivity.
Qed.

Lemma lawful_PositionwiseFeedForward : lawful PositionwiseFeedForward.
Proof. intros f m. reflexivity. Qed.

Lemma lawful_SublayerConnection : lawful SublayerConnection.
Proof. intros f m. reflexivity. Qed.

Lemma lawful_EncoderLayer : lawful EncoderLayer.
Proof.
  intros f m.
  change (storages (relocate f (el_self_attn m))
          ++ storages (relocate f (el_feed_forward m))
          ++ flat_map storages (map (relocate f) (el_sublayer m))
          = map f (storages (el_self_attn m) ++ storages (el_feed_forward m)
                   ++ flat_map storages (el_sublayer m))).
  rewrite !map_app, lawful_MultiHeadedAttention, lawful_PositionwiseFeedForward,
    (flat_map_relocate lawful_SublayerConnection).
  reflexivity.
Qed.

Lemma lawful_DecoderLayer : lawful DecoderLayer.
Proof.
  intros f m.
  change (storages (relocate f (dl_self_attn m))
          ++ storages (relocate f (dl_src_attn m))
          ++ storages (relocate f (dl_feed_forward m))
          ++ flat_map storages (map (relocate f) (dl_sublayer m))
          = map f (storages (dl_self_attn m) ++ storages (dl_src_attn m)
                   ++ storages (dl_feed_forward m)
                   ++ flat_map storages (dl_sublayer m))).
  rewrite !map_app, !lawful_MultiHeadedAttention, lawful_PositionwiseFeedForward,
    (flat_map_relocate lawful_SublayerConnection).
  reflexivity.
Qed.

Lemma LayerNorm_init_total (feature_size : Z) (eps : Q) w :
  (0 <= feature_size)%Z ->
  exists m w', LayerNorm_init feature_size eps w = Ok (m, w').
Proof.
  intros H. unfold LayerNorm_init.
  destruct (Z.ltb_spec feature_size 0); [lia|].
  unfold bind. rewrite with_rng_Ok. unfold new_tensor. cbv beta iota zeta.
  rewrite with_rng_Ok. eexists _, _. reflexivity.
Qed.

Lemma foldM_sequential {A} (f : A -> Tensor -> Mon Tensor) (l : list A) x w :
  foldM f l x w = apply_sequentially (map f l) x w.
Proof.
  revert x w. induction l as [|a l IH]; intros x w; simpl; [reflexivity|].
  unfold bind. destruct (f a x w) as [[y w1]|e]; [apply IH | reflexivity].
Qed.

End Lawful.

(** ** Encoder and decoder stacks *)

(** C7: a stack built with [N >= 1] from a template layer on which no
    forward call has run (its [attn] attributes hold [None], as
    [make_model] hands it over) holds [N] layers, deep copies of the
    template; no two of them reach a common location of the store, and none
    reaches a location of the template; its forward pass applies the layers
    one after the other to the input, then the final [LayerNorm].  This
    holds of [Encoder] and of [Decoder]. *)
Theorem stack_layers_independent_and_sequential {T : Torch}
  (N : Z) (w : world) (elayer : EncoderLayer) (dlayer : DecoderLayer)
  (HN : (1 <= N)%Z)
  (Hesize : (0 <= el_size elayer)%Z) (Hdsize : (0 <= dl_size dlayer)%Z)
  (Healloc : allocated w elayer) (Hdalloc : allocated w dlayer)
  (Heunset : attrs_unset w elayer) (Hdunset : attrs_unset w dlayer) :
  (exists enc w',
      Encoder_init elayer N w = Ok (enc, w') /\
      length (enc_layers enc) = Z.to_nat N /\
      (forall i j a b, i <> j -> nth_error (enc_layers enc) i = Some a ->
                       nth_error (enc_layers enc) j = Some b ->
                       ~ share_storage a b) /\
      (forall a, In a (enc_layers enc) -> ~ share_storage a elayer) /\
      (forall x mask w0,
          Encoder_forward enc x mask w0 =
          bind (apply_sequentially
                  (map (fun layer x => EncoderLayer_forward layer x mask)
                       (enc_layers enc)) x)
               (LayerNorm_forward (enc_norm enc)) w0)) /\
  (exists dec w',
      Decoder_init dlayer N w = Ok (dec, w') /\
      length (dec_layers dec) = Z.to_nat N /\
      (forall i j a b, i <> j -> nth_error (dec_layers dec) i = Some a ->
                       nth_error (dec_layers dec) j = Some b ->
                       ~ share_storage a b) /\
      (forall a, In a (dec_layers dec) -> ~ share_storage a dlayer) /\
      (forall x memory src_mask tgt_mask w0,
          Decoder_forward dec x memory src_mask tgt_mask w0 =
          bind (apply_sequentially
                  (map (fun layer x =>
                          DecoderLayer_forward layer x memory src_mask tgt_mask)
                       (dec_layers dec)) x)
               (LayerNorm_forward (dec_norm dec)) w0)).
Proof.
  split.
  - destruct (clones_independent lawful_EncoderLayer N Healloc)
      as (ms & w1 & E & _ & Hlen & _ & Htpl & Hpair).
    destruct (@LayerNorm_init_total _ (el_size elayer) (1 # 1000000) w1 Hesize)
      as (norm & w2 & En).
    exists (mkEncoder ms norm), w2. split.
    { unfold Encoder_init. rewrite (bind_Ok _ _ _ E), (bind_Ok _ _ _ En).
      reflexivity. }
    simpl. repeat split; auto.
    intros x mask w0. unfold Encoder_forward, bind. simpl.
    rewrite foldM_sequential. reflexivity.
  - destruct (clones_independent lawful_DecoderLayer N Hdalloc)
      as (ms & w1 & E & _ & Hlen & _ & Htpl & Hpair).
    destruct (@LayerNorm_init_total _ (dl_size dlayer) (1 # 1000000) w1 Hdsize)
      as (norm & w2 & En).
    exists (mkDecoder ms norm), w2. split.
    { unfold Decoder_init. rewrite (bind_Ok _ _ _ E), (bind_Ok _ _ _ En).
      reflexivity. }
    simpl. repeat split; auto.
    intros x memory src_mask tgt_mask w0. unfold Decoder_forward, bind. simpl.
    rewrite foldM_sequential. reflexivity.
Qed.

Lemma example_layers_allocated :
  allocated example_world example_encoder_layer /\
  allocated example_world example_decoder_layer.
Proof.
  split; intros l Hl; simpl in Hl;
    repeat (destruct Hl as [<-|Hl]; [simpl; lia|]); contradiction.
Qed.

Lemma stack_layers_independent_and_sequential_witness :
  ((1 <= 2)%Z /\
   (0 <= el_size example_encoder_layer)%Z /\
   (0 <= dl_size example_decoder_layer)%Z /\
   allocated example_world example_encoder_layer /\
   allocated example_world example_decoder_layer /\
   attrs_unset example_world example_encoder_layer /\
   attrs_unset example_world example_decoder_layer) /\
  (exists enc w',
      Encoder_init example_encoder_layer 2 example_world = Ok (enc, w') /\
      length (enc_layers enc) = 2 /\
      (forall a b, nth_error (enc_layers enc) 0 = Some a ->
                   nth_error (enc_layers enc) 1 = Some b ->
                   ~ share_storage a b)) /\
  (exists dec w',
      Decoder_init example_decoder_layer 2 example_world = Ok (dec, w') /\
      length (dec_layers dec) = 2).
Proof.
  assert (HN : (1 <= 2)%Z) by lia.
  assert (He : (0 <= el_size example_encoder_layer)%Z) by (simpl; lia).
  assert (Hd : (0 <= dl_size example_decoder_layer)%Z) by (simpl; lia).
  pose proof example_layers_allocated as [Hae Had].
  assert (Hue : attrs_unset example_world example_encoder_layer)
    by (intros l _; reflexivity).
  assert (Hud : attrs_unset example_world example_decoder_layer)
    by (intros l _; reflexivity).
  split.
  { split; [exact HN|]. split; [exact He|]. split; [exact Hd|].
    split; [exact Hae|]. split; [exact Had|]. split; [exact Hue | exact Hud]. }
  destruct (stack_layers_independent_and_sequential HN He Hd Hae Had Hue Hud)
    as [(enc & w1 & E & Hlen & Hpair & _) (dec & w2 & E' & Hlen' & _)].
  split.
  - exists enc, w1. split; [exact E|]. split; [exact Hlen|].
    intros a b Ha Hb. apply (Hpair 0 1 a b); [lia | exact Ha | exact Hb].
  - exists dec, w2. split; [exact E' | exact Hlen'].
Defined.

(** ** Sums over an axis *)

Lemma set_nth_set_nth {A} (i : nat) (a b : A) (l : list A) :
  set_nth i a (set_nth i b l) = set_nth i a l.
Proof.
  revert i. induction l as [|x l IH]; intros [|i]; simpl; try reflexivity.
  now rewrite IH.
Qed.

Lemma norm_dim_last (rank : nat) : norm_dim rank (-1) = rank - 1.
Proof. unfold norm_dim. change (-1 <? 0)%Z with true. cbv iota. lia. Qed.

Lemma sum_n_ext (n : nat) (f g : nat -> R) :
  (forall j, j < n -> f j = g j) -> sum_n n f = sum_n n g.
Proof.
  intros H. unfold sum_n. f_equal. apply map_ext_in.
  intros j Hj. apply in_seq in Hj. apply H. lia.
Qed.

Lemma sum_n_S (n : nat) (f : nat -> R) :
  sum_n (S n) f = (sum_n n f + f n)%R.
Proof.
  unfold sum_n. rewrite seq_S, map_app, fold_right_app. simpl.
  generalize (map f (seq 0 n)). intros l.
  induction l as [|x l IH]; simpl; [lra | rewrite IH; lra].
Qed.

Lemma sum_n_scale (n : nat) (f : nat -> R) (c : R) :
  sum_n n (fun j => f j * c)%R = (sum_n n f * c)%R.
Proof.
  induction n as [|n IH]; [unfold sum_n; simpl; lra|].
  rewrite !sum_n_S, IH. lra.
Qed.

Lemma sum_n_plus (n : nat) (f g : nat -> R) :
  sum_n n (fun j => f j + g j)%R = (sum_n n f + sum_n n g)%R.
Proof.
  induction n as [|n IH]; [unfold sum_n; simpl; lra|].
  rewrite !sum_n_S, IH. lra.
Qed.

Lemma sum_n_const (n : nat) (c : R) : sum_n n (fun _ => c) = (INR n * c)%R.
Proof.
  induction n as [|n IH]; [unfold sum_n; simpl; lra|].
  rewrite sum_n_S, IH, S_INR. lra.
Qed.

Lemma sum_n_nonneg (n : nat) (f : nat -> R) :
  (forall j, 0 <= f j)%R -> (0 <= sum_n n f)%R.
Proof.
  intros H. induction n as [|n IH]; [unfold sum_n; simpl; lra|].
  rewrite sum_n_S. specialize (H n). lra.
Qed.

Lemma sum_n_ge_term (n : nat) (f : nat -> R) (j : nat) :
  (forall k, 0 <= f k)%R -> j < n -> (f j <= sum_n n f)%R.
Proof.
  intros H. induction n as [|n IH]; intros Hj; [lia|].
  rewrite sum_n_S. destruct (Nat.eq_dec j n) as [->|Hne].
  - pose proof (sum_n_nonneg n f H). lra.
  - specialize (H n). assert (j < n) by lia. specialize (IH H0). lra.
Qed.

Lemma sum_n_exp_pos (n : nat) (f : nat -> R) :
  1 <= n -> (0 < sum_n n (fun j => exp (f j)))%R.
Proof.
  intros Hn.
  apply Rlt_le_trans with (exp (f 0)); [apply exp_pos|].
  apply (@sum_n_ge_term n (fun j => exp (f j)) 0); [|lia].
  intros k. left. apply exp_pos.
Qed.

(** ** Softmax *)

Lemma r_softmax_sums_to_1 (x : tensor R) (idx : list nat) :
  let last := length (shape x) - 1 in
  let keys := nth last (shape x) 0 in
  1 <= keys ->
  sum_n keys (fun j => get (r_softmax x (-1)) (set_nth last j idx)) = 1%R.
Proof.
  intros last keys Hk. unfold r_softmax. rewrite norm_dim_last. simpl get.
  fold last. fold keys.
  rewrite sum_n_ext with
    (g := fun j => (exp (get x (set_nth last j idx))
                    * / sum_n keys (fun k => exp (get x (set_nth last k idx))))%R).
  2:{ intros j _. rewrite (@sum_n_ext keys _
        (fun k => exp (get x (set_nth last k idx)))); [reflexivity|].
      intros k _. now rewrite set_nth_set_nth. }
  rewrite sum_n_scale.
  apply Rinv_r. apply Rgt_not_eq.
  apply (@sum_n_exp_pos keys (fun j => get x (set_nth last j idx))). exact Hk.
Qed.

Lemma r_softmax_le_ratio (x : tensor R) (idx : list nat) (j : nat) :
  let last := length (shape x) - 1 in
  j < nth last (shape x) 0 ->
  (get (r_softmax x (-1)) idx
   <= exp (get x idx - get x (set_nth last j idx)))%R.
Proof.
  intros last Hj. unfold r_softmax. rewrite norm_dim_last. simpl get.
  fold last. set (keys := nth last (shape x) 0) in *.
  set (S := sum_n keys (fun k => exp (get x (set_nth last k idx)))).
  assert (HS : (exp (get x (set_nth last j idx)) <= S)%R).
  { apply (@sum_n_ge_term keys (fun k => exp (get x (set_nth last k idx))));
      [intros k; left; apply exp_pos | exact Hj]. }
  pose proof (exp_pos (get x (set_nth last j idx))) as Hpos.
  pose proof (exp_pos (get x idx)) as Hnum.
  unfold Rminus. rewrite exp_plus, exp_Ropp. unfold Rdiv.
  apply Rmult_le_compat_l; [lra|].
  apply Rinv_le_contravar; assumption.
Qed.

Lemma set_nth_nth_same (k : nat) (l : list nat) :
  set_nth k (nth k l 0) l = l.
Proof.
  revert k. induction l as [|x l IH]; intros [|k]; simpl; try reflexivity.
  now rewrite IH.
Qed.

Lemma r_softmax_get (x : tensor R) (idx : list nat) :
  let last := length (shape x) - 1 in
  let keys := nth last (shape x) 0 in
  get (r_softmax x (-1)) idx
  = (exp (get x idx) / sum_n keys (fun k => exp (get x (set_nth last k idx))))%R.
Proof.
  intros last keys. unfold r_softmax. rewrite norm_dim_last. reflexivity.
Qed.

Lemma r_softmax_bounds (x : tensor R) (idx : list nat) :
  let last := length (shape x) - 1 in
  nth last idx 0 < nth last (shape x) 0 ->
  (0 < get (r_softmax x (-1)) idx <= 1)%R.
Proof.
  intros last Hj. rewrite r_softmax_get. fold last.
  set (keys := nth last (shape x) 0) in *.
  set (S := sum_n keys (fun k => exp (get x (set_nth last k idx)))).
  assert (HS : Rlt 0 S)
    by (apply (@sum_n_exp_pos keys (fun k => get x (set_nth last k idx))); lia).
  assert (Hle : Rle (exp (get x idx)) S).
  { pose proof (@sum_n_ge_term keys
                  (fun k => exp (get x (set_nth last k idx))) (nth last idx 0)
                  (fun k => or_introl (exp_pos _)) Hj) as H.
    simpl in H. rewrite set_nth_nth_same in H. exact H. }
  pose proof (exp_pos (get x idx)) as Hpos.
  split.
  - apply Rdiv_lt_0_compat; assumption.
  - apply Rmult_le_reg_r with S; [exact HS|].
    unfold Rdiv. rewrite Rmult_assoc, Rinv_l by lra. lra.
Qed.

Lemma r_softmax_constant_row (x : tensor R) (idx : list nat) (c : R) :
  let last := length (shape x) - 1 in
  let keys := nth last (shape x) 0 in
  1 <= keys ->
  (forall k, k < keys -> get x (set_nth last k idx) = c) ->
  forall j, j < keys ->
    get (r_softmax x (-1)) (set_nth last j idx) = (1 / INR keys)%R.
Proof.
  intros last keys Hk Hrow j Hj. rewrite r_softmax_get. fold last. fold keys.
  rewrite (Hrow j Hj).
  rewrite (@sum_n_ext keys _ (fun _ => exp c)).
  2:{ intros k Hk'. rewrite set_nth_set_nth. now rewrite (Hrow k Hk'). }
  rewrite sum_n_const.
  assert (Hn : Rlt 0 (INR keys)) by (apply lt_0_INR; lia).
  pose proof (exp_pos c). field. split; lra.
Qed.

(** ** Scaled dot-product attention over the reals *)

Lemma math_sqrt_size (x : tensor R) (d : Z) :
  @math_sqrt RealTorch (r_size x d) = Ok (sqrt (IZR (r_size x d))).
Proof.
  unfold math_sqrt, r_size.
  destruct (Z.ltb_spec (Z.of_nat (nth (norm_dim (length (shape x)) d) (shape x) 0)) 0);
    [lia | reflexivity].
Qed.

Lemma attention_eval (query key value : tensor R) (mask : option (tensor bool))
  (dropout : option (tensor R -> Mon (tensor R))) (w : world) :
  (dropout = None \/
   exists d : Dropout, training d = false /\ dropout = Some (Dropout_forward d)) ->
  let filled :=
    match mask with
    | Some m => r_masked_fill (attention_scores query key) (r_mask_eq0 m) sentinel
    | None => attention_scores query key
    end in
  @attention RealTorch query key value mask dropout w
  = Ok ((r_matmul (r_softmax filled (-1)) value, r_softmax filled (-1)), w).
Proof.
  intros Hdrop filled. unfold attention.
  change (@t_size RealTorch query (-1)) with (r_size query (-1)).
  rewrite math_sqrt_size. unfold lift, bind at 1.
  destruct Hdrop as [->|(d & Hd & ->)].
  - destruct mask; reflexivity.
  - unfold Dropout_forward. rewrite Hd. destruct mask; reflexivity.
Qed.

(** Rank 2 inputs with one feature, and a mask of the shape of the scores,
    are within the contract of [attention]. *)
Lemma example_attention_fits (Sq Sk : nat) (m : tensor bool) :
  shape m = [Sq; Sk] ->
  attention_fits (zeros [Sq; 1]) (zeros [Sk; 1]) (zeros [Sk; 1]) (Some m).
Proof.
  intros Hm. exists [], Sq, Sk, 1, 1.
  do 3 (split; [reflexivity|]). split; [apply Nat.le_refl|].
  unfold broadcasts_to. rewrite Hm. simpl.
  split; [apply Nat.le_refl|]. repeat constructor; now right.
Qed.

Lemma ln_million_small : (sentinel + ln 1000000 < 0)%R.
Proof.
  assert (H : (ln 1000000 < 1000000)%R).
  { apply exp_lt_inv. rewrite exp_ln by lra.
    pose proof (exp_ineq1 1000000). lra. }
  unfold sentinel, Q2R. simpl. lra.
Qed.

(** C3, as far as the code goes, on inputs within the contract of
    [attention] (matching shapes, [d_k >= 1], a mask that broadcasts to the
    scores) and with dropout absent or in evaluation mode: [attention]
    returns [softmax(filled, dim=-1)], where [filled] is the score tensor
    with every position the mask forbids overwritten by the finite value
    [-1e9]; every row of the returned weights over a non-empty key axis
    sums to 1; and the weight of a forbidden position is below 1e-6 as soon
    as its row has one permitted position whose score exceeds
    [-1e9 + ln(1e6)]. *)
Theorem attention_weights_normalised_and_masked
  (query key value : tensor R) (mask : option (tensor bool))
  (dropout : option (tensor R -> Mon (tensor R))) (w : world)
  (Hfits : attention_fits query key value mask)
  (Hdropout :
     dropout = None \/
     exists d : Dropout, training d = false /\ dropout = Some (Dropout_forward d)) :
  let scores := attention_scores query key in
  let filled :=
    match mask with
    | Some m => r_masked_fill scores (r_mask_eq0 m) sentinel
    | None => scores
    end in
  let last := length (shape scores) - 1 in
  let keys := nth last (shape scores) 0 in
  exists out p_attn : tensor R,
    @attention RealTorch query key value mask dropout w = Ok ((out, p_attn), w) /\
    p_attn = r_softmax filled (-1) /\
    (forall idx, 1 <= keys ->
                 sum_n keys (fun j => get p_attn (set_nth last j idx)) = 1%R) /\
    (forall m idx, mask = Some m -> forbids m idx ->
                   get filled idx = (- 1000000000)%R) /\
    (forall m idx j,
        mask = Some m -> forbids m idx ->
        j < keys -> ~ forbids m (set_nth last j idx) ->
        (sentinel + ln 1000000 < get scores (set_nth last j idx))%R ->
        (get p_attn idx < / 1000000)%R).
Proof.
  intros scores filled last keys.
  assert (Hshape : shape filled = shape scores) by (unfold filled; destruct mask; reflexivity).
  exists (r_matmul (r_softmax filled (-1)) value), (r_softmax filled (-1)).
  split; [apply attention_eval; exact Hdropout|]. split; [reflexivity|].
  split; [|split].
  - intros idx Hk. unfold keys, last in *. rewrite <- Hshape in *.
    apply (@r_softmax_sums_to_1 filled idx). exact Hk.
  - intros m idx -> Hm. unfold filled, r_masked_fill, r_mask_eq0. simpl.
    unfold forbids in Hm. rewrite Hm. simpl.
    unfold sentinel, Q2R. simpl. lra.
  - intros m idx j -> Hm Hj Hperm Hscore.
    eapply Rle_lt_trans.
    { apply (@r_softmax_le_ratio filled idx j). rewrite Hshape. exact Hj. }
    rewrite Hshape. fold scores. fold last.
    assert (E1 : get filled idx = sentinel).
    { unfold filled, r_masked_fill, r_mask_eq0. simpl.
      unfold forbids in Hm. rewrite Hm. reflexivity. }
    assert (E2 : get filled (set_nth last j idx) = get scores (set_nth last j idx)).
    { unfold filled, r_masked_fill, r_mask_eq0. simpl.
      unfold forbids in Hperm.
      destruct (get m (bindex (shape m) (set_nth last j idx)));
        [reflexivity | contradiction]. }
    rewrite E1, E2.
    replace (/ 1000000)%R with (exp (- ln 1000000))
      by (rewrite exp_Ropp, exp_ln by lra; reflexivity).
    apply exp_increasing. lra.
Qed.

(** C3 as stated fails on a row whose every key is forbidden, on inputs
    within the contract of [attention]: all the scores of the row become
    [-1e9], the softmax is uniform, and with a single key the forbidden
    position gets weight 1. *)
Lemma attention_fully_masked_row :
  attention_fits (zeros [1; 1]) (zeros [1; 1]) (zeros [1; 1])
                 (Some mask_all_forbidden) /\
  exists out p_attn : tensor R,
    @attention RealTorch (zeros [1; 1]) (zeros [1; 1]) (zeros [1; 1])
               (Some mask_all_forbidden) None empty_world
    = Ok ((out, p_attn), empty_world) /\
    forbids mask_all_forbidden [0; 0] /\
    get p_attn [0; 0] = 1%R /\
    ~ Rlt (get p_attn [0; 0]) (/ 1000000).
Proof.
  split; [apply example_attention_fits; reflexivity|].
  eexists _, _. split; [apply attention_eval; now left|].
  split; [reflexivity|].
  assert (E : get (r_softmax (r_masked_fill
                (attention_scores (zeros [1; 1]) (zeros [1; 1]))
                (r_mask_eq0 mask_all_forbidden) sentinel) (-1)) [0; 0] = 1%R).
  { unfold r_softmax. simpl. unfold sum_n. simpl.
    pose proof (exp_pos sentinel). field. lra. }
  split; [exact E|]. rewrite E. lra.
Qed.

Lemma attention_weights_normalised_and_masked_witness :
  (attention_fits (zeros [1; 1]) (zeros [2; 1]) (zeros [2; 1])
                  (Some mask_second_forbidden) /\
   (@None (tensor R -> Mon (tensor R)) = None \/
    exists d : Dropout,
      training d = false /\ None = Some (@Dropout_forward RealTorch d))) /\
  exists out p_attn : tensor R,
    @attention RealTorch (zeros [1; 1]) (zeros [2; 1]) (zeros [2; 1])
               (Some mask_second_forbidden) None empty_world
    = Ok ((out, p_attn), empty_world) /\
    sum_n 2 (fun j => get p_attn [0; j]) = 1%R /\
    Rlt (get p_attn [0; 1]) (/ 1000000).
Proof.
  assert (H : @None (tensor R -> Mon (tensor R)) = None \/
              exists d : Dropout,
                training d = false /\ None = Some (@Dropout_forward RealTorch d))
    by now left.
  assert (Hfits : attention_fits (zeros [1; 1]) (zeros [2; 1]) (zeros [2; 1])
                                 (Some mask_second_forbidden))
    by (apply example_attention_fits; reflexivity).
  split; [split; [exact Hfits | exact H]|].
  destruct (@attention_weights_normalised_and_masked
              (zeros [1; 1]) (zeros [2; 1]) (zeros [2; 1])
              (Some mask_second_forbidden) None empty_world Hfits H)
    as (out & p_attn & E & _ & Hsum & _ & Hmasked).
  exists out, p_attn. split; [exact E|]. split.
  - apply (Hsum [0; 0]). simpl. lia.
  - apply (Hmasked mask_second_forbidden [0; 1] 0).
    + reflexivity.
    + reflexivity.
    + simpl. lia.
    + simpl. unfold forbids. simpl. discriminate.
    + simpl. unfold sum_n. simpl.
      pose proof ln_million_small.
      replace ((0 * 0 + 0) / sqrt 1)%R with 0%R; [lra|].
      rewrite sqrt_1. lra.
Defined.

(** ** Broadcasting against a reduced axis *)

Lemma length_set_nth {A} (k : nat) (v : A) (l : list A) :
  length (set_nth k v l) = length l.
Proof.
  revert k. induction l as [|x l IH]; intros [|k]; simpl; auto.
Qed.

Lemma nth_set_nth_same {A} (k : nat) (v d : A) (l : list A) :
  k < length l -> nth k (set_nth k v l) d = v.
Proof.
  revert k. induction l as [|x l IH]; intros [|k] H; simpl in *; try lia; auto.
  apply IH. lia.
Qed.

Lemma bindex_same_length (shp idx : list nat) :
  length idx = length shp ->
  bindex shp idx = map (fun '(s, i) => if s =? 1 then 0 else i) (combine shp idx).
Proof.
  intros H. unfold bindex. rewrite H, Nat.sub_diag. reflexivity.
Qed.

Lemma bindex_valid (shp idx : list nat) :
  valid_index shp idx -> bindex shp idx = idx.
Proof.
  intros H. rewrite bindex_same_length by (eapply Forall2_length; exact H).
  induction H as [|i s idx shp His _ IH]; simpl; [reflexivity|].
  rewrite IH. destruct (Nat.eqb_spec s 1); [f_equal; lia | reflexivity].
Qed.

Lemma bindex_keepdim (k : nat) (shp idx : list nat) :
  valid_index shp idx -> bindex (set_nth k 1 shp) idx = set_nth k 0 idx.
Proof.
  intros H.
  rewrite bindex_same_length
    by (rewrite length_set_nth; eapply Forall2_length; exact H).
  revert k. induction H as [|i s idx shp His Htl IH]; intros [|k]; simpl;
    try reflexivity.
  - f_equal. pose proof (bindex_valid Htl) as E.
    rewrite bindex_same_length in E by (eapply Forall2_length; exact Htl).
    exact E.
  - rewrite IH. destruct (Nat.eqb_spec s 1); [f_equal; lia | reflexivity].
Qed.

Lemma valid_index_set_nth (k j : nat) (shp idx : list nat) :
  valid_index shp idx -> j < nth k shp 0 -> valid_index shp (set_nth k j idx).
Proof.
  intros H. revert k. induction H as [|i s idx shp His H IH]; intros [|k] Hj;
    simpl in *; constructor; auto.
  apply IH. exact Hj.
Qed.

Lemma bshape_same_length (a b : list nat) :
  length a = length b ->
  bshape a b = map (fun '(x, y) => if x =? 1 then y else x) (combine a b).
Proof.
  intros H. unfold bshape, pad_left. rewrite H, Nat.max_id, Nat.sub_diag.
  reflexivity.
Qed.

Lemma bshape_keepdim (k : nat) (shp : list nat) :
  bshape shp (set_nth k 1 shp) = shp.
Proof.
  rewrite bshape_same_length by (now rewrite length_set_nth).
  revert k. induction shp as [|s shp IH]; intros k; [destruct k; reflexivity|].
  destruct k as [|k]; simpl.
  - f_equal.
    + destruct (Nat.eqb_spec s 1); auto.
    + specialize (IH (length shp)).
      replace (set_nth (length shp) 1 shp) with shp in IH; [exact IH|].
      clear. induction shp as [|x l IHl]; simpl; [reflexivity | now rewrite <- IHl].
  - rewrite IH. f_equal. destruct (Nat.eqb_spec s 1); auto.
Qed.

(** A vector of length [n] against a shape whose last axis has length [n]. *)
Lemma bshape_vector (n : nat) (shp : list nat) :
  shp <> [] -> nth (length shp - 1) shp 0 = n -> bshape [n] shp = shp.
Proof.
  intros Hne Hn. unfold bshape, pad_left. simpl length.
  replace (Nat.max 1 (length shp)) with (length shp)
    by (destruct shp; [contradiction | simpl; lia]).
  rewrite Nat.sub_diag. simpl repeat. rewrite app_nil_l.
  revert Hn. clear Hne. induction shp as [|s shp IH]; intros Hn; [reflexivity|].
  destruct shp as [|s' shp].
  - simpl in *. subst. destruct (Nat.eqb_spec n 1); auto.
  - replace (length (s :: s' :: shp) - 1) with (S (length (s' :: shp) - 1))
      in * by (simpl; lia).
    simpl nth in Hn. specialize (IH Hn).
    change (repeat 1 (S (length (s' :: shp) - 1)))
      with (1 :: repeat 1 (length (s' :: shp) - 1)).
    simpl app. simpl combine. cbn [map]. simpl Nat.eqb. cbv iota.
    f_equal. exact IH.
Qed.

Lemma bindex_vector (n : nat) (idx : list nat) :
  idx <> [] -> 2 <= n -> bindex [n] idx = [nth (length idx - 1) idx 0].
Proof.
  intros Hne Hn. unfold bindex. simpl length.
  assert (E : skipn (length idx - 1) idx = [nth (length idx - 1) idx 0]).
  { clear Hn. induction idx as [|i idx IH]; [contradiction|].
    destruct idx as [|i' idx]; [reflexivity|].
    replace (length (i :: i' :: idx) - 1) with (S (length (i' :: idx) - 1))
      by (simpl; lia).
    simpl skipn. simpl nth. apply IH. discriminate. }
  rewrite E. simpl. destruct (Nat.eqb_spec n 1); [lia | reflexivity].
Qed.

(** ** Mean and standard deviation of a normalised row *)

Section RowStatistics.

Variable n : nat.
Variable v : nat -> R.
Variable eps : R.
Hypothesis Hn : 2 <= n.
Hypothesis Heps : (0 < eps)%R.

Let mu : R := (sum_n n v / INR n)%R.
Let sigma : R := sqrt (sum_n n (fun j => (v j - mu) ^ 2) / (INR n - 1))%R.
Let y (j : nat) : R := ((v j - mu) / (sigma + eps))%R.

Lemma INR_n_bounds : (2 <= INR n)%R.
Proof. change 2%R with (INR 2). apply le_INR. exact Hn. Qed.

Lemma row_variance_nonneg :
  (0 <= sum_n n (fun j => (v j - mu) ^ 2) / (INR n - 1))%R.
Proof.
  pose proof INR_n_bounds.
  apply Rmult_le_pos.
  - apply sum_n_nonneg. intros j. apply pow2_ge_0.
  - left. apply Rinv_0_lt_compat. lra.
Qed.

Lemma row_sigma_nonneg : (0 <= sigma)%R.
Proof. apply sqrt_pos. Qed.

Lemma row_centered : sum_n n (fun j => v j - mu)%R = 0%R.
Proof.
  pose proof INR_n_bounds.
  unfold Rminus. rewrite sum_n_plus, sum_n_const. unfold mu. field. lra.
Qed.

Lemma row_normalized_sum : sum_n n y = 0%R.
Proof.
  unfold y, Rdiv. rewrite sum_n_scale, row_centered. lra.
Qed.

Lemma row_normalized_mean : (sum_n n y / INR n)%R = 0%R.
Proof. rewrite row_normalized_sum. unfold Rdiv. lra. Qed.

Lemma row_normalized_std :
  sqrt (sum_n n (fun j => (y j - sum_n n y / INR n) ^ 2) / (INR n - 1))%R
  = (sigma / (sigma + eps))%R.
Proof.
  pose proof row_sigma_nonneg as Hs. pose proof row_variance_nonneg as Hv.
  assert (Hd : (0 < sigma + eps)%R) by lra.
  rewrite row_normalized_mean.
  rewrite (@sum_n_ext n _ (fun j => (v j - mu) ^ 2 * (/ (sigma + eps)) ^ 2)%R).
  2:{ intros j _. unfold y. field. lra. }
  rewrite sum_n_scale.
  replace (sum_n n (fun j => (v j - mu) ^ 2) * (/ (sigma + eps)) ^ 2 / (INR n - 1))%R
    with ((sigma / (sigma + eps)) * (sigma / (sigma + eps)))%R.
  - apply sqrt_square. apply Rmult_le_pos; [exact Hs|].
    left. apply Rinv_0_lt_compat. exact Hd.
  - assert (E : (sigma * sigma = sum_n n (fun j => (v j - mu) ^ 2) / (INR n - 1))%R)
      by (apply sqrt_sqrt; exact Hv).
    unfold Rdiv in *.
    replace (sigma * / (sigma + eps) * (sigma * / (sigma + eps)))%R
      with ((sigma * sigma) * (/ (sigma + eps)) ^ 2)%R by ring.
    rewrite E. ring.
Qed.

Lemma row_variance_near_1 :
  (0 < sigma)%R ->
  (1 - 2 * eps / sigma < (sigma / (sigma + eps)) ^ 2 < 1)%R.
Proof.
  intros Hs.
  assert (Hd : (0 < sigma + eps)%R) by lra.
  set (u := (eps / (sigma + eps))%R).
  assert (Eu : (sigma / (sigma + eps) = 1 - u)%R) by (unfold u; field; lra).
  assert (Hu0 : (0 < u)%R) by (unfold u; apply Rdiv_lt_0_compat; lra).
  assert (Hu1 : (u < eps / sigma)%R).
  { unfold u, Rdiv. apply Rmult_lt_compat_l; [lra|].
    apply Rinv_lt_contravar; [nra | lra]. }
  assert (Hu2 : (u < 1)%R).
  { unfold u. apply Rmult_lt_reg_r with (sigma + eps)%R; [lra|].
    unfold Rdiv. rewrite Rmult_assoc, Rinv_l by lra. lra. }
  rewrite Eu. replace (2 * eps / sigma)%R with (2 * (eps / sigma))%R by (field; lra).
  nra.
Qed.

End RowStatistics.

(** A row whose spread is at least [K] times [eps] keeps at least the
    share [(K / (K + 1))^2] of its variance. *)
Lemma row_variance_lower_bound (sigma eps K : R) :
  (0 < eps)%R -> (0 < sigma)%R -> (0 < K)%R -> (K * eps <= sigma)%R ->
  ((K / (K + 1)) ^ 2 <= (sigma / (sigma + eps)) ^ 2)%R.
Proof.
  intros Heps Hs HK Hspread.
  assert (H0 : (0 <= K / (K + 1))%R)
    by (left; apply Rdiv_lt_0_compat; lra).
  assert (Hle : (K / (K + 1) <= sigma / (sigma + eps))%R).
  { apply Rmult_le_reg_r with ((K + 1) * (sigma + eps))%R; [nra|].
    replace (K / (K + 1) * ((K + 1) * (sigma + eps)))%R
      with (K * (sigma + eps))%R by (field; lra).
    replace (sigma / (sigma + eps) * ((K + 1) * (sigma + eps)))%R
      with (sigma * (K + 1))%R by (field; lra).
    lra. }
  apply pow_incr. split; assumption.
Qed.

(** ** [LayerNorm] over the reals *)

Lemma r_mean_get (x : tensor R) (idx : list nat) (a : nat) :
  let last := length (shape x) - 1 in
  let n := nth last (shape x) 0 in
  get (r_mean x (-1)) (set_nth last a idx)
  = (sum_n n (fun j => get x (set_nth last j idx)) / INR n)%R.
Proof.
  intros last n. unfold r_mean. rewrite norm_dim_last. fold last. fold n.
  simpl get.
  f_equal. apply sum_n_ext. intros j _. now rewrite set_nth_set_nth.
Qed.

Lemma r_std_get (x : tensor R) (idx : list nat) (a : nat) :
  let last := length (shape x) - 1 in
  let n := nth last (shape x) 0 in
  let mu := (sum_n n (fun j => get x (set_nth last j idx)) / INR n)%R in
  get (r_std x (-1)) (set_nth last a idx)
  = sqrt (sum_n n (fun j => (get x (set_nth last j idx) - mu) ^ 2)
          / (INR n - 1))%R.
Proof.
  intros last n mu. unfold r_std. rewrite norm_dim_last. fold last. fold n.
  simpl get. f_equal. f_equal.
  assert (Emu : (sum_n n (fun j => get x (set_nth last j (set_nth last a idx)))
                 / INR n)%R = mu).
  { unfold mu. f_equal. apply sum_n_ext. intros j _. now rewrite set_nth_set_nth. }
  rewrite Emu. apply sum_n_ext. intros j _. now rewrite set_nth_set_nth.
Qed.

Lemma layer_norm_normalized_shape (x : tensor R) (eps : Q) :
  shape (layer_norm_normalized x eps) = shape x.
Proof.
  unfold layer_norm_normalized, r_zip, r_mean, r_std, r_map. simpl shape.
  now rewrite !bshape_keepdim.
Qed.

Lemma layer_norm_normalized_get (x : tensor R) (eps : Q) (idx : list nat) :
  valid_index (shape x) idx ->
  let last := length (shape x) - 1 in
  get (layer_norm_normalized x eps) idx
  = ((get x idx - get (r_mean x (-1)) (set_nth last 0%nat idx))
     / (get (r_std x (-1)) (set_nth last 0%nat idx) + Q2R eps))%R.
Proof.
  intros Hidx last. unfold layer_norm_normalized, r_zip, r_map.
  simpl get. simpl shape.
  rewrite !norm_dim_last. fold last.
  rewrite !bshape_keepdim.
  repeat rewrite (bindex_valid Hidx).
  repeat rewrite (bindex_keepdim last Hidx).
  reflexivity.
Qed.

Lemma LayerNorm_forward_eval (self : LayerNorm) (x : tensor R) (w : world) :
  @LayerNorm_forward RealTorch self x w
  = Ok (r_zip Rplus
          (r_zip Rdiv
             (r_zip Rmult (tensors w (ln_a_2 self))
                    (r_zip Rminus x (r_mean x (-1))))
             (r_map (fun v => v + Q2R (ln_eps self))%R (r_std x (-1))))
          (tensors w (ln_b_2 self)), w).
Proof. reflexivity. Qed.

Lemma LayerNorm_forward_get (self : LayerNorm) (x : tensor R) (w : world)
  (idx : list nat) :
  let last := length (shape x) - 1 in
  let n := nth last (shape x) 0 in
  let k := nth last idx 0 in
  valid_index (shape x) idx -> 2 <= n ->
  shape (tensors w (ln_a_2 self)) = [n] ->
  shape (tensors w (ln_b_2 self)) = [n] ->
  get (r_zip Rplus
         (r_zip Rdiv
            (r_zip Rmult (tensors w (ln_a_2 self))
                   (r_zip Rminus x (r_mean x (-1))))
            (r_map (fun v => v + Q2R (ln_eps self))%R (r_std x (-1))))
         (tensors w (ln_b_2 self))) idx
  = (get (tensors w (ln_a_2 self)) [k]
     * get (layer_norm_normalized x (ln_eps self)) idx
     + get (tensors w (ln_b_2 self)) [k])%R.
Proof.
  intros last n k Hidx Hn Ha Hb.
  assert (Hlen : length idx = length (shape x))
    by (eapply Forall2_length; exact Hidx).
  assert (Hne : shape x <> []).
  { intros E. unfold n, last in Hn. rewrite E in Hn. simpl in Hn. lia. }
  assert (Hine : idx <> []).
  { intros E. rewrite E in Hlen. destruct (shape x); [contradiction | discriminate]. }
  rewrite (@layer_norm_normalized_get x (ln_eps self) idx Hidx). fold last.
  unfold r_zip, r_map. simpl get. simpl shape.
  rewrite Ha, Hb. rewrite !norm_dim_last. fold last.
  rewrite !bshape_keepdim.
  rewrite (@bshape_vector n (shape x) Hne eq_refl).
  rewrite !bshape_keepdim.
  repeat rewrite (bindex_valid Hidx).
  repeat rewrite (bindex_keepdim last Hidx).
  rewrite (@bindex_vector n idx Hine Hn).
  rewrite Hlen. fold last. fold k.
  unfold Rdiv. ring.
Qed.

(** Along a row of an input whose last axis has length [n >= 2], the tensor
    [(x - mean) / (std + eps)] has mean 0 and standard deviation
    [sigma / (sigma + eps)], [sigma] being the standard deviation of the
    row. *)
Lemma layer_norm_normalized_row (x : tensor R) (eps : Q) (idx : list nat) :
  let last := length (shape x) - 1 in
  let n := nth last (shape x) 0 in
  let y := layer_norm_normalized x eps in
  let sigma := get (r_std x (-1)) (set_nth last 0 idx) in
  valid_index (shape x) idx -> 2 <= n -> Rlt 0 (Q2R eps) ->
  get (r_mean y (-1)) (set_nth last 0 idx) = 0%R /\
  get (r_std y (-1)) (set_nth last 0 idx) = (sigma / (sigma + Q2R eps))%R /\
  sigma = sqrt (sum_n n (fun j =>
                  (get x (set_nth last j idx)
                   - sum_n n (fun j => get x (set_nth last j idx)) / INR n) ^ 2)
                / (INR n - 1))%R.
Proof.
  intros last n y sigma Hidx Hn Heps.
  set (v := fun j => get x (set_nth last j idx)).
  assert (Hrow : forall j, j < n ->
            get y (set_nth last j idx)
            = ((v j - sum_n n v / INR n)
               / (sqrt (sum_n n (fun j => (v j - sum_n n v / INR n) ^ 2)
                        / (INR n - 1)) + Q2R eps))%R).
  { intros j Hj. unfold y.
    rewrite (@layer_norm_normalized_get x eps (set_nth last j idx)
               (@valid_index_set_nth last j (shape x) idx Hidx Hj)).
    cbv zeta. unfold last. rewrite !set_nth_set_nth.
    rewrite (r_mean_get x idx 0), (r_std_get x idx 0). reflexivity. }
  assert (Esigma : sigma = sqrt (sum_n n (fun j => (v j - sum_n n v / INR n) ^ 2)
                                 / (INR n - 1))%R)
    by (unfold sigma, last; rewrite (r_std_get x idx 0); reflexivity).
  assert (Hshape : shape y = shape x) by apply layer_norm_normalized_shape.
  split; [|split; [|exact Esigma]].
  - unfold last. rewrite <- Hshape. rewrite (r_mean_get y idx 0).
    rewrite Hshape. fold last. fold n.
    rewrite (@sum_n_ext n _ _ Hrow). apply (@row_normalized_mean n v (Q2R eps) Hn).
  - unfold last. rewrite <- Hshape. rewrite (r_std_get y idx 0).
    rewrite Hshape. fold last. fold n.
    rewrite (@sum_n_ext n _ _ Hrow).
    rewrite (@sum_n_ext n _ (fun j =>
      (((v j - sum_n n v / INR n)
        / (sqrt (sum_n n (fun j => (v j - sum_n n v / INR n) ^ 2)
                 / (INR n - 1)) + Q2R eps)
        - sum_n n (fun j => (v j - sum_n n v / INR n)
                            / (sqrt (sum_n n (fun j => (v j - sum_n n v / INR n) ^ 2)
                                     / (INR n - 1)) + Q2R eps)) / INR n) ^ 2)%R)).
    2:{ intros j Hj. rewrite (Hrow j Hj). reflexivity. }
    rewrite (@row_normalized_std n v (Q2R eps) Hn Heps). rewrite <- Esigma. reflexivity.
Qed.

(** C5, as far as the code goes.  Over the reals, for an input whose last
    axis has length [n >= 2] and a row of standard deviation [sigma > 0],
    the tensor [(x - mean) / (std + eps)] has, along that row, mean 0 and
    standard deviation [sigma / (sigma + eps)] (with torch's [mean] and
    [std]).  Its variance is therefore below 1, above [1 - 2 eps / sigma],
    and at least [(K / (K + 1))^2] whenever [sigma >= K * eps]: it is near
    1 for a row whose spread is large against [eps], and only for such a
    row.  [LayerNorm.forward] returns the scale times that tensor plus the
    shift. *)
Theorem LayerNorm_normalized_mean_variance
  (x : tensor R) (eps : Q) (idx : list nat) :
  let last := length (shape x) - 1 in
  let n := nth last (shape x) 0 in
  let y := layer_norm_normalized x eps in
  let sigma := get (r_std x (-1)) (set_nth last 0 idx) in
  valid_index (shape x) idx -> 2 <= n -> Rlt 0 (Q2R eps) -> Rlt 0 sigma ->
  get (r_mean y (-1)) (set_nth last 0 idx) = 0%R /\
  get (r_std y (-1)) (set_nth last 0 idx) = (sigma / (sigma + Q2R eps))%R /\
  (1 - 2 * Q2R eps / sigma
   < get (r_std y (-1)) (set_nth last 0%nat idx) ^ 2 < 1)%R /\
  (forall K : R,
      Rlt 0 K -> Rle (K * Q2R eps) sigma ->
      Rle ((K / (K + 1)) ^ 2)
          (get (r_std y (-1)) (set_nth last 0%nat idx) ^ 2)) /\
  (forall (self : LayerNorm) (w : world),
      ln_eps self = eps ->
      shape (tensors w (ln_a_2 self)) = [n] ->
      shape (tensors w (ln_b_2 self)) = [n] ->
      exists out : tensor R,
        @LayerNorm_forward RealTorch self x w = Ok (out, w) /\
        get out idx
        = (get (tensors w (ln_a_2 self)) [nth last idx 0%nat] * get y idx
           + get (tensors w (ln_b_2 self)) [nth last idx 0%nat])%R).
Proof.
  intros last n y sigma Hidx Hn Heps Hsigma.
  destruct (@layer_norm_normalized_row x eps idx Hidx Hn Heps)
    as (Emean & Estd & Esigma).
  fold last in Emean, Estd, Esigma. fold n in Esigma. fold y in Emean, Estd.
  fold sigma in Estd, Esigma.
  split; [exact Emean|]. split; [exact Estd|]. split; [|split].
  - rewrite Estd. rewrite Esigma in *.
    apply (@row_variance_near_1 n _ (Q2R eps) Heps Hsigma).
  - intros K HK Hspread. rewrite Estd.
    apply (@row_variance_lower_bound sigma (Q2R eps) K); assumption.
  - intros self w <- Ha Hb. eexists. split; [apply LayerNorm_forward_eval|].
    apply LayerNorm_forward_get; assumption.
Qed.

Lemma example_vector_std :
  get (r_std example_vector (-1)) [0] = sqrt 2.
Proof.
  unfold r_std. simpl. unfold sum_n. simpl. f_equal. field.
Qed.

Lemma example_small_vector_std :
  get (r_std example_small_vector (-1)) [0] = Q2R (1 # 1000000).
Proof.
  assert (He : (0 <= Q2R (1 # 1000000))%R) by (unfold Q2R; simpl; lra).
  rewrite <- (sqrt_square _ He) at 1.
  unfold r_std. simpl. unfold sum_n. simpl. f_equal. field.
Qed.

(** C5 as stated fails on an input that is not constant but whose spread is
    small against [eps]: along the row [[-1e-6, 0., 1e-6]], of standard
    deviation [1e-6 = eps], the normalised row has mean 0 and variance
    1/4. *)
Lemma LayerNorm_variance_far_from_1_at_small_spread :
  valid_index (shape example_small_vector) [0] /\
  2 <= nth (length (shape example_small_vector) - 1)
           (shape example_small_vector) 0 /\
  Rlt 0 (get (r_std example_small_vector (-1)) [0]) /\
  get (r_mean (layer_norm_normalized example_small_vector (1 # 1000000)) (-1)) [0]
  = 0%R /\
  (get (r_std (layer_norm_normalized example_small_vector (1 # 1000000)) (-1))
       [0%nat] ^ 2
   = 1 / 4)%R.
Proof.
  assert (H1 : valid_index (shape example_small_vector) [0])
    by (repeat constructor).
  assert (H2 : 2 <= nth (length (shape example_small_vector) - 1)
                        (shape example_small_vector) 0) by (simpl; lia).
  assert (H3 : Rlt 0 (Q2R (1 # 1000000))) by (unfold Q2R; simpl; lra).
  destruct (@layer_norm_normalized_row example_small_vector (1 # 1000000) [0]
              H1 H2 H3) as (Emean & Estd & _).
  change (set_nth (length (shape example_small_vector) - 1) 0 [0]) with [0]
    in Emean, Estd.
  rewrite example_small_vector_std in Estd.
  split; [exact H1|]. split; [exact H2|].
  split; [rewrite example_small_vector_std; exact H3|].
  split; [exact Emean|].
  rewrite Estd. field. lra.
Qed.

Lemma LayerNorm_normalized_mean_variance_witness :
  (valid_index (shape example_vector) [0] /\
   2 <= nth (length (shape example_vector) - 1) (shape example_vector) 0 /\
   Rlt 0 (Q2R (1 # 1000000)) /\
   Rlt 0 (get (r_std example_vector (-1)) [0]) /\
   Rlt 0 1000 /\
   Rle (1000 * Q2R (1 # 1000000)) (get (r_std example_vector (-1)) [0])) /\
  get (r_mean (layer_norm_normalized example_vector (1 # 1000000)) (-1)) [0] = 0%R /\
  Rle ((1000 / (1000 + 1)) ^ 2)
      (get (r_std (layer_norm_normalized example_vector (1 # 1000000)) (-1)) [0] ^ 2) /\
  Rlt (get (r_std (layer_norm_normalized example_vector (1 # 1000000)) (-1)) [0] ^ 2) 1.
Proof.
  assert (H1 : valid_index (shape example_vector) [0])
    by (repeat constructor).
  assert (H2 : 2 <= nth (length (shape example_vector) - 1) (shape example_vector) 0)
    by (simpl; lia).
  assert (H3 : Rlt 0 (Q2R (1 # 1000000))) by (unfold Q2R; simpl; lra).
  assert (H4 : Rlt 0 (get (r_std example_vector (-1)) [0]))
    by (rewrite example_vector_std; apply sqrt_lt_R0; lra).
  assert (H5 : Rlt 0 1000) by lra.
  assert (H6 : Rle (1000 * Q2R (1 # 1000000))
                   (get (r_std example_vector (-1)) [0])).
  { rewrite example_vector_std.
    apply Rle_trans with 1%R; [unfold Q2R; simpl; lra|].
    rewrite <- sqrt_1 at 1. apply sqrt_le_1_alt. lra. }
  split.
  { split; [exact H1|]. split; [exact H2|]. split; [exact H3|].
    split; [exact H4|]. split; [exact H5 | exact H6]. }
  destruct (@LayerNorm_normalized_mean_variance example_vector (1 # 1000000) [0]
              H1 H2 H3 H4) as (Hmean & _ & Hvar & Hlow & _).
  split; [exact Hmean|]. split; [exact (Hlow 1000%R H5 H6) | exact (proj2 Hvar)].
Defined.

(** ** [Embeddings] over the reals *)

Lemma numel_pos_dims (shp : list nat) :
  0 < numel shp -> Forall (fun s => 0 < s) shp.
Proof.
  induction shp as [|s shp IH]; simpl; intros H; constructor.
  - destruct s; [simpl in H; lia | lia].
  - apply IH. destruct (numel shp); [lia | lia].
Qed.

Lemma unravel_valid (shp : list nat) (n : nat) :
  Forall (fun s => 0 < s) shp -> valid_index shp (unravel shp n).
Proof.
  induction 1 as [|s shp Hs _ IH]; simpl; constructor.
  - apply Nat.mod_upper_bound. lia.
  - exact IH.
Qed.

Lemma all_indices_valid (shp idx : list nat) :
  In idx (all_indices shp) -> valid_index shp idx.
Proof.
  unfold all_indices. intros H. apply in_map_iff in H.
  destruct H as (n & <- & Hn). apply in_seq in Hn.
  apply unravel_valid, numel_pos_dims. lia.
Qed.

Lemma r_embedding_in_range (ids : tensor Z) (W : tensor R) :
  (forall idx, valid_index (shape ids) idx ->
               (0 <= get ids idx < Z.of_nat (nth 0%nat (shape W) 0%nat))%Z) ->
  r_embedding ids W
  = Ok (mkTensor (shape ids ++ [nth 1 (shape W) 0])
          (fun idx => get W [Z.to_nat (get ids (removelast idx)); last idx 0])).
Proof.
  intros H. unfold r_embedding.
  rewrite (proj2 (forallb_forall _ _)); [reflexivity|].
  intros idx Hidx. specialize (H idx (all_indices_valid _ _ Hidx)).
  apply andb_true_iff. split; [apply Z.leb_le | apply Z.ltb_lt]; lia.
Qed.

Lemma ravel_acc (shp idx : list nat) (acc : nat) :
  valid_index shp idx ->
  fold_left (fun a '(s, i) => a * s + i) (combine shp idx) acc
  = acc * numel shp + ravel shp idx.
Proof.
  intros H. revert acc. unfold ravel.
  induction H as [|i s idx shp _ _ IH]; intros acc; simpl; [lia|].
  rewrite (IH (acc * s + i)), (IH i). lia.
Qed.

Lemma ravel_cons (s i : nat) (shp idx : list nat) :
  valid_index shp idx -> ravel (s :: shp) (i :: idx) = i * numel shp + ravel shp idx.
Proof. intros H. unfold ravel at 1. simpl. apply (ravel_acc i H). Qed.

Lemma ravel_lt (shp idx : list nat) :
  valid_index shp idx -> ravel shp idx < numel shp.
Proof.
  induction 1 as [|i s idx shp Hi H IH].
  - unfold ravel. simpl. lia.
  - rewrite (ravel_cons s i H). simpl. nia.
Qed.

Lemma unravel_shift (shp : list nat) (k r : nat) :
  unravel shp (k * numel shp + r) = unravel shp r.
Proof.
  revert k r. induction shp as [|s shp IH]; intros k r; simpl; [reflexivity|].
  f_equal.
  - destruct (Nat.eq_dec (numel shp) 0) as [E|E].
    + rewrite E. reflexivity.
    + replace (k * (s * numel shp) + r) with (r + (k * s) * numel shp) by lia.
      rewrite Nat.div_add by exact E.
      destruct (Nat.eq_dec s 0) as [->|Hs].
      * simpl. lia.
      * replace (r / numel shp + k * s) with (r / numel shp + k * s) by lia.
        apply Nat.Div0.mod_add.
  - replace (k * (s * numel shp) + r) with ((k * s) * numel shp + r) by lia.
    apply IH.
Qed.

Lemma unravel_ravel (shp idx : list nat) :
  valid_index shp idx -> unravel shp (ravel shp idx) = idx.
Proof.
  induction 1 as [|i s idx shp Hi H IH]; [reflexivity|].
  rewrite (ravel_cons s i H). simpl. f_equal.
  - pose proof (ravel_lt H) as Hr.
    rewrite Nat.add_comm, Nat.div_add by lia.
    rewrite Nat.div_small by exact Hr. simpl. apply Nat.mod_small. exact Hi.
  - rewrite unravel_shift. exact IH.
Qed.

Lemma valid_in_all_indices (shp idx : list nat) :
  valid_index shp idx -> In idx (all_indices shp).
Proof.
  intros H. unfold all_indices. apply in_map_iff.
  exists (ravel shp idx). split; [apply unravel_ravel; exact H|].
  apply in_seq. pose proof (ravel_lt H). lia.
Qed.

Lemma r_embedding_out_of_range (ids : tensor Z) (W : tensor R) (idx : list nat) :
  valid_index (shape ids) idx ->
  ~ (0 <= get ids idx < Z.of_nat (nth 0%nat (shape W) 0%nat))%Z ->
  r_embedding ids W = Raise IndexError.
Proof.
  intros Hidx Hout. unfold r_embedding.
  destruct (forallb _ (all_indices (shape ids))) eqn:E; [|reflexivity].
  exfalso. apply Hout.
  pose proof (proj1 (forallb_forall _ _) E idx (valid_in_all_indices Hidx)) as H.
  apply andb_true_iff in H. destruct H as [H1 H2].
  apply Z.leb_le in H1. apply Z.ltb_lt in H2. lia.
Qed.

Lemma Embeddings_forward_eval (self : Embeddings) (x : tensor Z) (w : world) :
  let W := tensors w (emb_weight (emb_lut self)) in
  (0 <= emb_d_model self)%Z ->
  (forall idx, valid_index (shape x) idx ->
               (0 <= get x idx < Z.of_nat (nth 0%nat (shape W) 0%nat))%Z) ->
  @Embeddings_forward RealTorch self x w
  = Ok (r_map (fun v => v * sqrt (IZR (emb_d_model self)))%R
          (mkTensor (shape x ++ [nth 1 (shape W) 0])
             (fun idx => get W [Z.to_nat (get x (removelast idx)); last idx 0])),
        w).
Proof.
  intros W Hd Hrange.
  pose proof (r_embedding_in_range x W Hrange) as Elut.
  unfold Embeddings_forward, Embedding_forward.
  unfold bind at 1. unfold bind at 1. unfold read_tensor.
  change (@t_embedding RealTorch x (tensors w (emb_weight (emb_lut self))))
    with (r_embedding x W).
  rewrite Elut. unfold lift at 1. unfold math_sqrt.
  destruct (Z.ltb_spec (emb_d_model self) 0); [lia|]. reflexivity.
Qed.

(** C8: over the reals, for a table of non-negative [d_model]: when every
    token id is inside the table, [Embeddings.forward] returns, at every
    position, the row of the lookup table the token id selects, each entry
    multiplied by [sqrt(d_model)], and the Euclidean norm of the returned
    vector is [sqrt(d_model)] times that of the raw row; when some token id
    is outside the table, the lookup raises [IndexError]. *)
Theorem Embeddings_forward_scales_by_sqrt_d_model
  (self : Embeddings) (x : tensor Z) (w : world) :
  let W := tensors w (emb_weight (emb_lut self)) in
  let cols := nth 1 (shape W) 0 in
  (0 <= emb_d_model self)%Z ->
  ((forall idx, valid_index (shape x) idx ->
                (0 <= get x idx < Z.of_nat (nth 0%nat (shape W) 0%nat))%Z) ->
   exists out : tensor R,
     @Embeddings_forward RealTorch self x w = Ok (out, w) /\
     shape out = shape x ++ [cols] /\
     (forall idx c,
         get out (idx ++ [c])
         = (get W [Z.to_nat (get x idx); c] * sqrt (IZR (emb_d_model self)))%R) /\
     (forall idx,
         sqrt (sum_n cols (fun c => get out (idx ++ [c]) ^ 2))%R
         = (sqrt (IZR (emb_d_model self))
            * sqrt (sum_n cols (fun c => get W [Z.to_nat (get x idx); c] ^ 2)))%R)) /\
  (forall idx,
      valid_index (shape x) idx ->
      ~ (0 <= get x idx < Z.of_nat (nth 0%nat (shape W) 0%nat))%Z ->
      @Embeddings_forward RealTorch self x w = Raise IndexError).
Proof.
  intros W cols Hd. split.
  - intros Hrange.
    eexists. split; [apply (@Embeddings_forward_eval self x w Hd Hrange)|].
    assert (Hget : forall idx c,
      get (r_map (fun v => v * sqrt (IZR (emb_d_model self)))%R
             (mkTensor (shape x ++ [nth 1 (shape W) 0])
                (fun idx => get W [Z.to_nat (get x (removelast idx)); last idx 0])))
          (idx ++ [c])
      = (get W [Z.to_nat (get x idx); c] * sqrt (IZR (emb_d_model self)))%R).
    { intros idx c. simpl. now rewrite removelast_last, last_last. }
    split; [reflexivity|]. split; [exact Hget|].
    intros idx.
    rewrite (@sum_n_ext cols _
      (fun c => get W [Z.to_nat (get x idx); c] ^ 2
                * (sqrt (IZR (emb_d_model self)) * sqrt (IZR (emb_d_model self))))%R).
    2:{ intros c _. rewrite Hget. ring. }
    rewrite sum_n_scale, sqrt_sqrt by (apply IZR_le; exact Hd).
    rewrite sqrt_mult.
    + apply Rmult_comm.
    + apply sum_n_nonneg. intros c. apply pow2_ge_0.
    + apply IZR_le. exact Hd.
  - intros idx Hidx Hout.
    unfold Embeddings_forward, Embedding_forward.
    unfold bind at 1. unfold bind at 1. unfold read_tensor.
    change (@t_embedding RealTorch x (tensors w (emb_weight (emb_lut self))))
      with (r_embedding x W).
    rewrite (@r_embedding_out_of_range x W idx Hidx Hout). reflexivity.
Qed.

Lemma example_ids_in_range (idx : list nat) :
  valid_index (shape example_ids) idx ->
  (0 <= get example_ids idx
   < Z.of_nat (nth 0%nat
                 (shape (tensors example_embedding_world
                           (emb_weight (emb_lut example_embeddings)))) 0%nat))%Z.
Proof.
  intros H. simpl in *.
  inversion H as [|i s idx' shp Hi H']; subst.
  inversion H' as [|j s' idx'' shp' Hj H'']; subst.
  simpl. lia.
Qed.

Lemma Embeddings_forward_scales_by_sqrt_d_model_witness :
  ((0 <= emb_d_model example_embeddings)%Z /\
   forall idx, valid_index (shape example_ids) idx ->
     (0 <= get example_ids idx
      < Z.of_nat (nth 0%nat
                    (shape (tensors example_embedding_world
                              (emb_weight (emb_lut example_embeddings)))) 0%nat))%Z) /\
  exists out : tensor R,
    @Embeddings_forward RealTorch example_embeddings example_ids
                        example_embedding_world
    = Ok (out, example_embedding_world) /\
    get out [0; 1; 3] = (INR 5 * sqrt 4)%R.
Proof.
  assert (Hd : (0 <= emb_d_model example_embeddings)%Z) by (simpl; lia).
  split; [split; [exact Hd | exact example_ids_in_range]|].
  destruct (proj1 (@Embeddings_forward_scales_by_sqrt_d_model
                     example_embeddings example_ids example_embedding_world Hd)
                  example_ids_in_range) as (out & E & _ & Hget & _).
  exists out. split; [exact E|].
  exact (Hget [0; 1] 3).
Defined.

(** ** The sublayer connection *)

(** C2: [SublayerConnection.forward(x, sublayer)] returns
    [x + norm(dropout(sublayer(x)))]: the sublayer runs on the input as it
    is, its result goes through dropout, then through the layer
    normalisation, and the input is added to that; dropout and
    normalisation always return, and the normalisation leaves the store as
    it was.  This holds for every tensor library, every input and every
    sublayer function. *)
Theorem SublayerConnection_forward_residual {T : Torch}
  (self : SublayerConnection) (x : Tensor) (sublayer : Tensor -> Mon Tensor)
  (w : world) :
  SublayerConnection_forward self x sublayer w =
  match sublayer x w with
  | Raise e => Raise e
  | Ok (s, w1) =>
      match Dropout_forward (sc_dropout self) s w1 with
      | Raise e => Raise e
      | Ok (d, w2) =>
          match LayerNorm_forward (sc_norm self) d w2 with
          | Raise e => Raise e
          | Ok (n, w3) => Ok (t_add x n, w3)
          end
      end
  end /\
  (forall s w1, exists d w2,
      Dropout_forward (sc_dropout self) s w1 = Ok (d, w2)) /\
  (forall d w2, exists n,
      LayerNorm_forward (sc_norm self) d w2 = Ok (n, w2)).
Proof.
  split; [|split].
  - unfold SublayerConnection_forward, bind.
    destruct (sublayer x w) as [[s w1]|e]; [|reflexivity].
    destruct (Dropout_forward (sc_dropout self) s w1) as [[d w2]|e]; [|reflexivity].
    destruct (LayerNorm_forward (sc_norm self) d w2) as [[n w3]|e]; reflexivity.
  - intros s w1. unfold Dropout_forward.
    destruct (training (sc_dropout self)).
    + rewrite with_rng_Ok. eexists _, _. reflexivity.
    + eexists _, _. reflexivity.
  - intros d w2. eexists. reflexivity.
Qed.

(** ** Forward passes read the store and write only [attn] *)

Section ForwardLike.

Context {T : Torch}.

Lemma agree_refl (w : world) : agree w w.
Proof. split; reflexivity. Qed.

Lemma fl_ret {A} (L : list loc) (a : A) : forward_like L (ret a).
Proof.
  split.
  - intros w1 w2 H. simpl. split; [reflexivity | exact H].
  - intros w a' w' E. injection E as <- <-. repeat split; reflexivity.
Qed.

Lemma fl_raise {A} (L : list loc) (e : exn) : forward_like L (@raise T A e).
Proof.
  split.
  - intros w1 w2 H. reflexivity.
  - intros w a w' E. discriminate.
Qed.

Lemma fl_lift {A} (L : list loc) (r : result A) : forward_like L (lift r).
Proof.
  destruct r as [a|e]; [apply (fl_ret L a) | apply (fl_raise L e)].
Qed.

Lemma fl_bind {A B} (L : list loc) (m : Mon A) (k : A -> Mon B) :
  forward_like L m -> (forall a, forward_like L (k a)) ->
  forward_like L (bind m k).
Proof.
  intros [Hd Hp] Hk. split.
  - intros w1 w2 H. unfold bind. specialize (Hd w1 w2 H).
    unfold same_outcome in Hd.
    destruct (m w1) as [[a1 w1']|e1], (m w2) as [[a2 w2']|e2];
      try contradiction.
    + destruct Hd as [<- H']. apply (proj1 (Hk a1)). exact H'.
    + exact Hd.
  - intros w b w' E. apply bind_Ok_inv in E.
    destruct E as (a & w1 & E1 & E2).
    destruct (Hp _ _ _ E1) as (Hn1 & Ht1 & Ha1).
    destruct (proj2 (Hk a) _ _ _ E2) as (Hn2 & Ht2 & Ha2).
    split; [congruence|]. split.
    + intros l. rewrite Ht2. apply Ht1.
    + intros l Hl. rewrite (Ha2 l Hl). apply (Ha1 l Hl).
Qed.

Lemma fl_weaken {A} (L L' : list loc) (m : Mon A) :
  incl L L' -> forward_like L m -> forward_like L' m.
Proof.
  intros Hincl [Hd Hp]. split; [exact Hd|].
  intros w a w' E. destruct (Hp _ _ _ E) as (Hn & Ht & Ha).
  split; [exact Hn|]. split; [exact Ht|].
  intros l Hl. apply Ha. intros Hin. apply Hl, Hincl, Hin.
Qed.

Lemma fl_read_tensor (L : list loc) (l : loc) : forward_like L (read_tensor l).
Proof.
  split.
  - intros w1 w2 H. simpl. split; [apply (proj1 H) | exact H].
  - intros w a w' E. injection E as <- <-. repeat split; reflexivity.
Qed.

Lemma fl_with_rng {A} (L : list loc) (f : RNG -> A * RNG) :
  forward_like L (with_rng f).
Proof.
  split.
  - intros w1 w2 [Ht Hr]. rewrite !with_rng_Ok. simpl. rewrite Hr.
    split; [reflexivity|]. split; [exact Ht | reflexivity].
  - intros w a w' E. rewrite with_rng_Ok in E. injection E as <- <-.
    repeat split; reflexivity.
Qed.

Lemma fl_write_attr (L : list loc) (l : loc) (v : option Tensor) :
  In l L -> forward_like L (write_attr l v).
Proof.
  intros Hl. split.
  - intros w1 w2 [Ht Hr]. simpl. split; [reflexivity|].
    split; [exact Ht | exact Hr].
  - intros w a w' E. injection E as <- <-. simpl.
    split; [reflexivity|]. split; [reflexivity|].
    intros l' Hl'. destruct (Nat.eqb_spec l' l) as [->|Hne]; [|reflexivity].
    contradiction.
Qed.

Lemma fl_item {A} (L : list loc) (l : list A) (i : nat) : forward_like L (item l i).
Proof.
  unfold item. destruct (nth_error l i); [apply fl_ret | apply fl_raise].
Qed.

Lemma fl_item_last {A} (L : list loc) (l : list A) : forward_like L (item_last l).
Proof.
  unfold item_last. destruct (rev l); [apply fl_raise | apply fl_ret].
Qed.

Lemma fl_mapM {A B} (L : list loc) (f : A -> Mon B) (l : list A) :
  (forall a, forward_like L (f a)) -> forward_like L (mapM f l).
Proof.
  intros Hf. induction l as [|a l IH]; simpl; [apply fl_ret|].
  apply fl_bind; [apply Hf|]. intros b.
  apply fl_bind; [exact IH|]. intros bs. apply fl_ret.
Qed.

Lemma fl_foldM {A} (slots : A -> list loc) (f : A -> Tensor -> Mon Tensor)
  (l : list A) (x : Tensor) :
  (forall a y, forward_like (slots a) (f a y)) ->
  forward_like (flat_map slots l) (foldM f l x).
Proof.
  intros Hf. revert x. induction l as [|a l IH]; intros x; simpl; [apply fl_ret|].
  apply fl_bind.
  - apply fl_weaken with (L := slots a); [apply incl_appl, incl_refl | apply Hf].
  - intros y. apply fl_weaken with (L := flat_map slots l);
      [apply incl_appr, incl_refl | apply IH].
Qed.

Ltac fl_step :=
  first [ apply fl_ret | apply fl_raise | apply fl_lift | apply fl_read_tensor
        | apply fl_with_rng | apply fl_item | apply fl_item_last
        | apply fl_bind; [|intros ?] ].

Lemma fl_Linear_forward (L : list loc) (self : Linear) (x : Tensor) :
  forward_like L (Linear_forward self x).
Proof. unfold Linear_forward. repeat fl_step. Qed.

Lemma fl_Dropout_forward (L : list loc) (self : Dropout) (x : Tensor) :
  forward_like L (Dropout_forward self x).
Proof. unfold Dropout_forward. destruct (training self); fl_step. Qed.

Lemma fl_LayerNorm_forward (L : list loc) (self : LayerNorm) (x : Tensor) :
  forward_like L (LayerNorm_forward self x).
Proof. unfold LayerNorm_forward. repeat fl_step. Qed.

Lemma fl_Embeddings_forward (L : list loc) (self : Embeddings) (x : LongTensor) :
  forward_like L (Embeddings_forward self x).
Proof. unfold Embeddings_forward, Embedding_forward. repeat fl_step. Qed.

Lemma fl_PositionalEncoding_forward (L : list loc) (self : PositionalEncoding)
  (x : Tensor) :
  forward_like L (PositionalEncoding_forward self x).
Proof.
  unfold PositionalEncoding_forward. fl_step; [fl_step|].
  apply fl_Dropout_forward.
Qed.

Lemma fl_Sequential_forward (L : list loc) (self : Sequential) (x : LongTensor) :
  forward_like L (Sequential_forward self x).
Proof.
  unfold Sequential_forward. fl_step; [apply fl_Embeddings_forward|].
  apply fl_PositionalEncoding_forward.
Qed.

Lemma fl_attention (L : list loc) (query key value : Tensor)
  (mask : option MaskTensor) (dropout : option (Tensor -> Mon Tensor)) :
  (forall d x, dropout = Some d -> forward_like L (d x)) ->
  forward_like L (attention query key value mask dropout).
Proof.
  intros Hd. unfold attention. fl_step; [fl_step|].
  fl_step; [|fl_step].
  destruct dropout as [d|]; [apply Hd; reflexivity | fl_step].
Qed.

Lemma fl_MultiHeadedAttention_forward (L : list loc) (self : MultiHeadedAttention)
  (query key value : Tensor) (mask : option MaskTensor) :
  In (mha_attn self) L ->
  forward_like L (MultiHeadedAttention_forward self query key value mask).
Proof.
  intros Hin. unfold MultiHeadedAttention_forward. apply fl_bind.
  - apply fl_mapM. intros [l x]. fl_step; [apply fl_Linear_forward | fl_step].
  - intros projected.
    destruct projected as [|q [|k [|v [|? ?]]]]; try apply fl_raise.
    apply fl_bind.
    + apply fl_attention. intros d x E. injection E as <-.
      apply fl_Dropout_forward.
    + intros [x p_attn]. apply fl_bind; [apply fl_write_attr; exact Hin|].
      intros _. apply fl_bind; [apply fl_item_last|].
      intros l. apply fl_Linear_forward.
Qed.

Lemma fl_PositionwiseFeedForward_forward (L : list loc)
  (self : PositionwiseFeedForward) (x : Tensor) :
  forward_like L (PositionwiseFeedForward_forward self x).
Proof.
  unfold PositionwiseFeedForward_forward.
  apply fl_bind; [apply fl_Linear_forward|]. intros y.
  apply fl_bind; [apply fl_Dropout_forward|]. intros z.
  apply fl_Linear_forward.
Qed.

Lemma fl_SublayerConnection_forward (L : list loc) (self : SublayerConnection)
  (x : Tensor) (sublayer : Tensor -> Mon Tensor) :
  (forall y, forward_like L (sublayer y)) ->
  forward_like L (SublayerConnection_forward self x sublayer).
Proof.
  intros Hs. unfold SublayerConnection_forward.
  apply fl_bind; [apply Hs|]. intros y.
  apply fl_bind; [apply fl_Dropout_forward|]. intros z.
  apply fl_bind; [apply fl_LayerNorm_forward|]. intros n. apply fl_ret.
Qed.

Lemma fl_EncoderLayer_forward (self : EncoderLayer) (x : Tensor)
  (mask : option MaskTensor) :
  forward_like (EncoderLayer_attn_slots self) (EncoderLayer_forward self x mask).
Proof.
  unfold EncoderLayer_forward.
  apply fl_bind; [apply fl_item|]. intros s0.
  apply fl_bind.
  { apply fl_SublayerConnection_forward. intros y.
    apply fl_MultiHeadedAttention_forward. now left. }
  intros y. apply fl_bind; [apply fl_item|]. intros s1.
  apply fl_bind; [|intros z; apply fl_ret].
  apply fl_SublayerConnection_forward. intros z.
  apply fl_PositionwiseFeedForward_forward.
Qed.

Lemma fl_DecoderLayer_forward (self : DecoderLayer) (x memory : Tensor)
  (src_mask tgt_mask : option MaskTensor) :
  forward_like (DecoderLayer_attn_slots self)
               (DecoderLayer_forward self x memory src_mask tgt_mask).
Proof.
  unfold DecoderLayer_forward.
  apply fl_bind; [apply fl_item|]. intros s0.
  apply fl_bind.
  { apply fl_SublayerConnection_forward. intros y.
    apply fl_MultiHeadedAttention_forward. now left. }
  intros y. apply fl_bind; [apply fl_item|]. intros s1.
  apply fl_bind.
  { apply fl_SublayerConnection_forward. intros z.
    apply fl_MultiHeadedAttention_forward. right. now left. }
  intros z. apply fl_bind; [apply fl_item|]. intros s2.
  apply fl_SublayerConnection_forward. intros u.
  apply fl_PositionwiseFeedForward_forward.
Qed.

Lemma fl_Encoder_forward (self : Encoder) (x : Tensor) (mask : option MaskTensor) :
  forward_like (flat_map EncoderLayer_attn_slots (enc_layers self))
               (Encoder_forward self x mask).
Proof.
  unfold Encoder_forward. apply fl_bind.
  - apply fl_foldM with (f := fun layer x => EncoderLayer_forward layer x mask).
    intros a y. apply fl_EncoderLayer_forward.
  - intros y. apply fl_LayerNorm_forward.
Qed.

Lemma fl_Decoder_forward (self : Decoder) (x memory : Tensor)
  (src_mask tgt_mask : option MaskTensor) :
  forward_like (flat_map DecoderLayer_attn_slots (dec_layers self))
               (Decoder_forward self x memory src_mask tgt_mask).
Proof.
  unfold Decoder_forward. apply fl_bind.
  - apply fl_foldM with
      (f := fun layer x => DecoderLayer_forward layer x memory src_mask tgt_mask).
    intros a y. apply fl_DecoderLayer_forward.
  - intros y. apply fl_LayerNorm_forward.
Qed.

Lemma fl_EncoderDecoder_forward (self : EncoderDecoder) (src tgt : LongTensor)
  (src_mask tgt_mask : option MaskTensor) :
  forward_like (EncoderDecoder_attn_slots self)
               (EncoderDecoder_forward self src tgt src_mask tgt_mask).
Proof.
  unfold EncoderDecoder_forward, EncoderDecoder_encode, EncoderDecoder_decode,
    EncoderDecoder_attn_slots.
  apply fl_bind.
  - apply fl_bind; [apply fl_Sequential_forward|]. intros e.
    eapply fl_weaken; [|apply fl_Encoder_forward]. apply incl_appl, incl_refl.
  - intros memory. apply fl_bind; [|intros res; apply fl_ret].
    apply fl_bind; [apply fl_Sequential_forward|]. intros e.
    eapply fl_weaken; [|apply fl_Decoder_forward]. apply incl_appr, incl_refl.
Qed.

End ForwardLike.

(** ** What a forward pass leaves in the attributes *)

Section Fills.

Context {T : Torch}.

Lemma fills_raise {A} (s : list loc) (e : exn) : fills s (@raise T A e).
Proof. intros w a w' E. discriminate. Qed.

(** A computation that writes no attribute empties none. *)
Lemma fills_unchanged {A} (m : Mon A) : forward_like [] m -> fills [] m.
Proof.
  intros [_ Hp] w a w' E. destruct (Hp _ _ _ E) as (_ & _ & Ha).
  split; [intros l []|].
  intros l Hl. rewrite (Ha l); [exact Hl | intros []].
Qed.

Lemma fills_bind {A B} (s1 s2 : list loc) (m : Mon A) (k : A -> Mon B) :
  fills s1 m -> (forall a, fills s2 (k a)) -> fills (s1 ++ s2) (bind m k).
Proof.
  intros Hm Hk w b w' E. apply bind_Ok_inv in E.
  destruct E as (a & w1 & E1 & E2).
  destruct (Hm _ _ _ E1) as [Hm1 Hm2]. destruct (Hk a _ _ _ E2) as [Hk1 Hk2].
  split.
  - intros l Hl. apply in_app_or in Hl.
    destruct Hl as [Hl|Hl]; [apply Hk2, Hm1, Hl | apply Hk1, Hl].
  - intros l Hl. apply Hk2, Hm2, Hl.
Qed.

Lemma fills_bind_l {A B} (s : list loc) (m : Mon A) (k : A -> Mon B) :
  fills s m -> (forall a, fills [] (k a)) -> fills s (bind m k).
Proof.
  intros Hm Hk. rewrite <- (app_nil_r s). now apply fills_bind.
Qed.

Lemma fills_bind_r {A B} (s : list loc) (m : Mon A) (k : A -> Mon B) :
  fills [] m -> (forall a, fills s (k a)) -> fills s (bind m k).
Proof. intros Hm Hk. now apply (@fills_bind A B [] s). Qed.

Lemma fills_write_attr (l : loc) (v : Tensor) :
  fills [l] (write_attr l (Some v)).
Proof.
  intros w a w' E. injection E as <- <-. simpl. split.
  - intros l' [<-|[]]. rewrite Nat.eqb_refl. discriminate.
  - intros l' Hl'. destruct (Nat.eqb l' l); [discriminate | exact Hl'].
Qed.

(** [l[i]] followed by a computation on the element found. *)
Lemma fills_item_then {A B} (s : list loc) (l : list A) (i : nat)
  (k : A -> Mon B) :
  (forall a, fills s (k a)) -> fills s (bind (item l i) k).
Proof.
  intros Hk. unfold item. destruct (nth_error l i) as [a|].
  - intros w b w' Eb. unfold bind, ret in Eb. exact (Hk a _ _ _ Eb).
  - intros w b w' Eb. discriminate.
Qed.

Lemma fills_foldM {A} (slots : A -> list loc) (f : A -> Tensor -> Mon Tensor)
  (l : list A) (x : Tensor) :
  (forall a y, fills (slots a) (f a y)) ->
  fills (flat_map slots l) (foldM f l x).
Proof.
  intros Hf. revert x.
  induction l as [|a l IH]; intros x; simpl.
  - apply fills_unchanged, fl_ret.
  - apply fills_bind; [apply Hf | intros y; apply IH].
Qed.

(** [MultiHeadedAttention.forward] stores in [attn] the weights that its
    call of [attention], on the three projections, returned. *)
Lemma MultiHeadedAttention_forward_stores_weights (self : MultiHeadedAttention)
  (query key value : Tensor) (mask : option MaskTensor)
  (w : world) (out : Tensor) (w' : world) :
  MultiHeadedAttention_forward self query key value mask w = Ok (out, w') ->
  exists (q k v x p_attn : Tensor) (w1 w2 : world),
    mapM (fun '(l, x) =>
            y <- Linear_forward l x ;;
            ret (t_transpose
                   (t_view y [t_size query 0; -1; mha_h self; mha_d_k self]%Z)
                   1 2))
         (combine (mha_linears self) [query; key; value]) w
    = Ok ([q; k; v], w1) /\
    attention q k v (option_map (fun mask => t_mask_unsqueeze mask 1) mask)
              (Some (Dropout_forward (mha_dropout self))) w1
    = Ok ((x, p_attn), w2) /\
    attrs w' (mha_attn self) = Some p_attn.
Proof.
  intros E. unfold MultiHeadedAttention_forward in E.
  apply bind_Ok_inv in E. destruct E as (projected & w1 & E1 & E).
  destruct projected as [|q [|k [|v [|? ?]]]]; try discriminate.
  apply bind_Ok_inv in E. destruct E as ([x p_attn] & w2 & Ea & E).
  apply bind_Ok_inv in E. destruct E as ([] & w3 & Ew & E).
  exists q, k, v, x, p_attn, w1, w2.
  split; [exact E1|]. split; [exact Ea|].
  assert (Hrest : forward_like []
            (l <- item_last (mha_linears self) ;;
             Linear_forward l
               (t_view (t_contiguous (t_transpose x 1 2))
                       [t_size query 0; -1; mha_h self * mha_d_k self]%Z)))
    by (apply fl_bind; [apply fl_item_last | intros l; apply fl_Linear_forward]).
  destruct (proj2 Hrest _ _ _ E) as (_ & _ & Ha).
  rewrite (Ha (mha_attn self)) by (intros []).
  injection Ew as <-. simpl. rewrite Nat.eqb_refl. reflexivity.
Qed.

Lemma fills_MultiHeadedAttention_forward (self : MultiHeadedAttention)
  (query key value : Tensor) (mask : option MaskTensor) :
  fills [mha_attn self] (MultiHeadedAttention_forward self query key value mask).
Proof.
  unfold MultiHeadedAttention_forward.
  apply (@fills_bind _ _ [] [mha_attn self]).
  - apply fills_unchanged, fl_mapM. intros [l x].
    apply fl_bind; [apply fl_Linear_forward | intros y; apply fl_ret].
  - intros projected.
    destruct projected as [|q [|k [|v [|? ?]]]]; try apply fills_raise.
    apply (@fills_bind _ _ [] [mha_attn self]).
    + apply fills_unchanged, fl_attention. intros d x E. injection E as <-.
      apply fl_Dropout_forward.
    + intros [x p_attn].
      apply (@fills_bind _ _ [mha_attn self] []); [apply fills_write_attr|].
      intros _. apply fills_unchanged.
      apply fl_bind; [apply fl_item_last | intros l; apply fl_Linear_forward].
Qed.

Lemma fills_SublayerConnection_forward (s : list loc)
  (self : SublayerConnection) (x : Tensor) (sublayer : Tensor -> Mon Tensor) :
  (forall y, fills s (sublayer y)) ->
  fills s (SublayerConnection_forward self x sublayer).
Proof.
  intros Hs. unfold SublayerConnection_forward.
  rewrite <- (app_nil_r s). apply fills_bind; [apply Hs|]. intros y.
  apply fills_unchanged.
  apply fl_bind; [apply fl_Dropout_forward|]. intros z.
  apply fl_bind; [apply fl_LayerNorm_forward|]. intros n. apply fl_ret.
Qed.

Lemma fills_feed_forward (self : SublayerConnection)
  (ff : PositionwiseFeedForward) (x : Tensor) :
  fills [] (SublayerConnection_forward self x
              (PositionwiseFeedForward_forward ff)).
Proof.
  apply fills_unchanged, fl_SublayerConnection_forward. intros y.
  apply fl_PositionwiseFeedForward_forward.
Qed.

Lemma fills_EncoderLayer_forward (self : EncoderLayer) (x : Tensor)
  (mask : option MaskTensor) :
  fills (EncoderLayer_attn_slots self) (EncoderLayer_forward self x mask).
Proof.
  unfold EncoderLayer_forward, EncoderLayer_attn_slots.
  apply fills_item_then. intros s0.
  apply (@fills_bind _ _ [mha_attn (el_self_attn self)] []).
  { apply fills_SublayerConnection_forward. intros y.
    apply fills_MultiHeadedAttention_forward. }
  intros y. apply fills_item_then. intros s1.
  apply (@fills_bind _ _ [] []); [apply fills_feed_forward|].
  intros z. apply fills_unchanged, fl_ret.
Qed.

Lemma fills_DecoderLayer_forward (self : DecoderLayer) (x memory : Tensor)
  (src_mask tgt_mask : option MaskTensor) :
  fills (DecoderLayer_attn_slots self)
        (DecoderLayer_forward self x memory src_mask tgt_mask).
Proof.
  unfold DecoderLayer_forward, DecoderLayer_attn_slots.
  apply fills_item_then. intros s0.
  apply (@fills_bind _ _ [mha_attn (dl_self_attn self)]
                         [mha_attn (dl_src_attn self)]).
  { apply fills_SublayerConnection_forward. intros y.
    apply fills_MultiHeadedAttention_forward. }
  intros y. apply fills_item_then. intros s1.
  apply (@fills_bind _ _ [mha_attn (dl_src_attn self)] []).
  { apply fills_SublayerConnection_forward. intros z.
    apply fills_MultiHeadedAttention_forward. }
  intros z. apply fills_item_then. intros s2. apply fills_feed_forward.
Qed.

Lemma fills_Encoder_forward (self : Encoder) (x : Tensor)
  (mask : option MaskTensor) :
  fills (flat_map EncoderLayer_attn_slots (enc_layers self))
        (Encoder_forward self x mask).
Proof.
  unfold Encoder_forward. apply fills_bind_l.
  - apply fills_foldM with (f := fun layer x => EncoderLayer_forward layer x mask).
    intros a y. apply fills_EncoderLayer_forward.
  - intros y. apply fills_unchanged, fl_LayerNorm_forward.
Qed.

Lemma fills_Decoder_forward (self : Decoder) (x memory : Tensor)
  (src_mask tgt_mask : option MaskTensor) :
  fills (flat_map DecoderLayer_attn_slots (dec_layers self))
        (Decoder_forward self x memory src_mask tgt_mask).
Proof.
  unfold Decoder_forward. apply fills_bind_l.
  - apply fills_foldM with
      (f := fun layer x => DecoderLayer_forward layer x memory src_mask tgt_mask).
    intros a y. apply fills_DecoderLayer_forward.
  - intros y. apply fills_unchanged, fl_LayerNorm_forward.
Qed.

Lemma fills_EncoderDecoder_forward (self : EncoderDecoder)
  (src tgt : LongTensor) (src_mask tgt_mask : option MaskTensor) :
  fills (EncoderDecoder_attn_slots self)
        (EncoderDecoder_forward self src tgt src_mask tgt_mask).
Proof.
  unfold EncoderDecoder_forward, EncoderDecoder_encode, EncoderDecoder_decode,
    EncoderDecoder_attn_slots.
  apply fills_bind.
  - apply fills_bind_r; [apply fills_unchanged, fl_Sequential_forward|].
    intros e. apply fills_Encoder_forward.
  - intros memory.
    apply fills_bind_l; [|intros res; apply fills_unchanged, fl_ret].
    apply fills_bind_r; [apply fills_unchanged, fl_Sequential_forward|].
    intros e. apply fills_Decoder_forward.
Qed.

End Fills.

(** ** Evaluating forward passes over the reals *)

Lemma MultiHeadedAttention_forward_eval (self : MultiHeadedAttention)
  (query key value : tensor R) (mask : option (tensor bool)) (w : world)
  (lq lk lv lo : Linear) :
  mha_linears self = [lq; lk; lv; lo] ->
  training (mha_dropout self) = false ->
  let p_attn := attention_weights w self lq lk query key mask in
  let x := r_view (r_transpose
                     (r_matmul p_attn (heads w self (r_size query 0) lv value))
                     1 2)
                  [r_size query 0; -1; mha_h self * mha_d_k self]%Z in
  @MultiHeadedAttention_forward RealTorch self query key value mask w
  = Ok (r_linear x (tensors w (weight lo)) (tensors w (bias lo)),
        mkWorld (next w) (tensors w)
                (fun l => if Nat.eqb l (mha_attn self) then Some p_attn
                          else attrs w l)
                (rng w)).
Proof.
  intros Hl Htr p_attn x.
  unfold MultiHeadedAttention_forward. rewrite Hl.
  simpl combine. simpl mapM. unfold Linear_forward, read_tensor. unfold bind at 1.
  simpl.
  erewrite bind_Ok;
    [|apply attention_eval; right; exists (mha_dropout self);
      split; [exact Htr | reflexivity]].
  destruct mask; reflexivity.
Qed.

Lemma Dropout_forward_eval {T : Torch} (self : Dropout) (x : Tensor) (w : world) :
  training self = false -> Dropout_forward self x w = Ok (x, w).
Proof. intros H. unfold Dropout_forward. rewrite H. reflexivity. Qed.

Lemma SublayerConnection_forward_eval (self : SublayerConnection)
  (x : tensor R) (sublayer : tensor R -> Mon (tensor R)) (w w1 : world)
  (s : tensor R) :
  training (sc_dropout self) = false ->
  sublayer x w = Ok (s, w1) ->
  @SublayerConnection_forward RealTorch self x sublayer w
  = Ok (r_zip Rplus x (LayerNorm_value w1 (sc_norm self) s), w1).
Proof.
  intros Htr Hs. unfold SublayerConnection_forward.
  rewrite (bind_Ok _ _ _ Hs).
  rewrite (bind_Ok _ _ _ (Dropout_forward_eval _ _ _ Htr)).
  reflexivity.
Qed.

Lemma PositionwiseFeedForward_forward_eval (self : PositionwiseFeedForward)
  (x : tensor R) (w : world) :
  training (ff_dropout self) = false ->
  @PositionwiseFeedForward_forward RealTorch self x w
  = Ok (r_linear
          (r_map (Rmax 0)
             (r_linear x (tensors w (weight (ff_w_1 self)))
                       (tensors w (bias (ff_w_1 self)))))
          (tensors w (weight (ff_w_2 self))) (tensors w (bias (ff_w_2 self))),
        w).
Proof.
  intros Htr.
  unfold PositionwiseFeedForward_forward, Linear_forward, read_tensor,
    Dropout_forward, bind, ret.
  rewrite Htr. reflexivity.
Qed.

(** In evaluation mode, a decoder layer with three sublayer connections and
    four linear layers in each attention module returns, and leaves in the
    [attn] attribute of its self-attention the weights computed from the
    input as query and key under the target mask it was given. *)
Lemma DecoderLayer_forward_eval (self : DecoderLayer) (x memory : tensor R)
  (src_mask tgt_mask : option (tensor bool)) (w : world)
  (s0 s1 s2 : SublayerConnection) (lq lk lv lo mq mk mv mo : Linear) :
  dl_sublayer self = [s0; s1; s2] ->
  mha_linears (dl_self_attn self) = [lq; lk; lv; lo] ->
  mha_linears (dl_src_attn self) = [mq; mk; mv; mo] ->
  training (mha_dropout (dl_self_attn self)) = false ->
  training (mha_dropout (dl_src_attn self)) = false ->
  training (ff_dropout (dl_feed_forward self)) = false ->
  training (sc_dropout s0) = false ->
  training (sc_dropout s1) = false ->
  training (sc_dropout s2) = false ->
  mha_attn (dl_self_attn self) <> mha_attn (dl_src_attn self) ->
  exists (out : tensor R) (w' : world),
    @DecoderLayer_forward RealTorch self x memory src_mask tgt_mask w
    = Ok (out, w') /\
    attrs w' (mha_attn (dl_self_attn self))
    = Some (attention_weights w (dl_self_attn self) lq lk x x tgt_mask).
Proof.
  intros Hsub Hself Hsrc T1 T2 T3 T4 T5 T6 Hne.
  unfold DecoderLayer_forward. rewrite Hsub. unfold item at 1. simpl nth_error.
  unfold bind at 1. unfold ret at 1.
  erewrite bind_Ok;
    [|apply SublayerConnection_forward_eval; [exact T4|];
      apply (MultiHeadedAttention_forward_eval _ _ _ _ _ _ Hself T1)].
  unfold item at 1. simpl nth_error. unfold bind at 1. unfold ret at 1.
  erewrite bind_Ok;
    [|apply SublayerConnection_forward_eval; [exact T5|];
      apply (MultiHeadedAttention_forward_eval _ _ _ _ _ _ Hsrc T2)].
  unfold item at 1. simpl nth_error. unfold bind at 1. unfold ret at 1.
  erewrite SublayerConnection_forward_eval;
    [|exact T6 | apply PositionwiseFeedForward_forward_eval; exact T3].
  eexists _, _. split; [reflexivity|].
  simpl. destruct (Nat.eqb_spec (mha_attn (dl_self_attn self))
                                (mha_attn (dl_src_attn self))) as [E|_];
    [contradiction|].
  rewrite Nat.eqb_refl. reflexivity.
Qed.

(** ** Shapes of the attention weights *)

Lemma view_shape_split_heads (B S hN dk : nat) :
  0 < B -> 0 < hN -> 0 < dk ->
  view_shape (numel [B; S; hN * dk])
             [Z.of_nat B; -1; Z.of_nat hN; Z.of_nat dk]%Z
  = [B; S; hN; dk].
Proof.
  intros HB Hh Hd. unfold view_shape. cbn [fold_right map].
  destruct (Z.eqb_spec (Z.of_nat B) (-1)); [lia|].
  destruct (Z.eqb_spec (Z.of_nat hN) (-1)); [lia|].
  destruct (Z.eqb_spec (Z.of_nat dk) (-1)); [lia|].
  change (-1 =? -1)%Z with true. cbv iota. rewrite !Nat2Z.id.
  f_equal. f_equal. unfold numel. cbn [fold_right].
  replace (B * (S * (hN * dk * 1))) with (S * (B * (hN * (dk * 1)))) by ring.
  apply Nat.div_mul.
  repeat (apply Nat.neq_mul_0; split); lia.
Qed.

Lemma view_shape_merge_heads (B S hN dk : nat) :
  0 < B -> 0 < hN -> 0 < dk ->
  view_shape (numel [B; S; hN; dk])
             [Z.of_nat B; -1; Z.of_nat hN * Z.of_nat dk]%Z
  = [B; S; hN * dk].
Proof.
  intros HB Hh Hd. unfold view_shape. cbn [fold_right map].
  destruct (Z.eqb_spec (Z.of_nat B) (-1)); [lia|].
  destruct (Z.eqb_spec (Z.of_nat hN * Z.of_nat dk) (-1)); [lia|].
  change (-1 =? -1)%Z with true. cbv iota.
  rewrite <- Nat2Z.inj_mul, !Nat2Z.id.
  f_equal. f_equal. unfold numel. cbn [fold_right].
  replace (B * (S * (hN * (dk * 1)))) with (S * (B * (hN * dk * 1))) by ring.
  apply Nat.div_mul.
  repeat (apply Nat.neq_mul_0; split); lia.
Qed.

Lemma bshape_refl2 (a b : nat) : bshape [a; b] [a; b] = [a; b].
Proof.
  rewrite bshape_same_length by reflexivity. simpl.
  destruct (a =? 1), (b =? 1); reflexivity.
Qed.

Lemma heads_shape (w : @world RealTorch) (self : MultiHeadedAttention)
  (l : Linear) (x : tensor R) (B S hN dk : nat) :
  mha_h self = Z.of_nat hN -> mha_d_k self = Z.of_nat dk ->
  0 < B -> 0 < hN -> 0 < dk ->
  shape x = [B; S; hN * dk] ->
  shape (tensors w (weight l)) = [hN * dk; hN * dk] ->
  shape (heads w self (Z.of_nat B) l x) = [B; hN; S; dk].
Proof.
  intros Hh Hd HB HhN Hdk Hx HW.
  unfold heads, r_transpose, r_view, r_linear. cbn [shape].
  rewrite Hx, HW, Hh, Hd. cbn [length nth Nat.sub set_nth].
  rewrite (view_shape_split_heads S HB HhN Hdk). reflexivity.
Qed.

Lemma MultiHeadedAttention_output_shape
  (self : MultiHeadedAttention) (query key value : tensor R)
  (mask : option (tensor bool)) (w : world) (lq lk lv lo : Linear)
  (B Sq Sk hN dk : nat) :
  mha_h self = Z.of_nat hN -> mha_d_k self = Z.of_nat dk ->
  0 < B -> 0 < hN -> 0 < dk ->
  shape query = [B; Sq; hN * dk] ->
  shape key = [B; Sk; hN * dk] ->
  shape value = [B; Sk; hN * dk] ->
  (forall l, In l [lq; lk; lv; lo] ->
             shape (tensors w (weight l)) = [hN * dk; hN * dk]) ->
  let p_attn := attention_weights w self lq lk query key mask in
  let x := r_view (r_transpose
                     (r_matmul p_attn (heads w self (r_size query 0) lv value))
                     1 2)
                  [r_size query 0; -1; mha_h self * mha_d_k self]%Z in
  shape (r_linear x (tensors w (weight lo)) (tensors w (bias lo)))
  = [B; Sq; hN * dk] /\
  shape p_attn = [B; hN; Sq; Sk].
Proof.
  intros Hh Hd HB HhN Hdk Hq Hk Hv HW p_attn x.
  assert (Hnb : r_size query 0 = Z.of_nat B)
    by (unfold r_size; rewrite Hq; reflexivity).
  assert (Hhq : shape (heads w self (r_size query 0) lq query) = [B; hN; Sq; dk])
    by (rewrite Hnb; apply heads_shape; auto; apply HW; simpl; auto).
  assert (Hhk : shape (heads w self (r_size query 0) lk key) = [B; hN; Sk; dk])
    by (rewrite Hnb; apply heads_shape; auto; apply HW; simpl; auto).
  assert (Hhv : shape (heads w self (r_size query 0) lv value) = [B; hN; Sk; dk])
    by (rewrite Hnb; apply heads_shape; auto; apply HW; simpl; auto).
  assert (Hp : shape p_attn = [B; hN; Sq; Sk]).
  { unfold p_attn, attention_weights, r_softmax. cbn [shape].
    assert (Hs : shape (attention_scores
                          (heads w self (r_size query 0) lq query)
                          (heads w self (r_size query 0) lk key))
                 = [B; hN; Sq; Sk]).
    { unfold attention_scores, r_map, r_matmul, r_transpose. cbn [shape].
      rewrite Hhq, Hhk.
      change (norm_dim (length [B; hN; Sk; dk]) (-2)) with 2.
      change (norm_dim (length [B; hN; Sk; dk]) (-1)) with 3.
      unfold swap. cbn [nth set_nth length Nat.sub firstn].
      rewrite bshape_refl2. reflexivity. }
    unfold attention_filled_scores. destruct mask; [|exact Hs].
    unfold r_masked_fill. cbn [shape]. exact Hs. }
  split; [|exact Hp].
  unfold r_linear. cbn [shape].
  assert (Hx : shape x = [B; Sq; hN * dk]).
  { unfold x, r_view, r_transpose, r_matmul. cbn [shape].
    fold p_attn. rewrite Hp, Hhv, Hnb, Hh, Hd.
    cbn [nth length Nat.sub firstn]. rewrite bshape_refl2.
    cbn [app length].
    change (norm_dim 4 1) with 1. change (norm_dim 4 2) with 2.
    unfold swap. cbn [nth set_nth].
    apply view_shape_merge_heads; assumption. }
  rewrite Hx. cbn [length Nat.sub set_nth].
  rewrite (HW lo) by (simpl; auto). reflexivity.
Qed.

Lemma four_linears (tn : loc -> tensor R) (hN dk : nat)
  (self : MultiHeadedAttention) :
  MultiHeadedAttention_shaped tn hN dk self ->
  exists lq lk lv lo : Linear,
    mha_linears self = [lq; lk; lv; lo] /\
    forall l, In l [lq; lk; lv; lo] ->
              shape (tn (weight l)) = [hN * dk; hN * dk].
Proof.
  intros (_ & _ & Hlen & Hall).
  destruct (mha_linears self) as [|lq [|lk [|lv [|lo [|? ?]]]]];
    try discriminate.
  exists lq, lk, lv, lo. split; [reflexivity|].
  rewrite Forall_forall in Hall. intros l Hl. exact (proj1 (Hall l Hl)).
Qed.

(** The example model is well shaped. *)
Lemma example_linear_shaped (i : nat) :
  i < 16 -> Linear_shaped (tensors example_world) (1 * 2) (1 * 2) (example_linear i).
Proof.
  intros Hi.
  do 16 (destruct i as [|i]; [split; reflexivity|]). lia.
Qed.

Lemma example_norm_shaped (i : nat) :
  i < 7 -> LayerNorm_shaped (tensors example_world) (1 * 2) (example_norm i).
Proof.
  intros Hi.
  do 7 (destruct i as [|i]; [split; reflexivity|]). lia.
Qed.

Lemma example_model_shaped :
  EncoderDecoder_shaped (tensors example_world) 1 2 3 3 5000 example_model.
Proof.
  assert (Hattn : forall a b c d slot,
            a < 16 -> b < 16 -> c < 16 -> d < 16 ->
            MultiHeadedAttention_shaped (tensors example_world) 1 2
              (mkMultiHeadedAttention 2 1
                 (map example_linear [a; b; c; d]) slot example_dropout)).
  { intros a b c d slot Ha Hb Hc Hd.
    split; [reflexivity|]. split; [reflexivity|]. split; [reflexivity|].
    repeat constructor; apply example_linear_shaped; assumption. }
  assert (Hff : forall a b, a < 16 -> b < 16 ->
            PositionwiseFeedForward_shaped (tensors example_world) (1 * 2)
              (mkPositionwiseFeedForward (example_linear a) (example_linear b)
                                         example_dropout)).
  { intros a b Ha Hb. exists 2.
    split; apply example_linear_shaped; assumption. }
  split; [|split; [|split; [|split; [|split]]]].
  - constructor; [|constructor].
    split; [apply Hattn; lia|]. split; [apply Hff; lia|].
    split; [reflexivity|].
    repeat constructor; apply example_norm_shaped; lia.
  - apply (@example_norm_shaped 5). lia.
  - constructor; [|constructor].
    split; [apply Hattn; lia|]. split; [apply Hattn; lia|].
    split; [apply Hff; lia|]. split; [reflexivity|].
    repeat constructor; apply example_norm_shaped; lia.
  - apply (@example_norm_shaped 6). lia.
  - split; [simpl; lia|]. split; reflexivity.
  - split; [simpl; lia|]. split; reflexivity.
Qed.

(** ** The decoder layer *)

Lemma mapM_length {T : Torch} {A B} (f : A -> Mon B) (l : list A) :
  forall w bs w', mapM f l w = Ok (bs, w') -> length bs = length l.
Proof.
  induction l as [|a l IH]; intros w bs w' E; simpl in E.
  - injection E as <- <-. reflexivity.
  - apply bind_Ok_inv in E. destruct E as (b & w1 & _ & E).
    apply bind_Ok_inv in E. destruct E as (bs' & w2 & E2 & E).
    injection E as <- <-. simpl. f_equal. exact (IH _ _ _ E2).
Qed.

Lemma SublayerConnection_init_total {T : Torch} (size : Z) (dropout : Q) w :
  (0 <= size)%Z -> Qle_bool 0 dropout && Qle_bool dropout 1 = true ->
  exists m w', SublayerConnection_init size dropout w = Ok (m, w').
Proof.
  intros Hs Hp. unfold SublayerConnection_init.
  destruct (@LayerNorm_init_total T size (1 # 1000000) w Hs) as (n & w1 & E).
  rewrite (bind_Ok _ _ _ E), (bind_Ok _ _ _ (nn_Dropout_Ok _ w1 Hp)).
  eexists _, _. reflexivity.
Qed.

Lemma DecoderLayer_init_three {T : Torch} (size : Z)
  (self_attn src_attn : MultiHeadedAttention)
  (feed_forward : PositionwiseFeedForward) (dropout : Q) (w : world) :
  (0 <= size)%Z -> Qle_bool 0 dropout && Qle_bool dropout 1 = true ->
  exists layer w' s0 s1 s2,
    DecoderLayer_init size self_attn src_attn feed_forward dropout w
    = Ok (layer, w') /\
    dl_sublayer layer = [s0; s1; s2] /\
    dl_self_attn layer = self_attn /\
    dl_src_attn layer = src_attn /\
    dl_feed_forward layer = feed_forward.
Proof.
  intros Hs Hp. unfold DecoderLayer_init.
  destruct (@SublayerConnection_init_total T size dropout w Hs Hp) as (t & w1 & Et).
  rewrite (bind_Ok _ _ _ Et).
  destruct (clones_total t 3 w1) as (ms & w2 & Ec).
  rewrite (bind_Ok _ _ _ Ec).
  pose proof (@mapM_length T _ _ _ _ _ _ _ Ec) as Hlen. simpl in Hlen.
  destruct ms as [|s0 [|s1 [|s2 [|s3 ms]]]]; try discriminate.
  eexists _, w2, s0, s1, s2. repeat split; reflexivity.
Qed.

(** ** The target mask of the decoder *)

(** The entry of the mask that the score at [(b, h, i, k)] meets, once
    [unsqueeze(1)] has given the mask its head axis. *)
Lemma unsqueezed_mask_entry (m : tensor bool) (b' q n b h i k : nat) :
  shape m = [b'; q; n] ->
  get (r_unsqueeze m 1) (bindex (shape (r_unsqueeze m 1)) [b; h; i; k])
  = get m (bindex (shape m) [b; i; k]).
Proof.
  intros Hm. unfold r_unsqueeze. cbn [shape get]. rewrite Hm. reflexivity.
Qed.

(** The logical AND of a padding mask [(B, 1, n)] and the causal mask
    [subsequent_mask(n)] broadcasts against the scores of a target of [n]
    positions and forbids every later position. *)
Lemma causal_and_padding_hides_later (n B : nat) (c pad : tensor bool) :
  subsequent_mask (Z.of_nat n) = Ok c -> shape pad = [B; 1; n] ->
  mask_fits B n n (Some (mask_and pad c)) /\ hides_later n (mask_and pad c).
Proof.
  intros Hc Hpad.
  rewrite subsequent_mask_ok in Hc by lia. injection Hc as <-.
  rewrite Nat2Z.id.
  assert (Hshape : shape (mask_and pad
                     (torch_eq0 (np_astype_uint8 (np_triu 1
                        (mkTensor [1; n; n] (fun _ => 1%Q))))))
                   = [B; n; n]).
  { unfold mask_and. cbn [shape torch_eq0 np_astype_uint8 np_triu].
    rewrite Hpad. rewrite bshape_same_length by reflexivity. simpl.
    destruct (B =? 1) eqn:EB; [apply Nat.eqb_eq in EB; subst B|];
      destruct (n =? 1); reflexivity. }
  split.
  - exists B, n. split; [exact Hshape|]. split; right; reflexivity.
  - intros b i j Hij Hj. unfold forbids. rewrite Hshape.
    unfold mask_and. cbn [get shape torch_eq0 np_astype_uint8 np_triu].
    rewrite Hpad.
    assert (Hn : (n =? 1) = false) by (apply Nat.eqb_neq; lia).
    unfold bindex. cbn [length Nat.sub skipn combine map]. rewrite !Hn.
    cbn [length Nat.sub skipn combine map]. rewrite ?Hn.
    unfold last2. cbn [length Nat.sub nth].
    destruct (Z.leb_spec 1 (Z.of_nat j - Z.of_nat i)) as [_|H]; [|lia].
    apply andb_false_r.
Qed.

(** The scores and weights of a position the mask forbids, in an
    attention module over well-shaped parameters, under a mask that
    broadcasts against the scores. *)
Lemma forbidden_position_weight (self : MultiHeadedAttention) (x : tensor R)
  (m : tensor bool) (w : world) (lq lk lv lo : Linear) (B T' hN dk : nat)
  (b h i j : nat) :
  MultiHeadedAttention_shaped (tensors w) hN dk self ->
  mha_linears self = [lq; lk; lv; lo] ->
  0 < B -> 0 < hN -> 0 < dk ->
  shape x = [B; T'; hN * dk] ->
  mask_fits B T' T' (Some m) ->
  j < T' -> forbids m [b; i; j] ->
  get (attention_filled_scores w self lq lk x x (Some m)) [b; h; i; j]
  = (- 1000000000)%R /\
  (forall k,
      k < T' -> ~ forbids m [b; i; k] ->
      (sentinel + ln 1000000
       < get (attention_filled_scores w self lq lk x x None) [b; h; i; k])%R ->
      (get (attention_weights w self lq lk x x (Some m)) [b; h; i; j]
       < / 1000000)%R) /\
  ((forall k, k < T' -> forbids m [b; i; k]) ->
   get (attention_weights w self lq lk x x (Some m)) [b; h; i; j]
   = (1 / INR T')%R).
Proof.
  intros Hshaped Hl HB HhN Hdk Hx (b' & q & Hm & _ & _) Hj Hforb.
  assert (HW : forall l, In l [lq; lk; lv; lo] ->
                 shape (tensors w (weight l)) = [hN * dk; hN * dk]).
  { destruct Hshaped as (_ & _ & _ & Hall). rewrite Hl in Hall.
    rewrite Forall_forall in Hall. intros l Hin. exact (proj1 (Hall l Hin)). }
  destruct Hshaped as (Hh & Hd & _).
  destruct (@MultiHeadedAttention_output_shape self x x x (Some m) w
              lq lk lv lo B T' T' hN dk Hh Hd HB HhN Hdk Hx Hx Hx HW)
    as [_ Hp].
  set (filled := attention_filled_scores w self lq lk x x (Some m)) in *.
  assert (Hshape : shape filled = [B; hN; T'; T']) by exact Hp.
  assert (Hentry : forall k,
            get filled [b; h; i; k]
            = if get m (bindex (shape m) [b; i; k])
              then get (attention_filled_scores w self lq lk x x None) [b; h; i; k]
              else sentinel).
  { intros k. unfold filled, attention_filled_scores, r_masked_fill, r_mask_eq0.
    cbn [get shape].
    rewrite (@unsqueezed_mask_entry m b' q T' b h i k Hm).
    destruct (get m (bindex (shape m) [b; i; k])); reflexivity. }
  assert (Efill : get filled [b; h; i; j] = sentinel).
  { rewrite Hentry. unfold forbids in Hforb. rewrite Hforb. reflexivity. }
  split; [|split].
  - rewrite Efill. unfold sentinel, Q2R. simpl. lra.
  - intros k Hk Hperm Hscore.
    unfold attention_weights. fold filled.
    eapply Rle_lt_trans.
    { apply (@r_softmax_le_ratio filled [b; h; i; j] k).
      rewrite Hshape. exact Hk. }
    rewrite Hshape. cbn [length Nat.sub set_nth].
    rewrite Efill, Hentry.
    unfold forbids in Hperm.
    destruct (get m (bindex (shape m) [b; i; k])); [|contradiction].
    replace (/ 1000000)%R with (exp (- ln 1000000))
      by (rewrite exp_Ropp, exp_ln by lra; reflexivity).
    apply exp_increasing. lra.
  - intros Hall. unfold attention_weights. fold filled.
    pose proof (@r_softmax_constant_row filled [b; h; i; j] sentinel) as H.
    cbv zeta in H. rewrite Hshape in H. cbn [length Nat.sub nth set_nth] in H.
    apply H; [lia | | exact Hj].
    intros k Hk. rewrite Hentry. specialize (Hall k Hk).
    unfold forbids in Hall. rewrite Hall. reflexivity.
Qed.

(** C6, as far as the code goes.  [DecoderLayer.__init__] makes exactly
    three sublayer connections; [forward] runs them in order: the first
    around the self-attention with query = key = value = the input and the
    target mask the caller passed, the second around the source attention
    with query = the running state, key = value = the memory and the source
    mask the caller passed, the third around the feed-forward network.
    Over the reals, in evaluation mode and on well-shaped inputs, the
    weights the self-attention leaves in [attn] are those of the input
    against itself under that target mask.  Under a target mask that
    forbids every later position, the score of every later position is
    overwritten by [-1e9] before the softmax; the weight a position gives
    to a later one is below 1e-6 as soon as the position has one permitted
    key whose score exceeds [-1e9 + ln(1e6)], and is [1 / n] when all its
    keys are forbidden.  The logical AND of a padding mask and the causal
    mask is such a target mask. *)
Theorem DecoderLayer_three_sublayers_with_caller_masks :
  (forall (T : Torch) (size : Z) (self_attn src_attn : MultiHeadedAttention)
          (feed_forward : PositionwiseFeedForward) (dropout : Q) (w : world),
      (0 <= size)%Z -> Qle_bool 0 dropout && Qle_bool dropout 1 = true ->
      exists layer w' s0 s1 s2,
        DecoderLayer_init size self_attn src_attn feed_forward dropout w
        = Ok (layer, w') /\
        dl_sublayer layer = [s0; s1; s2] /\
        dl_self_attn layer = self_attn /\
        dl_src_attn layer = src_attn /\
        dl_feed_forward layer = feed_forward) /\
  (forall (T : Torch) (self : DecoderLayer) (s0 s1 s2 : SublayerConnection)
          (x memory : Tensor) (src_mask tgt_mask : option MaskTensor) (w : world),
      dl_sublayer self = [s0; s1; s2] ->
      DecoderLayer_forward self x memory src_mask tgt_mask w
      = bind (SublayerConnection_forward s0 x
                (fun x => MultiHeadedAttention_forward (dl_self_attn self)
                            x x x tgt_mask))
          (fun x =>
             bind (SublayerConnection_forward s1 x
                     (fun x => MultiHeadedAttention_forward (dl_src_attn self)
                                 x memory memory src_mask))
               (fun x =>
                  SublayerConnection_forward s2 x
                    (PositionwiseFeedForward_forward (dl_feed_forward self))))
          w) /\
  (forall (self : DecoderLayer) (x memory : tensor R)
          (src_mask tgt_mask : option (tensor bool)) (w : world)
          (lq lk lv lo : Linear) (B S T' hN dk : nat),
      DecoderLayer_shaped (tensors w) hN dk self -> DecoderLayer_eval self ->
      mha_linears (dl_self_attn self) = [lq; lk; lv; lo] ->
      mha_attn (dl_self_attn self) <> mha_attn (dl_src_attn self) ->
      0 < B -> 0 < hN -> 0 < dk -> 0 < S -> 0 < T' ->
      shape x = [B; T'; hN * dk] -> shape memory = [B; S; hN * dk] ->
      mask_fits B T' T' tgt_mask -> mask_fits B T' S src_mask ->
      exists (out : tensor R) (w' : world),
        @DecoderLayer_forward RealTorch self x memory src_mask tgt_mask w
        = Ok (out, w') /\
        attrs w' (mha_attn (dl_self_attn self))
        = Some (attention_weights w (dl_self_attn self) lq lk x x tgt_mask)) /\
  (forall (self : MultiHeadedAttention) (x : tensor R) (m : tensor bool)
          (w : @world RealTorch) (lq lk lv lo : Linear) (B T' hN dk : nat)
          (b h i j : nat),
      MultiHeadedAttention_shaped (tensors w) hN dk self ->
      mha_linears self = [lq; lk; lv; lo] ->
      0 < B -> 0 < hN -> 0 < dk ->
      shape x = [B; T'; hN * dk] ->
      mask_fits B T' T' (Some m) -> hides_later T' m ->
      i < j -> j < T' ->
      get (attention_filled_scores w self lq lk x x (Some m)) [b; h; i; j]
      = (- 1000000000)%R /\
      (forall k,
          k < T' -> ~ forbids m [b; i; k] ->
          (sentinel + ln 1000000
           < get (attention_filled_scores w self lq lk x x None) [b; h; i; k])%R ->
          (get (attention_weights w self lq lk x x (Some m)) [b; h; i; j]
           < / 1000000)%R) /\
      ((forall k, k < T' -> forbids m [b; i; k]) ->
       get (attention_weights w self lq lk x x (Some m)) [b; h; i; j]
       = (1 / INR T')%R)) /\
  (forall (n B : nat) (c pad : tensor bool),
      subsequent_mask (Z.of_nat n) = Ok c -> shape pad = [B; 1; n] ->
      mask_fits B n n (Some (mask_and pad c)) /\
      hides_later n (mask_and pad c)).
Proof.
  split; [|split; [|split; [|split]]].
  - intros. now apply DecoderLayer_init_three.
  - intros T self s0 s1 s2 x memory src_mask tgt_mask w Hsub.
    unfold DecoderLayer_forward. rewrite Hsub. reflexivity.
  - intros self x memory src_mask tgt_mask w lq lk lv lo B S T' hN dk
           Hshaped Heval Hself Hne _ _ _ _ _ _ _ _ _.
    destruct Hshaped as (_ & Hsrc & _ & Hlen & _).
    destruct Heval as (T1 & T2 & T3 & Tsub).
    destruct (four_linears Hsrc) as (mq & mk & mv & mo & Hsrcl & _).
    destruct (dl_sublayer self) as [|s0 [|s1 [|s2 [|? ?]]]] eqn:Hsub;
      try discriminate.
    inversion Tsub as [|? ? T4 Tsub']; subst.
    inversion Tsub' as [|? ? T5 Tsub'']; subst.
    inversion Tsub'' as [|? ? T6 _]; subst.
    exact (@DecoderLayer_forward_eval self x memory src_mask tgt_mask w
             s0 s1 s2 lq lk lv lo mq mk mv mo
             Hsub Hself Hsrcl T1 T2 T3 T4 T5 T6 Hne).
  - intros self x m w lq lk lv lo B T' hN dk b h i j
           Hshaped Hl HB HhN Hdk Hx Hfits Hhides Hij Hj.
    exact (@forbidden_position_weight self x m w lq lk lv lo B T' hN dk
             b h i j Hshaped Hl HB HhN Hdk Hx Hfits Hj (Hhides b i j Hij Hj)).
  - intros n B c pad Hc Hpad.
    exact (@causal_and_padding_hides_later n B c pad Hc Hpad).
Qed.

Lemma example_self_attn_shaped :
  MultiHeadedAttention_shaped (tensors example_world) 1 2 example_self_attn.
Proof.
  split; [reflexivity|]. split; [reflexivity|]. split; [reflexivity|].
  repeat constructor; apply example_linear_shaped; lia.
Qed.

Lemma example_score_zero (k : nat) :
  get (attention_filled_scores example_world example_self_attn
         (example_linear 0) (example_linear 1)
         (zeros [1; 2; 2]) (zeros [1; 2; 2]) None) [0; 0; 0; k] = 0%R.
Proof.
  unfold attention_filled_scores, attention_scores, r_map, r_matmul.
  cbn [get]. unfold sum_n.
  match goal with |- context [sqrt ?t] => generalize (sqrt t) end.
  intros S. simpl. unfold sum_n. simpl. unfold Rdiv. ring.
Qed.

(** C6 as stated fails on a position all of whose keys are forbidden.  For
    a target of two positions whose first position is padding, the target
    mask is the AND of the padding mask and [subsequent_mask(2)]: it
    forbids every later position, and it leaves position 0 no key at all;
    position 0 then attends to the later position 1 with weight 1/2. *)
Lemma DecoderLayer_padded_position_attends_to_later_position :
  exists (c : tensor bool) (out : tensor R) (w' : world) (p_attn : tensor R),
    subsequent_mask 2 = Ok c /\
    mask_fits 1 2 2 (Some (mask_and example_padding_mask c)) /\
    hides_later 2 (mask_and example_padding_mask c) /\
    @DecoderLayer_forward RealTorch example_decoder_layer
      (zeros [1; 2; 2]) (zeros [1; 2; 2]) None
      (Some (mask_and example_padding_mask c)) example_world
    = Ok (out, w') /\
    attrs w' (mha_attn (dl_self_attn example_decoder_layer)) = Some p_attn /\
    get p_attn [0; 0; 0; 1] = (1 / 2)%R.
Proof.
  destruct (subsequent_mask 2) as [c|e] eqn:Hc; [|discriminate].
  exists c.
  destruct (@causal_and_padding_hides_later 2 1 c example_padding_mask Hc eq_refl)
    as [Hfits Hhides].
  destruct (@DecoderLayer_forward_eval example_decoder_layer
              (zeros [1; 2; 2]) (zeros [1; 2; 2]) None
              (Some (mask_and example_padding_mask c)) example_world
              (example_sublayer 0) (example_sublayer 1) (example_sublayer 2)
              (example_linear 0) (example_linear 1) (example_linear 2)
              (example_linear 3) (example_linear 4) (example_linear 5)
              (example_linear 6) (example_linear 7))
    as (out & w' & E & Hattn); try reflexivity.
  { simpl. discriminate. }
  exists out, w'. eexists.
  split; [reflexivity|]. split; [exact Hfits|]. split; [exact Hhides|].
  split; [exact E|]. split; [exact Hattn|].
  assert (Hrow : forall k, k < 2 ->
            forbids (mask_and example_padding_mask c) [0; 0; k]).
  { intros k Hk. destruct k as [|k].
    - injection Hc as <-. reflexivity.
    - apply Hhides; lia. }
  destruct (@forbidden_position_weight example_self_attn (zeros [1; 2; 2])
              (mask_and example_padding_mask c) example_world
              (example_linear 0) (example_linear 1) (example_linear 2)
              (example_linear 3) 1 2 1 2 0 0 0 1
              example_self_attn_shaped eq_refl
              ltac:(lia) ltac:(lia) ltac:(lia) eq_refl Hfits ltac:(lia)
              (Hrow 1 ltac:(lia)))
    as (_ & _ & Huniform).
  change (dl_self_attn example_decoder_layer) with example_self_attn.
  rewrite (Huniform Hrow). simpl. lra.
Qed.

Lemma DecoderLayer_three_sublayers_with_caller_masks_witness :
  exists c : tensor bool,
    subsequent_mask (Z.of_nat 2) = Ok c /\
    ((0 <= 2)%Z /\ Qle_bool 0 (1 # 10) && Qle_bool (1 # 10) 1 = true /\
     DecoderLayer_shaped (tensors example_world) 1 2 example_decoder_layer /\
     DecoderLayer_eval example_decoder_layer /\
     mha_attn (dl_self_attn example_decoder_layer)
     <> mha_attn (dl_src_attn example_decoder_layer) /\
     shape (zeros [1; 2; 2]) = [1; 2; 1 * 2] /\
     shape (mask_all_permitted [1; 1; 2]) = [1; 1; 2] /\
     mask_fits 1 2 2 (Some (mask_and (mask_all_permitted [1; 1; 2]) c)) /\
     hides_later 2 (mask_and (mask_all_permitted [1; 1; 2]) c) /\
     ~ forbids (mask_and (mask_all_permitted [1; 1; 2]) c) [0; 0; 0]) /\
    (exists layer w' s0 s1 s2,
        @DecoderLayer_init RealTorch 2 example_self_attn example_src_attn
          (dl_feed_forward example_decoder_layer) (1 # 10) example_world
        = Ok (layer, w') /\
        dl_sublayer layer = [s0; s1; s2]) /\
    (exists (out : tensor R) (w' : world),
        @DecoderLayer_forward RealTorch example_decoder_layer
          (zeros [1; 2; 2]) (zeros [1; 2; 2]) None
          (Some (mask_and (mask_all_permitted [1; 1; 2]) c)) example_world
        = Ok (out, w') /\
        attrs w' (mha_attn (dl_self_attn example_decoder_layer))
        = Some (attention_weights example_world
                  (dl_self_attn example_decoder_layer)
                  (example_linear 0) (example_linear 1)
                  (zeros [1; 2; 2]) (zeros [1; 2; 2])
                  (Some (mask_and (mask_all_permitted [1; 1; 2]) c)))) /\
    Rlt (get (attention_weights example_world
                (dl_self_attn example_decoder_layer)
                (example_linear 0) (example_linear 1)
                (zeros [1; 2; 2]) (zeros [1; 2; 2])
                (Some (mask_and (mask_all_permitted [1; 1; 2]) c)))
             [0; 0; 0; 1])
        (/ 1000000).
Proof.
  destruct (subsequent_mask (Z.of_nat 2)) as [c|e] eqn:Hc; [|discriminate].
  exists c. split; [reflexivity|].
  destruct DecoderLayer_three_sublayers_with_caller_masks
    as (HA & _ & HC & HD & HE).
  assert (H0 : (0 <= 2)%Z) by lia.
  assert (H1 : Qle_bool 0 (1 # 10) && Qle_bool (1 # 10) 1 = true) by reflexivity.
  assert (H2 : DecoderLayer_shaped (tensors example_world) 1 2
                 example_decoder_layer).
  { destruct example_model_shaped as (_ & _ & Hdec & _).
    exact (Forall_inv Hdec). }
  assert (H3 : DecoderLayer_eval example_decoder_layer).
  { split; [reflexivity|]. split; [reflexivity|]. split; [reflexivity|].
    repeat constructor. }
  assert (H4 : mha_attn (dl_self_attn example_decoder_layer)
               <> mha_attn (dl_src_attn example_decoder_layer))
    by (simpl; discriminate).
  assert (H5 : shape (zeros [1; 2; 2]) = [1; 2; 1 * 2]) by reflexivity.
  assert (H6 : shape (mask_all_permitted [1; 1; 2]) = [1; 1; 2]) by reflexivity.
  destruct (HE 2 1 c (mask_all_permitted [1; 1; 2]) Hc H6) as [H7 H8].
  assert (H9 : ~ forbids (mask_and (mask_all_permitted [1; 1; 2]) c) [0; 0; 0]).
  { injection Hc as <-. unfold forbids. simpl. discriminate. }
  split.
  { split; [exact H0|]. split; [exact H1|]. split; [exact H2|].
    split; [exact H3|]. split; [exact H4|]. split; [exact H5|].
    split; [exact H6|]. split; [exact H7|]. split; [exact H8 | exact H9]. }
  split; [|split].
  - destruct (HA RealTorch 2%Z example_self_attn example_src_attn
                (dl_feed_forward example_decoder_layer) (1 # 10)%Q example_world
                H0 H1) as (layer & w' & s0 & s1 & s2 & E & Hs & _).
    exists layer, w', s0, s1, s2. split; assumption.
  - apply (HC example_decoder_layer (zeros [1; 2; 2]) (zeros [1; 2; 2]) None
              (Some (mask_and (mask_all_permitted [1; 1; 2]) c)) example_world
              (example_linear 0) (example_linear 1) (example_linear 2)
              (example_linear 3) 1 2 2 1 2);
      try assumption; try reflexivity; try lia.
  - destruct (HD example_self_attn (zeros [1; 2; 2])
                (mask_and (mask_all_permitted [1; 1; 2]) c) example_world
                (example_linear 0) (example_linear 1) (example_linear 2)
                (example_linear 3) 1 2 1 2 0 0 0 1
                example_self_attn_shaped eq_refl
                ltac:(lia) ltac:(lia) ltac:(lia) H5 H7 H8 ltac:(lia) ltac:(lia))
      as (_ & Hsmall & _).
    apply (Hsmall 0); [lia | exact H9|].
    rewrite example_score_zero. pose proof ln_million_small. lra.
Defined.

(** ** A whole forward pass over the reals *)

Lemma Sequential_forward_eval (self : Sequential) (x : tensor Z) (w : world) :
  (0 <= emb_d_model (seq_0 self))%Z ->
  (forall idx, valid_index (shape x) idx ->
     (0 <= get x idx
      < Z.of_nat (nth 0%nat
                    (shape (tensors w (emb_weight (emb_lut (seq_0 self)))))
                    0%nat))%Z) ->
  training (pos_dropout (seq_1 self)) = false ->
  exists out : tensor R, @Sequential_forward RealTorch self x w = Ok (out, w).
Proof.
  intros Hd Hrange Htr. unfold Sequential_forward.
  rewrite (bind_Ok _ _ _ (@Embeddings_forward_eval (seq_0 self) x w Hd Hrange)).
  unfold PositionalEncoding_forward, read_tensor. unfold bind at 1.
  rewrite (Dropout_forward_eval _ _ _ Htr). eexists. reflexivity.
Qed.

Lemma EncoderLayer_forward_eval (self : EncoderLayer) (x : tensor R)
  (mask : option (tensor bool)) (w : world)
  (s0 s1 : SublayerConnection) (lq lk lv lo : Linear) :
  el_sublayer self = [s0; s1] ->
  mha_linears (el_self_attn self) = [lq; lk; lv; lo] ->
  training (mha_dropout (el_self_attn self)) = false ->
  training (ff_dropout (el_feed_forward self)) = false ->
  training (sc_dropout s0) = false ->
  training (sc_dropout s1) = false ->
  exists (out : tensor R) (w' : world),
    @EncoderLayer_forward RealTorch self x mask w = Ok (out, w').
Proof.
  intros Hsub Hself T1 T2 T3 T4.
  unfold EncoderLayer_forward. rewrite Hsub. unfold item at 1. simpl nth_error.
  unfold bind at 1. unfold ret at 1.
  erewrite bind_Ok;
    [|apply SublayerConnection_forward_eval; [exact T3|];
      apply (MultiHeadedAttention_forward_eval _ _ _ _ _ _ Hself T1)].
  unfold item at 1. simpl nth_error. unfold bind at 1. unfold ret at 1.
  erewrite bind_Ok;
    [|apply SublayerConnection_forward_eval;
      [exact T4 | apply PositionwiseFeedForward_forward_eval; exact T2]].
  eexists _, _. reflexivity.
Qed.

(** C9 as stated fails: the [attn] attribute of an attention module is
    [None] before a forward call and holds the attention weights after it,
    for [MultiHeadedAttention.forward] and for [EncoderDecoder.forward]. *)
Lemma forward_writes_attn :
  (exists (out : tensor R) (w' : world),
      @MultiHeadedAttention_forward RealTorch example_self_attn
        (zeros [1; 2; 2]) (zeros [1; 2; 2]) (zeros [1; 2; 2]) None example_world
      = Ok (out, w') /\
      attrs example_world (mha_attn example_self_attn) = None /\
      attrs w' (mha_attn example_self_attn) <> None) /\
  (exists (out : tensor R) (w' : world),
      @EncoderDecoder_forward RealTorch example_model example_ids example_ids
                              None None example_world
      = Ok (out, w') /\
      attrs example_world (mha_attn example_self_attn) = None /\
      attrs w' (mha_attn example_self_attn) <> None).
Proof.
  split.
  - eexists _, _. split.
    + apply (@MultiHeadedAttention_forward_eval example_self_attn
               (zeros [1; 2; 2]) (zeros [1; 2; 2]) (zeros [1; 2; 2]) None
               example_world (example_linear 0) (example_linear 1)
               (example_linear 2) (example_linear 3)); reflexivity.
    + split; [reflexivity|]. simpl. discriminate.
  - assert (Hids : forall (w : @world RealTorch) (l : loc),
              shape (tensors w l) = [3; 2] ->
              forall idx, valid_index (shape example_ids) idx ->
                (0 <= get example_ids idx
                 < Z.of_nat (nth 0%nat (shape (tensors w l)) 0%nat))%Z).
    { intros w l E idx H. rewrite E. simpl in *.
      inversion H as [|i s idx' shp Hi H']; subst.
      inversion H' as [|j s' idx'' shp' Hj H'']; subst.
      simpl. lia. }
    unfold EncoderDecoder_forward, EncoderDecoder_encode, EncoderDecoder_decode.
    destruct (@Sequential_forward_eval (ed_src_embed example_model) example_ids
                example_world) as (e & Ee);
      [simpl; lia | apply Hids; reflexivity | reflexivity |].
    unfold bind at 1. rewrite (bind_Ok _ _ _ Ee).
    destruct (@EncoderLayer_forward_eval example_encoder_layer e None
                example_world (example_sublayer 3) (example_sublayer 4)
                (example_linear 10) (example_linear 11) (example_linear 12)
                (example_linear 13)) as (m0 & w1 & Em); try reflexivity.
    assert (Eenc : @Encoder_forward RealTorch (ed_encoder example_model) e None
                     example_world
                   = Ok (LayerNorm_value w1 (example_norm 5) m0, w1)).
    { unfold Encoder_forward. simpl enc_layers. simpl foldM.
      unfold bind at 1. rewrite (bind_Ok _ _ _ Em). reflexivity. }
    rewrite Eenc.
    destruct (proj2 (@fl_Encoder_forward RealTorch (ed_encoder example_model)
                       e None) example_world _ w1 Eenc) as (_ & Ht & _).
    destruct (@Sequential_forward_eval (ed_tgt_embed example_model) example_ids
                w1) as (t & Et);
      [simpl; lia | apply Hids; rewrite Ht; reflexivity | reflexivity |].
    unfold bind at 1. rewrite (bind_Ok _ _ _ Et).
    destruct (@DecoderLayer_forward_eval example_decoder_layer t
                (LayerNorm_value w1 (example_norm 5) m0) None None w1
                (example_sublayer 0) (example_sublayer 1) (example_sublayer 2)
                (example_linear 0) (example_linear 1) (example_linear 2)
                (example_linear 3) (example_linear 4) (example_linear 5)
                (example_linear 6) (example_linear 7))
      as (d0 & w2 & Ed & Hattn); try reflexivity.
    { simpl. discriminate. }
    assert (Edec : @Decoder_forward RealTorch (ed_decoder example_model) t
                     (LayerNorm_value w1 (example_norm 5) m0) None None w1
                   = Ok (LayerNorm_value w2 (example_norm 6) d0, w2)).
    { unfold Decoder_forward. simpl dec_layers. simpl foldM.
      unfold bind at 1. rewrite (bind_Ok _ _ _ Ed). reflexivity. }
    exists (LayerNorm_value w2 (example_norm 6) d0), w2. split.
    + rewrite Edec. reflexivity.
    + split; [reflexivity|]. change (mha_attn example_self_attn)
        with (mha_attn (dl_self_attn example_decoder_layer)).
      rewrite Hattn. discriminate.
Qed.

(** ** Forward passes as functions of the parameters *)

(** C9, as far as the code goes, for every tensor library: the outcome of
    [EncoderDecoder.forward] (and of [MultiHeadedAttention.forward]) is
    determined by the tensors in the store, the inputs and the state of the
    random generator, whatever the attributes hold; the call allocates
    nothing and writes no parameter or buffer; the only attributes it
    writes are the [attn] attributes of the model's attention modules, and
    when it returns each of them holds a tensor.  A call of
    [MultiHeadedAttention.forward] that returns has stored in [attn] the
    weights that its call of [attention] on the three projections
    returned. *)
Theorem forward_deterministic_and_writes_only_attn {T : Torch}
  (model : EncoderDecoder) (src tgt : LongTensor)
  (src_mask tgt_mask : option MaskTensor)
  (self : MultiHeadedAttention) (query key value : Tensor)
  (mask : option MaskTensor) :
  (deterministic (EncoderDecoder_forward model src tgt src_mask tgt_mask) /\
   preserves (EncoderDecoder_attn_slots model)
             (EncoderDecoder_forward model src tgt src_mask tgt_mask) /\
   fills (EncoderDecoder_attn_slots model)
         (EncoderDecoder_forward model src tgt src_mask tgt_mask)) /\
  (deterministic (MultiHeadedAttention_forward self query key value mask) /\
   preserves [mha_attn self]
             (MultiHeadedAttention_forward self query key value mask) /\
   forall (w : world) (out : Tensor) (w' : world),
     MultiHeadedAttention_forward self query key value mask w = Ok (out, w') ->
     exists (q k v x p_attn : Tensor) (w1 w2 : world),
       mapM (fun '(l, x) =>
               y <- Linear_forward l x ;;
               ret (t_transpose
                      (t_view y [t_size query 0; -1; mha_h self; mha_d_k self]%Z)
                      1 2))
            (combine (mha_linears self) [query; key; value]) w
       = Ok ([q; k; v], w1) /\
       attention q k v (option_map (fun mask => t_mask_unsqueeze mask 1) mask)
                 (Some (Dropout_forward (mha_dropout self))) w1
       = Ok ((x, p_attn), w2) /\
       attrs w' (mha_attn self) = Some p_attn).
Proof.
  split.
  - destruct (fl_EncoderDecoder_forward model src tgt src_mask tgt_mask)
      as [Hd Hp].
    split; [exact Hd|]. split; [exact Hp|].
    apply fills_EncoderDecoder_forward.
  - destruct (@fl_MultiHeadedAttention_forward T [mha_attn self] self
                query key value mask (or_introl eq_refl)) as [Hd Hp].
    split; [exact Hd|]. split; [exact Hp|].
    intros w out w' E.
    exact (MultiHeadedAttention_forward_stores_weights _ _ _ _ _ _ E).
Qed.

Lemma forward_deterministic_and_writes_only_attn_witness :
  agree example_world
        (mkWorld 55 (tensors example_world) (fun _ => Some (zeros [1]))
                 (rng example_world)) /\
  same_outcome
    (@EncoderDecoder_forward RealTorch example_model example_ids example_ids
                             None None example_world)
    (@EncoderDecoder_forward RealTorch example_model example_ids example_ids
                             None None
       (mkWorld 55 (tensors example_world) (fun _ => Some (zeros [1]))
                (rng example_world))) /\
  exists (out p_attn : tensor R) (w' : world),
    @MultiHeadedAttention_forward RealTorch example_self_attn
      (zeros [1; 2; 2]) (zeros [1; 2; 2]) (zeros [1; 2; 2]) None example_world
    = Ok (out, w') /\
    attrs w' (mha_attn example_self_attn) = Some p_attn.
Proof.
  assert (Hagree : agree example_world
            (mkWorld 55 (tensors example_world) (fun _ => Some (zeros [1]))
                     (rng example_world)))
    by (split; reflexivity).
  destruct (@forward_deterministic_and_writes_only_attn RealTorch
              example_model example_ids example_ids None None
              example_self_attn (zeros [1; 2; 2]) (zeros [1; 2; 2])
              (zeros [1; 2; 2]) None)
    as [(Hdet & _ & _) (_ & _ & Hattn)].
  split; [exact Hagree|]. split; [exact (Hdet _ _ Hagree)|].
  pose proof (@MultiHeadedAttention_forward_eval example_self_attn
                (zeros [1; 2; 2]) (zeros [1; 2; 2]) (zeros [1; 2; 2]) None
                example_world (example_linear 0) (example_linear 1)
                (example_linear 2) (example_linear 3) eq_refl eq_refl) as E.
  cbv zeta in E.
  destruct (Hattn _ _ _ E) as (q & k & v & x & p_attn & w1 & w2 & _ & _ & Ha).
  eexists _, p_attn, _. split; [exact E | exact Ha].
Defined.

(** ** Construction and the divisibility guard *)

Section Construction.

Context {T : Torch}.

Lemma deepcopy_total {M} `{NNModule M} (m : M) :
  forall w, exists m' w', deepcopy m w = Ok (m', w').
Proof. intros w. eexists _, _. reflexivity. Qed.

Lemma PositionalEncoding_init_even (d_model : Z) (dropout : Q) (max_len : Z) :
  (0 < d_model)%Z -> Z.even d_model = true -> (0 <= max_len)%Z ->
  valid_rate dropout ->
  forall w, exists m w', PositionalEncoding_init d_model dropout max_len w = Ok (m, w').
Proof.
  intros Hd Heven Hl Hp w. unfold PositionalEncoding_init.
  rewrite (bind_Ok _ _ _ (nn_Dropout_Ok _ w Hp)).
  destruct (Z.ltb_spec max_len 0); [lia|].
  destruct (Z.ltb_spec d_model 0); [lia|]. simpl orb. cbv iota.
  destruct (Z.eqb_spec d_model 0); [lia|].
  apply Z.even_spec in Heven. destruct Heven as (k & ->).
  replace ((2 * k + 1) / 2)%Z with k
    by (apply Z.div_unique with (r := 1%Z); lia).
  replace (2 * k / 2)%Z with k
    by (apply Z.div_unique with (r := 0%Z); lia).
  unfold expandable. rewrite Z.eqb_refl. simpl.
  eexists _, _. reflexivity.
Qed.

Lemma EncoderLayer_init_total (size : Z) (self_attn : MultiHeadedAttention)
  (feed_forward : PositionwiseFeedForward) (dropout : Q) :
  (0 <= size)%Z -> valid_rate dropout ->
  forall w, exists layer w',
    EncoderLayer_init size self_attn feed_forward dropout w = Ok (layer, w') /\
    el_size layer = size.
Proof.
  intros Hs Hp w. unfold EncoderLayer_init.
  destruct (@SublayerConnection_init_total T size dropout w Hs Hp) as (t & w1 & Et).
  rewrite (bind_Ok _ _ _ Et).
  destruct (clones_total t 2 w1) as (ms & w2 & Ec).
  rewrite (bind_Ok _ _ _ Ec).
  eexists _, _. split; reflexivity.
Qed.

Lemma DecoderLayer_init_total (size : Z)
  (self_attn src_attn : MultiHeadedAttention)
  (feed_forward : PositionwiseFeedForward) (dropout : Q) :
  (0 <= size)%Z -> valid_rate dropout ->
  forall w, exists layer w',
    DecoderLayer_init size self_attn src_attn feed_forward dropout w
    = Ok (layer, w') /\
    dl_size layer = size.
Proof.
  intros Hs Hp w. unfold DecoderLayer_init.
  destruct (@SublayerConnection_init_total T size dropout w Hs Hp) as (t & w1 & Et).
  rewrite (bind_Ok _ _ _ Et).
  destruct (clones_total t 3 w1) as (ms & w2 & Ec).
  rewrite (bind_Ok _ _ _ Ec).
  eexists _, _. split; reflexivity.
Qed.

Lemma Encoder_init_total (layer : EncoderLayer) (N : Z) :
  (0 <= el_size layer)%Z ->
  forall w, exists enc w', Encoder_init layer N w = Ok (enc, w').
Proof.
  intros Hs w. unfold Encoder_init.
  destruct (clones_total layer N w) as (ms & w1 & Ec).
  rewrite (bind_Ok _ _ _ Ec).
  destruct (@LayerNorm_init_total T (el_size layer) (1 # 1000000) w1 Hs)
    as (n & w2 & En).
  rewrite (bind_Ok _ _ _ En). eexists _, _. reflexivity.
Qed.

Lemma Decoder_init_total (layer : DecoderLayer) (N : Z) :
  (0 <= dl_size layer)%Z ->
  forall w, exists dec w', Decoder_init layer N w = Ok (dec, w').
Proof.
  intros Hs w. unfold Decoder_init.
  destruct (clones_total layer N w) as (ms & w1 & Ec).
  rewrite (bind_Ok _ _ _ Ec).
  destruct (@LayerNorm_init_total T (dl_size layer) (1 # 1000000) w1 Hs)
    as (n & w2 & En).
  rewrite (bind_Ok _ _ _ En). eexists _, _. reflexivity.
Qed.

Lemma Embeddings_init_total (d_model vocab : Z) :
  (0 <= d_model)%Z -> (0 <= vocab)%Z ->
  forall w, exists m w', Embeddings_init d_model vocab w = Ok (m, w').
Proof.
  intros Hd Hv w. unfold Embeddings_init, nn_Embedding.
  destruct (Z.ltb_spec vocab 0); [lia|].
  destruct (Z.ltb_spec d_model 0); [lia|]. simpl orb. cbv iota.
  unfold bind. rewrite with_rng_Ok. eexists _, _. reflexivity.
Qed.

Lemma Generator_init_total (d_model vocab : Z) :
  (0 <= d_model)%Z -> (0 <= vocab)%Z ->
  forall w, exists m w', Generator_init d_model vocab w = Ok (m, w').
Proof.
  intros Hd Hv w. unfold Generator_init.
  destruct (nn_Linear_total w Hd Hv) as (l & w1 & E).
  rewrite (bind_Ok _ _ _ E). eexists _, _. reflexivity.
Qed.

(** The Glorot loop at the end of [make_model] never raises. *)
Lemma xavier_loop_total (ls : list loc) :
  forall (u : unit) w, exists u' w',
    foldM (fun l (_ : unit) =>
             p <- read_tensor l ;;
             if (1 <? Z.of_nat (length (t_shape p)))%Z
             then t <- with_rng (t_init XavierUniform (t_shape p)) ;;
                  write_tensor l t
             else ret tt)
          ls u w = Ok (u', w').
Proof.
  induction ls as [|l ls IH]; intros u w; simpl.
  - eexists _, _. reflexivity.
  - unfold bind at 1. unfold bind at 1. unfold read_tensor.
    destruct (1 <? Z.of_nat (length (t_shape (tensors w l))))%Z.
    + unfold bind at 1. rewrite with_rng_Ok. unfold write_tensor. apply IH.
    + unfold ret at 1. apply IH.
Qed.

Ltac run L :=
  match goal with
  | |- exists _ _, bind _ _ ?w = _ =>
      let E := fresh "E" in
      destruct (L w) as (? & ? & E); rewrite (bind_Ok _ _ _ E); clear E
  end.

(** With a positive even [d_model] and otherwise valid arguments, nothing
    but the divisibility guard can stop [make_model]. *)
Lemma make_model_total (src_vocab tgt_vocab N d_model d_ff h : Z) (dropout : Q) :
  (0 < d_model)%Z -> Z.even d_model = true ->
  (0 <= src_vocab)%Z -> (0 <= tgt_vocab)%Z -> (0 <= d_ff)%Z ->
  valid_rate dropout ->
  py_mod d_model h = Ok 0%Z ->
  forall w, exists model w',
    make_model src_vocab tgt_vocab N d_model d_ff h dropout w = Ok (model, w').
Proof.
  intros Hd Heven Hsv Htv Hff Hp Hmod w.
  assert (Hd0 : (0 <= d_model)%Z) by lia.
  unfold make_model.
  run (fun w => @MultiHeadedAttention_init_succeeds T h d_model w Hd0 Hmod).
  run (fun w => @PositionwiseFeedForward_init_total T d_model d_ff dropout w
                  Hd0 Hff Hp).
  run (@PositionalEncoding_init_even d_model dropout 5000 Hd Heven
         ltac:(lia) Hp).
  run (deepcopy_total x). run (deepcopy_total x1).
  match goal with
  | |- exists _ _, bind (EncoderLayer_init _ ?a ?f _) _ ?w = _ =>
      destruct (@EncoderLayer_init_total d_model a f dropout Hd0 Hp w)
        as (el & ? & E & Hel); rewrite (bind_Ok _ _ _ E); clear E
  end.
  run (@Encoder_init_total el N ltac:(rewrite Hel; exact Hd0)).
  run (deepcopy_total x). run (deepcopy_total x). run (deepcopy_total x1).
  match goal with
  | |- exists _ _, bind (DecoderLayer_init _ ?a ?b ?f _) _ ?w = _ =>
      destruct (@DecoderLayer_init_total d_model a b f dropout Hd0 Hp w)
        as (dl & ? & E & Hdl); rewrite (bind_Ok _ _ _ E); clear E
  end.
  run (@Decoder_init_total dl N ltac:(rewrite Hdl; exact Hd0)).
  run (@Embeddings_init_total d_model src_vocab Hd0 Hsv).
  run (deepcopy_total x3).
  run (@Embeddings_init_total d_model tgt_vocab Hd0 Htv).
  run (deepcopy_total x3).
  run (@Generator_init_total d_model tgt_vocab Hd0 Htv).
  cbv zeta.
  match goal with
  | |- exists _ _, bind (foldM _ ?ls ?u) _ ?w = _ =>
      destruct (xavier_loop_total ls u w) as (? & ? & E);
      rewrite (bind_Ok _ _ _ E); clear E
  end.
  eexists _, _. reflexivity.
Qed.

End Construction.

(** The guard of [MultiHeadedAttention.__init__].  For a model dimension
    [d_model >= 0], [MultiHeadedAttention(h, d_model)] is constructed
    exactly when [d_model % h == 0] evaluates to true.  Whenever that test
    does not pass, the constructor raises, and so does [make_model], with
    the same exception, whatever its other arguments: no module exists on
    which [forward] could be called. *)
Lemma MultiHeadedAttention_init_iff_divisible {T : Torch}
  (h d_model : Z) (w : world) :
  ((0 <= d_model)%Z ->
   ((exists m w', MultiHeadedAttention_init h d_model (1 # 10) w = Ok (m, w'))
    <-> py_mod d_model h = Ok 0%Z)) /\
  (py_mod d_model h <> Ok 0%Z ->
   exists e,
     MultiHeadedAttention_init h d_model (1 # 10) w = Raise e /\
     forall (src_vocab tgt_vocab N d_ff : Z) (dropout : Q),
       make_model src_vocab tgt_vocab N d_model d_ff h dropout w = Raise e).
Proof.
  assert (Hfail : py_mod d_model h <> Ok 0%Z ->
            exists e,
              MultiHeadedAttention_init h d_model (1 # 10) w = Raise e /\
              forall (src_vocab tgt_vocab N d_ff : Z) (dropout : Q),
                make_model src_vocab tgt_vocab N d_model d_ff h dropout w
                = Raise e).
  { intros Hmod.
    destruct (MultiHeadedAttention_init_guard h d_model (1 # 10) w Hmod)
      as (e & E & _).
    exists e. split; [exact E|].
    intros. unfold make_model. now apply bind_Raise. }
  split.
  - intros Hd. split.
    + intros (m & w' & E).
      destruct (result_eq_dec_Z (py_mod d_model h) (Ok 0%Z)) as [Y|N]; [exact Y|].
      destruct (Hfail N) as (e & E' & _). congruence.
    + intros Hmod. now apply MultiHeadedAttention_init_succeeds.
  - exact Hfail.
Qed.

(** C1 fails for the factory on an odd model dimension: 1 divides 3 and
    [MultiHeadedAttention(1, 3)] is built, yet
    [make_model(10, 10, 2, d_model=3, d_ff=2048, h=1)] raises
    [RuntimeError] in [PositionalEncoding.__init__], whose second slice
    assignment (line 75) writes the two columns of
    [cos(position * div_term)] into the single odd column of [pe]. *)
Theorem make_model_odd_d_model_raises :
  py_mod 3 1 = Ok 0%Z /\
  (exists m w', MultiHeadedAttention_init 1 3 (1 # 10) empty_world = Ok (m, w')) /\
  make_model 10 10 2 3 2048 1 (1 # 10) empty_world = Raise RuntimeError.
Proof.
  assert (Hmod : py_mod 3 1 = Ok 0%Z) by reflexivity.
  assert (H3 : (0 <= 3)%Z) by lia.
  destruct (MultiHeadedAttention_init_succeeds 1 empty_world H3 Hmod)
    as (attn & w1 & Eattn).
  split; [exact Hmod|]. split; [exists attn, w1; exact Eattn|].
  unfold make_model. rewrite (bind_Ok _ _ _ Eattn).
  destruct (@PositionwiseFeedForward_init_total _ 3 2048 (1 # 10) w1)
    as (ff & w2 & Eff); [lia | lia | reflexivity |].
  rewrite (bind_Ok _ _ _ Eff).
  apply bind_Raise.
  apply (@PositionalEncoding_init_odd _ 1 (1 # 10) 5000 w2); [lia | lia | reflexivity].
Qed.


(** * Further properties of the code *)

(** ** The generator *)

Lemma Generator_forward_eval (self : Generator) (x : tensor R) (w : world) :
  @Generator_forward RealTorch self x w
  = Ok (r_log_softmax
          (r_linear x (tensors w (weight (gen_proj self)))
                    (tensors w (bias (gen_proj self)))) (-1), w).
Proof. reflexivity. Qed.

Lemma r_log_softmax_get (x : tensor R) (idx : list nat) (j : nat) :
  let last := length (shape x) - 1 in
  let keys := nth last (shape x) 0 in
  get (r_log_softmax x (-1)) (set_nth last j idx)
  = (get x (set_nth last j idx)
     - ln (sum_n keys (fun k => exp (get x (set_nth last k idx)))))%R.
Proof.
  intros last keys. unfold r_log_softmax. rewrite norm_dim_last.
  fold last. fold keys. simpl get. f_equal. f_equal.
  apply sum_n_ext. intros k _. now rewrite set_nth_set_nth.
Qed.

Lemma r_linear_shape_last (x W b : tensor R) :
  shape x <> [] ->
  nth (length (shape (r_linear x W b)) - 1) (shape (r_linear x W b)) 0
  = nth 0 (shape W) 0.
Proof.
  intros Hne. unfold r_linear. simpl shape. rewrite length_set_nth.
  apply nth_set_nth_same. destruct (shape x); [contradiction | simpl; lia].
Qed.

(** X1: over the reals, for an input of rank at least 1 and a projection
    onto a non-empty vocabulary, [Generator.forward] returns log
    probabilities: along the vocabulary axis their exponentials sum to 1,
    and each of them is at most 0. *)
Theorem Generator_forward_log_probabilities
  (self : Generator) (x : tensor R) (w : world) (idx : list nat) :
  let W := tensors w (weight (gen_proj self)) in
  let vocab := nth 0 (shape W) 0 in
  let last := length (shape x) - 1 in
  shape x <> [] -> 1 <= vocab ->
  exists out : tensor R,
    @Generator_forward RealTorch self x w = Ok (out, w) /\
    sum_n vocab (fun j => exp (get out (set_nth last j idx))) = 1%R /\
    (forall j, j < vocab -> Rle (get out (set_nth last j idx)) 0).
Proof.
  intros W vocab last Hne Hv.
  set (y := r_linear x W (tensors w (bias (gen_proj self)))).
  assert (Hlast : length (shape y) - 1 = last)
    by (unfold y, r_linear; simpl shape; now rewrite length_set_nth).
  assert (Hvocab : nth (length (shape y) - 1) (shape y) 0 = vocab)
    by (apply r_linear_shape_last; exact Hne).
  exists (r_log_softmax y (-1)). split; [apply Generator_forward_eval|].
  set (S := sum_n vocab (fun k => exp (get y (set_nth last k idx)))).
  assert (HS : Rlt 0 S)
    by (apply (@sum_n_exp_pos vocab (fun k => get y (set_nth last k idx))); exact Hv).
  assert (Hget : forall j, get (r_log_softmax y (-1)) (set_nth last j idx)
                           = (get y (set_nth last j idx) - ln S)%R).
  { intros j. pose proof (r_log_softmax_get y idx j) as E. cbv zeta in E.
    rewrite Hvocab in E. rewrite Hlast in E. exact E. }
  split.
  - rewrite (@sum_n_ext vocab _
      (fun j => exp (get y (set_nth last j idx)) * / S)%R).
    2:{ intros j _. rewrite Hget. unfold Rminus.
        rewrite exp_plus, exp_Ropp, exp_ln by exact HS. reflexivity. }
    rewrite sum_n_scale. fold S. apply Rinv_r. lra.
  - intros j Hj. rewrite Hget.
    assert (Hle : Rle (exp (get y (set_nth last j idx))) S).
    { apply (@sum_n_ge_term vocab (fun k => exp (get y (set_nth last k idx))) j);
        [intros k; left; apply exp_pos | exact Hj]. }
    assert (Hln : Rle (get y (set_nth last j idx)) (ln S)).
    { rewrite <- (ln_exp (get y (set_nth last j idx))).
      destruct Hle as [Hlt|Heq].
      - left. apply ln_increasing; [apply exp_pos | exact Hlt].
      - right. now rewrite Heq. }
    lra.
Qed.

Lemma Generator_forward_log_probabilities_witness :
  (shape (zeros [1; 2; 2]) <> [] /\
   1 <= nth 0 (shape (tensors example_world
                        (weight (gen_proj (ed_generator example_model))))) 0) /\
  exists out : tensor R,
    @Generator_forward RealTorch (ed_generator example_model) (zeros [1; 2; 2])
                       example_world
    = Ok (out, example_world) /\
    sum_n 3 (fun j => exp (get out [0; 1; j])) = 1%R.
Proof.
  assert (H1 : shape (zeros [1; 2; 2]) <> []) by discriminate.
  assert (H2 : 1 <= nth 0 (shape (tensors example_world
                        (weight (gen_proj (ed_generator example_model))))) 0)
    by (simpl; lia).
  split; [split; assumption|].
  destruct (@Generator_forward_log_probabilities
              (ed_generator example_model) (zeros [1; 2; 2]) example_world
              [0; 1; 0] H1 H2) as (out & E & Hsum & _).
  exists out. split; [exact E | exact Hsum].
Defined.

(** ** Attention weights *)

(** X2: over the reals, without dropout, on inputs within the contract of
    [attention] (matching shapes, [d_k >= 1], a mask that broadcasts to the
    scores), every attention weight over a non-empty key axis lies between
    0 and 1, masked or not.  And in a row all of whose key positions the
    mask forbids, nothing is divided by zero: the weights are uniform,
    [1 / keys] each. *)
Theorem attention_weights_bounded_and_uniform_when_fully_masked
  (query key value : tensor R) (mask : option (tensor bool)) (w : world) :
  let scores := attention_scores query key in
  let last := length (shape scores) - 1 in
  let keys := nth last (shape scores) 0 in
  attention_fits query key value mask ->
  exists out p_attn : tensor R,
    @attention RealTorch query key value mask None w = Ok ((out, p_attn), w) /\
    (forall idx, nth last idx 0 < keys ->
                 Rle 0 (get p_attn idx) /\ Rle (get p_attn idx) 1) /\
    (forall m idx,
        mask = Some m -> 1 <= keys ->
        (forall k, k < keys -> forbids m (set_nth last k idx)) ->
        forall j, j < keys ->
          get p_attn (set_nth last j idx) = (1 / INR keys)%R).
Proof.
  intros scores last keys _.
  eexists _, _. split; [apply attention_eval; now left|].
  set (filled := match mask with
                 | Some m => r_masked_fill (attention_scores query key)
                                           (r_mask_eq0 m) sentinel
                 | None => attention_scores query key
                 end).
  assert (Hshape : shape filled = shape scores)
    by (unfold filled; destruct mask; reflexivity).
  split.
  - intros idx Hj.
    destruct (@r_softmax_bounds filled idx) as [Hlo Hhi];
      [rewrite Hshape; exact Hj|].
    split; [left; exact Hlo | exact Hhi].
  - intros m idx Hm Hk Hall j Hj.
    pose proof (@r_softmax_constant_row filled idx sentinel) as H.
    cbv zeta in H. rewrite Hshape in H. apply H; [exact Hk | | exact Hj].
    intros k Hk'. unfold filled. rewrite Hm.
    unfold r_masked_fill, r_mask_eq0. cbn [get shape].
    specialize (Hall k Hk'). unfold forbids, last in Hall.
    rewrite Hall. reflexivity.
Qed.

Lemma attention_weights_bounded_and_uniform_when_fully_masked_witness :
  attention_fits (zeros [1; 1]) (zeros [1; 1]) (zeros [1; 1])
                 (Some mask_all_forbidden) /\
  exists out p_attn : tensor R,
    @attention RealTorch (zeros [1; 1]) (zeros [1; 1]) (zeros [1; 1])
               (Some mask_all_forbidden) None empty_world
    = Ok ((out, p_attn), empty_world) /\
    get p_attn [0; 0] = (1 / INR 1)%R.
Proof.
  assert (H : attention_fits (zeros [1; 1]) (zeros [1; 1]) (zeros [1; 1])
                             (Some mask_all_forbidden))
    by (apply example_attention_fits; reflexivity).
  split; [exact H|].
  destruct (@attention_weights_bounded_and_uniform_when_fully_masked
              (zeros [1; 1]) (zeros [1; 1]) (zeros [1; 1])
              (Some mask_all_forbidden) empty_world H)
    as (out & p_attn & E & _ & Huniform).
  exists out, p_attn. split; [exact E|].
  apply (Huniform mask_all_forbidden [0; 0] eq_refl); simpl; try lia.
  intros k _. reflexivity.
Defined.

(** ** Layer normalisation at and around a constant *)

Lemma r_mean_shift (x : tensor R) (c : R) (idx : list nat) :
  let last := length (shape x) - 1 in
  1 <= nth last (shape x) 0 ->
  get (r_mean (r_map (fun v => v + c)%R x) (-1)) (set_nth last 0 idx)
  = (get (r_mean x (-1)) (set_nth last 0%nat idx) + c)%R.
Proof.
  intros last Hn.
  pose proof (r_mean_get (r_map (fun v => v + c)%R x) idx 0) as E1.
  pose proof (r_mean_get x idx 0) as E2. cbv zeta in E1, E2.
  change (shape (r_map (fun v => (v + c)%R) x)) with (shape x) in E1.
  fold last in E1, E2. rewrite E1, E2.
  set (n := nth last (shape x) 0) in *.
  change (fun j => get (r_map (fun v => (v + c)%R) x) (set_nth last j idx))
    with (fun j => (get x (set_nth last j idx) + c)%R).
  rewrite sum_n_plus, sum_n_const.
  assert (Hpos : Rlt 0 (INR n)) by (apply lt_0_INR; lia).
  field. lra.
Qed.

Lemma r_std_shift (x : tensor R) (c : R) (idx : list nat) :
  let last := length (shape x) - 1 in
  1 <= nth last (shape x) 0 ->
  get (r_std (r_map (fun v => v + c)%R x) (-1)) (set_nth last 0 idx)
  = get (r_std x (-1)) (set_nth last 0 idx).
Proof.
  intros last Hn.
  pose proof (r_std_get (r_map (fun v => v + c)%R x) idx 0) as E1.
  pose proof (r_std_get x idx 0) as E2. cbv zeta in E1, E2.
  change (shape (r_map (fun v => (v + c)%R) x)) with (shape x) in E1.
  fold last in E1, E2. rewrite E1, E2.
  set (n := nth last (shape x) 0) in *.
  change (fun j => get (r_map (fun v => (v + c)%R) x) (set_nth last j idx))
    with (fun j => (get x (set_nth last j idx) + c)%R).
  assert (Hpos : Rlt 0 (INR n)) by (apply lt_0_INR; lia).
  f_equal. f_equal. apply sum_n_ext. intros j _.
  rewrite sum_n_plus, sum_n_const.
  change (get (r_map (fun v => (v + c)%R) x) (set_nth last j idx))
    with (get x (set_nth last j idx) + c)%R.
  field. lra.
Qed.

Lemma layer_norm_normalized_shift (x : tensor R) (eps : Q) (c : R)
  (idx : list nat) :
  valid_index (shape x) idx ->
  1 <= nth (length (shape x) - 1) (shape x) 0 ->
  get (layer_norm_normalized (r_map (fun v => v + c)%R x) eps) idx
  = get (layer_norm_normalized x eps) idx.
Proof.
  intros Hidx Hn.
  rewrite (@layer_norm_normalized_get (r_map (fun v => v + c)%R x) eps idx Hidx).
  rewrite (@layer_norm_normalized_get x eps idx Hidx). cbv zeta.
  change (shape (r_map (fun v => (v + c)%R) x)) with (shape x).
  rewrite (r_mean_shift x c idx Hn), (r_std_shift x c idx Hn).
  change (get (r_map (fun v => (v + c)%R) x) idx) with (get x idx + c)%R.
  f_equal. ring.
Qed.

Lemma layer_norm_normalized_constant_row (x : tensor R) (eps : Q)
  (idx : list nat) :
  let last := length (shape x) - 1 in
  let n := nth last (shape x) 0 in
  valid_index (shape x) idx -> 1 <= n ->
  (forall j, j < n -> get x (set_nth last j idx) = get x idx) ->
  get (layer_norm_normalized x eps) idx = 0%R.
Proof.
  intros last n Hidx Hn Hrow.
  rewrite (@layer_norm_normalized_get x eps idx Hidx). cbv zeta. fold last.
  pose proof (r_mean_get x idx 0) as E. cbv zeta in E. fold last in E.
  fold n in E. rewrite E.
  rewrite (@sum_n_ext n _ (fun _ => get x idx) Hrow), sum_n_const.
  assert (Hpos : Rlt 0 (INR n)) by (apply lt_0_INR; lia).
  replace (get x idx - INR n * get x idx / INR n)%R with 0%R by (field; lra).
  unfold Rdiv. ring.
Qed.

(** X3: over the reals, on an input whose last axis has length [n >= 2]
    and with scale and shift of shape [(n,)]: [LayerNorm.forward] returns
    the same entry for [x] and for [x + c], whatever the constant [c]; and
    where a row of the input is constant, the output entry is the shift
    parameter, whatever the scale (with [eps > 0] nothing is divided by
    zero). *)
Theorem LayerNorm_forward_shift_invariant_and_constant_row
  (self : LayerNorm) (x : tensor R) (w : world) (idx : list nat) :
  let last := length (shape x) - 1 in
  let n := nth last (shape x) 0 in
  valid_index (shape x) idx -> 2 <= n ->
  shape (tensors w (ln_a_2 self)) = [n] ->
  shape (tensors w (ln_b_2 self)) = [n] ->
  exists out : tensor R,
    @LayerNorm_forward RealTorch self x w = Ok (out, w) /\
    (forall c : R, exists out' : tensor R,
        @LayerNorm_forward RealTorch self (r_map (fun v => v + c)%R x) w
        = Ok (out', w) /\
        get out' idx = get out idx) /\
    (Rlt 0 (Q2R (ln_eps self)) ->
     (forall j, j < n -> get x (set_nth last j idx) = get x idx) ->
     get out idx = get (tensors w (ln_b_2 self)) [nth last idx 0]).
Proof.
  intros last n Hidx Hn Ha Hb.
  eexists. split; [apply LayerNorm_forward_eval|].
  rewrite (@LayerNorm_forward_get self x w idx Hidx Hn Ha Hb).
  split.
  - intros c. eexists. split; [apply LayerNorm_forward_eval|].
    rewrite (@LayerNorm_forward_get self (r_map (fun v => v + c)%R x) w idx
               Hidx Hn Ha Hb).
    change (shape (r_map (fun v => (v + c)%R) x)) with (shape x).
    rewrite (@layer_norm_normalized_shift x (ln_eps self) c idx Hidx);
      [reflexivity | fold last; fold n; lia].
  - intros _ Hrow.
    rewrite (@layer_norm_normalized_constant_row x (ln_eps self) idx Hidx);
      [fold last; ring | fold last; fold n; lia | exact Hrow].
Qed.

Lemma LayerNorm_forward_shift_invariant_and_constant_row_witness :
  (valid_index (shape (zeros [2])) [1] /\
   2 <= nth (length (shape (zeros [2])) - 1) (shape (zeros [2])) 0 /\
   shape (tensors example_world (ln_a_2 (example_norm 0))) = [2] /\
   shape (tensors example_world (ln_b_2 (example_norm 0))) = [2]) /\
  exists out out' : tensor R,
    @LayerNorm_forward RealTorch (example_norm 0) (zeros [2]) example_world
    = Ok (out, example_world) /\
    @LayerNorm_forward RealTorch (example_norm 0)
       (r_map (fun v => v + 5)%R (zeros [2])) example_world
    = Ok (out', example_world) /\
    get out' [1] = get out [1] /\
    get out [1] = 0%R.
Proof.
  assert (H1 : valid_index (shape (zeros [2])) [1]) by (repeat constructor).
  assert (H2 : 2 <= nth (length (shape (zeros [2])) - 1) (shape (zeros [2])) 0)
    by (simpl; lia).
  assert (H3 : shape (tensors example_world (ln_a_2 (example_norm 0))) = [2])
    by reflexivity.
  assert (H4 : shape (tensors example_world (ln_b_2 (example_norm 0))) = [2])
    by reflexivity.
  split; [repeat split; assumption|].
  destruct (@LayerNorm_forward_shift_invariant_and_constant_row
              (example_norm 0) (zeros [2]) example_world [1] H1 H2 H3 H4)
    as (out & E & Hshift & Hconst).
  destruct (Hshift 5%R) as (out' & E' & Heq).
  exists out, out'. repeat split; try assumption.
  rewrite Hconst; [reflexivity | | intros j _; reflexivity].
  unfold Q2R. simpl. lra.
Defined.

(** ** The feed-forward network is position-wise *)

Lemma set_nth_app_last {A} (pre : list A) (c v : A) :
  set_nth (length pre) v (pre ++ [c]) = pre ++ [v].
Proof. induction pre as [|a pre IH]; simpl; [reflexivity | now rewrite IH]. Qed.

Lemma nth_app_last {A} (pre : list A) (c d : A) :
  nth (length pre) (pre ++ [c]) d = c.
Proof. induction pre as [|a pre IH]; simpl; [reflexivity | exact IH]. Qed.

Lemma r_linear_row (x W b : tensor R) (pre : list nat) (c : nat) :
  length pre = length (shape x) - 1 ->
  get (r_linear x W b) (pre ++ [c])
  = (sum_n (nth 1%nat (shape W) 0%nat) (fun k => get x (pre ++ [k]) * get W [c; k])
     + get b [c])%R.
Proof.
  intros Hlen. unfold r_linear. simpl get. rewrite <- Hlen.
  rewrite nth_app_last. f_equal. apply sum_n_ext. intros k _.
  now rewrite set_nth_app_last.
Qed.

(** X4: over the reals, in evaluation mode, [PositionwiseFeedForward.forward]
    mixes nothing across positions: the output row at a position is
    [w_2(relu(w_1(row)))] of the input row at that position, so two inputs
    of the same shape that agree on a row give outputs that agree on it. *)
Theorem PositionwiseFeedForward_forward_position_wise
  (self : PositionwiseFeedForward) (x x' : tensor R) (w : world)
  (pre : list nat) :
  training (ff_dropout self) = false ->
  shape x' = shape x ->
  length pre = length (shape x) - 1 ->
  (forall k, get x' (pre ++ [k]) = get x (pre ++ [k])) ->
  exists out out' : tensor R,
    @PositionwiseFeedForward_forward RealTorch self x w = Ok (out, w) /\
    @PositionwiseFeedForward_forward RealTorch self x' w = Ok (out', w) /\
    (forall c,
        get out (pre ++ [c])
        = (sum_n (nth 1%nat (shape (tensors w (weight (ff_w_2 self)))) 0%nat)
             (fun k =>
                Rmax 0
                  (sum_n (nth 1%nat (shape (tensors w (weight (ff_w_1 self)))) 0%nat)
                     (fun j => get x (pre ++ [j])
                               * get (tensors w (weight (ff_w_1 self))) [k; j])
                   + get (tensors w (bias (ff_w_1 self))) [k])
                * get (tensors w (weight (ff_w_2 self))) [c; k])
           + get (tensors w (bias (ff_w_2 self))) [c])%R) /\
    (forall c, get out' (pre ++ [c]) = get out (pre ++ [c])).
Proof.
  intros Htr Hshape Hlen Hrow.
  assert (Hget : forall (y : tensor R) c,
    length pre = length (shape y) - 1 ->
    get (r_linear
           (r_map (Rmax 0)
              (r_linear y (tensors w (weight (ff_w_1 self)))
                        (tensors w (bias (ff_w_1 self)))))
           (tensors w (weight (ff_w_2 self))) (tensors w (bias (ff_w_2 self))))
        (pre ++ [c])
    = (sum_n (nth 1%nat (shape (tensors w (weight (ff_w_2 self)))) 0%nat)
         (fun k =>
            Rmax 0
              (sum_n (nth 1%nat (shape (tensors w (weight (ff_w_1 self)))) 0%nat)
                 (fun j => get y (pre ++ [j])
                           * get (tensors w (weight (ff_w_1 self))) [k; j])
               + get (tensors w (bias (ff_w_1 self))) [k])
            * get (tensors w (weight (ff_w_2 self))) [c; k])
       + get (tensors w (bias (ff_w_2 self))) [c])%R).
  { intros y c Hy. rewrite r_linear_row.
    - f_equal. apply sum_n_ext. intros k _.
      change (get (r_map (Rmax 0) ?t) ?i) with (Rmax 0 (get t i)).
      now rewrite (@r_linear_row y _ _ pre k Hy).
    - unfold r_map, r_linear. cbn [shape]. now rewrite length_set_nth. }
  eexists _, _.
  split; [apply PositionwiseFeedForward_forward_eval; exact Htr|].
  split; [apply PositionwiseFeedForward_forward_eval; exact Htr|].
  split.
  - intros c. apply Hget. exact Hlen.
  - intros c. rewrite !Hget by (rewrite ?Hshape; exact Hlen).
    f_equal. apply sum_n_ext. intros k _. f_equal. f_equal. f_equal.
    apply sum_n_ext. intros j _. now rewrite Hrow.
Qed.

Lemma PositionwiseFeedForward_forward_position_wise_witness :
  (training (ff_dropout (dl_feed_forward example_decoder_layer)) = false /\
   shape (mkTensor [2; 2] (fun idx => INR (nth 0 idx 0))) = shape (zeros [2; 2]) /\
   length [0] = length (shape (zeros [2; 2])) - 1 /\
   (forall k, get (mkTensor [2; 2] (fun idx => INR (nth 0 idx 0))) ([0] ++ [k])
              = get (zeros [2; 2]) ([0] ++ [k]))) /\
  exists out out' : tensor R,
    @PositionwiseFeedForward_forward RealTorch
       (dl_feed_forward example_decoder_layer) (zeros [2; 2]) example_world
    = Ok (out, example_world) /\
    @PositionwiseFeedForward_forward RealTorch
       (dl_feed_forward example_decoder_layer)
       (mkTensor [2; 2] (fun idx => INR (nth 0 idx 0))) example_world
    = Ok (out', example_world) /\
    (forall c, get out' [0; c] = get out [0; c]).
Proof.
  assert (H1 : training (ff_dropout (dl_feed_forward example_decoder_layer))
               = false) by reflexivity.
  assert (H2 : shape (mkTensor [2; 2] (fun idx => INR (nth 0 idx 0)))
               = shape (zeros [2; 2])) by reflexivity.
  assert (H3 : length [0] = length (shape (zeros [2; 2])) - 1) by reflexivity.
  assert (H4 : forall k,
             get (mkTensor [2; 2] (fun idx => INR (nth 0 idx 0))) ([0] ++ [k])
             = get (zeros [2; 2]) ([0] ++ [k])) by (intros k; reflexivity).
  split; [repeat split; assumption|].
  destruct (@PositionwiseFeedForward_forward_position_wise
              (dl_feed_forward example_decoder_layer) (zeros [2; 2])
              (mkTensor [2; 2] (fun idx => INR (nth 0 idx 0))) example_world [0]
              H1 H2 H3 H4) as (out & out' & E & E' & _ & Hrow).
  exists out, out'. repeat split; try assumption.
Defined.

(** ** Positional encoding *)

Lemma PositionalEncoding_forward_eval (self : PositionalEncoding)
  (x : tensor R) (w : world) :
  training (pos_dropout self) = false ->
  @PositionalEncoding_forward RealTorch self x w
  = Ok (r_zip Rplus x (r_slice1 (tensors w (pos_pe self)) (r_size x 1)), w).
Proof.
  intros Htr. unfold PositionalEncoding_forward, read_tensor. unfold bind at 1.
  now rewrite (Dropout_forward_eval _ _ _ Htr).
Qed.

Lemma bindex_batch1 (S D b s c : nat) :
  s < S -> c < D -> bindex [1; S; D] [b; s; c] = [0; s; c].
Proof.
  intros Hs Hc. unfold bindex. simpl.
  destruct (Nat.eqb_spec S 1), (Nat.eqb_spec D 1); repeat f_equal; lia.
Qed.

Lemma bshape_batch1 (B S D : nat) : bshape [B; S; D] [1; S; D] = [B; S; D].
Proof.
  rewrite bshape_same_length by reflexivity. simpl.
  destruct (Nat.eqb_spec B 1), (Nat.eqb_spec S 1), (Nat.eqb_spec D 1);
    subst; reflexivity.
Qed.

(** X5: over the reals, in evaluation mode, on a batch [x] of shape
    [(B, S, d_model)] with [S <= max_len], [PositionalEncoding.forward]
    keeps the shape and adds to the entry at position [s] and column [c]
    the table entry [sin(s * omega)] for even [c] and [cos(s * omega)] for
    odd [c], where [omega = exp(-(2 * (c // 2)) * ln(10000) / d_model)]: the
    offset is the same for every element of the batch, does not depend on
    [x], and is at most 1 in absolute value. *)
Theorem PositionalEncoding_forward_adds_bounded_position_signal
  (self : PositionalEncoding) (x : tensor R) (w : world)
  (max_len d_model : Z) (B S D b s c : nat) :
  training (pos_dropout self) = false ->
  tensors w (pos_pe self) = r_positional_table max_len d_model ->
  shape x = [B; S; D] -> D = Z.to_nat d_model -> S <= Z.to_nat max_len ->
  b < B -> s < S -> c < D ->
  let omega := exp (INR (2 * (c / 2)) * - (ln 10000 / IZR d_model)) in
  let signal := if Nat.even c then sin (INR s * omega) else cos (INR s * omega) in
  exists out : tensor R,
    @PositionalEncoding_forward RealTorch self x w = Ok (out, w) /\
    shape out = [B; S; D] /\
    get out [b; s; c] = (get x [b; s; c] + signal)%R /\
    Rle (Rabs signal) 1.
Proof.
  intros Htr Hpe Hshape HD HS Hb Hs Hc omega signal.
  eexists. split; [apply PositionalEncoding_forward_eval; exact Htr|].
  rewrite Hpe.
  assert (Hslice : shape (r_slice1 (r_positional_table max_len d_model)
                                   (r_size x 1)) = [1; S; D]).
  { unfold r_slice1, r_size. rewrite Hshape. cbn [shape r_positional_table].
    change (norm_dim (length [B; S; D]) 1) with 1. cbn [nth set_nth].
    rewrite Nat2Z.id, <- HD. f_equal. f_equal. lia. }
  split; [|split].
  - unfold r_zip. cbn [shape]. rewrite Hslice, Hshape. apply bshape_batch1.
  - unfold r_zip. cbn [get]. rewrite Hslice, Hshape.
    rewrite (@bindex_valid [B; S; D] [b; s; c]) by (repeat constructor; assumption).
    rewrite (bindex_batch1 b Hs Hc). reflexivity.
  - unfold signal. destruct (Nat.even c).
    + apply Rabs_le. pose proof (SIN_bound (INR s * omega)). lra.
    + apply Rabs_le. pose proof (COS_bound (INR s * omega)). lra.
Qed.

Lemma PositionalEncoding_forward_adds_bounded_position_signal_witness :
  (training (pos_dropout (seq_1 (ed_src_embed example_model))) = false /\
   tensors example_world (pos_pe (seq_1 (ed_src_embed example_model)))
   = r_positional_table 5000 2 /\
   shape (zeros [1; 3; 2]) = [1; 3; 2] /\ 2 = Z.to_nat 2 /\
   3 <= Z.to_nat 5000 /\ 0 < 1 /\ 2 < 3 /\ 1 < 2) /\
  exists out : tensor R,
    @PositionalEncoding_forward RealTorch (seq_1 (ed_src_embed example_model))
       (zeros [1; 3; 2]) example_world = Ok (out, example_world) /\
    shape out = [1; 3; 2] /\
    Rle (Rabs (get out [0; 2; 1] - get (zeros [1; 3; 2]) [0; 2; 1])) 1.
Proof.
  assert (H1 : training (pos_dropout (seq_1 (ed_src_embed example_model)))
               = false) by reflexivity.
  assert (H2 : tensors example_world
                 (pos_pe (seq_1 (ed_src_embed example_model)))
               = r_positional_table 5000 2) by reflexivity.
  assert (H3 : shape (zeros [1; 3; 2]) = [1; 3; 2]) by reflexivity.
  assert (H4 : 2 = Z.to_nat 2) by reflexivity.
  assert (H5 : 3 <= Z.to_nat 5000) by lia.
  assert (H6 : 0 < 1) by lia.
  assert (H7 : 2 < 3) by lia.
  assert (H8 : 1 < 2) by lia.
  split; [repeat split; assumption|].
  destruct (@PositionalEncoding_forward_adds_bounded_position_signal
              (seq_1 (ed_src_embed example_model)) (zeros [1; 3; 2])
              example_world 5000 2 1 3 2 0 2 1 H1 H2 H3 H4 H5 H6 H7 H8)
    as (out & E & Hshape & Hget & Hbound).
  exists out. split; [exact E|]. split; [exact Hshape|].
  rewrite Hget.
  match goal with
  | |- Rle (Rabs (?a + ?sig - ?a)) 1 =>
      replace (a + sig - a)%R with sig by ring
  end.
  exact Hbound.
Defined.

(** ** What [PositionalEncoding.__init__] accepts *)

(** X6: [PositionalEncoding(d_model, dropout, max_len)] raises [ValueError]
    for a rate outside [0, 1]; with a valid rate it raises [RuntimeError]
    for a negative [max_len] or [d_model], [ZeroDivisionError] for
    [d_model = 0], and [RuntimeError] again for every odd [d_model >= 3]
    (the cosine columns do not fit); for a positive even [d_model] it
    succeeds, in training mode, and registers the table
    [(1, max_len, d_model)] in fresh storage, every tensor already in the
    store being left as it was. *)
Theorem PositionalEncoding_init_outcomes {T : Torch}
  (d_model max_len : Z) (dropout : Q) (w : world) :
  (~ valid_rate dropout ->
   PositionalEncoding_init d_model dropout max_len w = Raise ValueError) /\
  (valid_rate dropout ->
   ((max_len < 0 \/ d_model < 0)%Z ->
    PositionalEncoding_init d_model dropout max_len w = Raise RuntimeError) /\
   ((0 <= max_len)%Z -> d_model = 0%Z ->
    PositionalEncoding_init d_model dropout max_len w = Raise ZeroDivisionError) /\
   ((0 <= max_len)%Z -> (3 <= d_model)%Z -> Z.odd d_model = true ->
    PositionalEncoding_init d_model dropout max_len w = Raise RuntimeError) /\
   ((0 <= max_len)%Z -> (0 < d_model)%Z -> Z.even d_model = true ->
    exists (m : PositionalEncoding) (w' : world),
      PositionalEncoding_init d_model dropout max_len w = Ok (m, w') /\
      pos_dropout m = mkDropout dropout true /\
      pos_pe m = next w /\ next w' = S (next w) /\
      tensors w' (pos_pe m) = t_positional_table max_len d_model /\
      (forall l, l <> next w -> tensors w' l = tensors w l) /\
      rng w' = rng w)).
Proof.
  split.
  - intros Hp. unfold PositionalEncoding_init, nn_Dropout. unfold bind at 1.
    unfold valid_rate in Hp.
    destruct (Qle_bool 0 dropout && Qle_bool dropout 1); [now elim Hp | reflexivity].
  - intros Hp. repeat split.
    + intros Hneg. unfold PositionalEncoding_init.
      rewrite (bind_Ok _ _ _ (nn_Dropout_Ok _ w Hp)).
      destruct (Z.ltb_spec max_len 0); destruct (Z.ltb_spec d_model 0);
        try reflexivity; lia.
    + intros Hl ->. unfold PositionalEncoding_init.
      rewrite (bind_Ok _ _ _ (nn_Dropout_Ok _ w Hp)).
      destruct (Z.ltb_spec max_len 0); [lia | reflexivity].
    + intros Hl Hd Hodd.
      rewrite Z.odd_spec in Hodd. destruct Hodd as (k & ->).
      apply PositionalEncoding_init_odd; [lia | exact Hl | exact Hp].
    + intros Hl Hd Heven. unfold PositionalEncoding_init.
      rewrite (bind_Ok _ _ _ (nn_Dropout_Ok _ w Hp)).
      destruct (Z.ltb_spec max_len 0); [lia|].
      destruct (Z.ltb_spec d_model 0); [lia|]. simpl orb. cbv iota.
      destruct (Z.eqb_spec d_model 0); [lia|].
      apply Z.even_spec in Heven. destruct Heven as (k & ->).
      replace ((2 * k + 1) / 2)%Z with k
        by (apply Z.div_unique with (r := 1%Z); lia).
      replace (2 * k / 2)%Z with k
        by (apply Z.div_unique with (r := 0%Z); lia).
      unfold expandable. rewrite Z.eqb_refl. simpl.
      eexists _, _. split; [reflexivity|]. cbn.
      split; [reflexivity|]. split; [reflexivity|]. split; [reflexivity|].
      split; [now rewrite Nat.eqb_refl|]. split; [|reflexivity].
      intros l Hl'. destruct (Nat.eqb_spec l (next w)); [contradiction | reflexivity].
Qed.

Lemma PositionalEncoding_init_outcomes_witness :
  (valid_rate (1 # 10) /\ (0 <= 3)%Z /\ (0 < 2)%Z /\ Z.even 2 = true) /\
  exists (m : PositionalEncoding) (w' : world),
    @PositionalEncoding_init RealTorch 2 (1 # 10) 3 empty_world = Ok (m, w') /\
    tensors w' (pos_pe m) = r_positional_table 3 2.
Proof.
  assert (H1 : valid_rate (1 # 10)) by reflexivity.
  assert (H2 : (0 <= 3)%Z) by lia.
  assert (H3 : (0 < 2)%Z) by lia.
  assert (H4 : Z.even 2 = true) by reflexivity.
  split; [repeat split; assumption|].
  destruct (proj2 (proj2 (proj2 (proj2
              (@PositionalEncoding_init_outcomes RealTorch 2 3 (1 # 10)
                 empty_world) H1))) H2 H3 H4)
    as (m & w' & E & _ & _ & _ & Ht & _).
  exists m, w'. split; [exact E | exact Ht].
Defined.

(** ** What a deep copy holds *)

Lemma index_of_nth (x : loc) (l : list loc) (i : nat) :
  index_of x l = Some i -> nth i l 0 = x /\ i < length l.
Proof.
  revert i. induction l as [|y ys IH]; simpl; intros i H; [discriminate|].
  destruct (Nat.eqb_spec x y) as [E|E].
  - injection H as <-. split; [now symmetry | lia].
  - destruct (index_of x ys) as [k|]; simpl in H; [|discriminate].
    injection H as <-. destruct (IH k eq_refl) as [Hn Hk].
    split; [exact Hn | lia].
Qed.

Section CopiedValues.

Context {T : Torch} {M : Type} {HM : NNModule M}.

(** A deep copy renames the locations of the module into fresh ones that
    hold what the originals hold, and writes nowhere else. *)
Lemma deepcopy_values (m : M) (w : world) (m' : M) (w' : world) :
  deepcopy m w = Ok (m', w') ->
  next w <= next w' /\ rng w' = rng w /\
  (forall x, x < next w -> tensors w' x = tensors w x /\ attrs w' x = attrs w x) /\
  exists f : loc -> loc,
    m' = relocate f m /\
    forall x, In x (storages m) ->
      next w <= f x < next w' /\
      tensors w' (f x) = tensors w x /\ attrs w' (f x) = attrs w x.
Proof.
  unfold deepcopy. cbv zeta. intros E. injection E as <- <-.
  cbn [next rng tensors attrs].
  split; [lia|]. split; [reflexivity|]. split.
  - intros x Hx. destruct (Nat.leb_spec (next w) x); [lia|]. simpl. now split.
  - eexists. split; [reflexivity|]. intros x Hx. cbv beta.
    destruct (@index_of_In x (uniq (storages m))) as (i & Ei & Hi).
    { apply uniq_from_In; [exact Hx | intros []]. }
    rewrite Ei. destruct (index_of_nth _ _ Ei) as [Hn _].
    split; [lia|].
    replace (next w + i - next w) with i by lia. rewrite Hn.
    destruct (Nat.leb_spec (next w) (next w + i)); [|lia].
    destruct (Nat.ltb_spec (next w + i) (next w + length (uniq (storages m))));
      [|lia].
    simpl. now split.
Qed.

Lemma mapM_deepcopy_values (m : M) (l : list nat) :
  forall w ms w',
    mapM (fun _ => deepcopy m) l w = Ok (ms, w') ->
    next w <= next w' /\ rng w' = rng w /\
    (forall x, x < next w -> tensors w' x = tensors w x /\ attrs w' x = attrs w x) /\
    (allocated w m ->
     forall a, In a ms ->
       exists f : loc -> loc,
         a = relocate f m /\
         forall x, In x (storages m) ->
           next w <= f x < next w' /\
           tensors w' (f x) = tensors w x /\ attrs w' (f x) = attrs w x).
Proof.
  induction l as [|k l IH]; intros w ms w' E; simpl in E.
  - injection E as <- <-. split; [lia|]. split; [reflexivity|].
    split; [intros x _; now split|]. intros _ a [].
  - apply bind_Ok_inv in E. destruct E as (m1 & w1 & E1 & E).
    apply bind_Ok_inv in E. destruct E as (ms' & w2 & E2 & E).
    injection E as <- <-.
    destruct (deepcopy_values E1) as (Hle1 & Hrng1 & Hold1 & f1 & Hm1 & Hf1).
    destruct (IH _ _ _ E2) as (Hle2 & Hrng2 & Hold2 & Hcopies).
    split; [lia|]. split; [congruence|]. split.
    + intros x Hx. destruct (Hold1 x Hx) as [Ht Ha].
      destruct (Hold2 x ltac:(lia)) as [Ht' Ha'].
      split; congruence.
    + intros Halloc a [<-|Ha].
      * exists f1. split; [exact Hm1|]. intros x Hx.
        destruct (Hf1 x Hx) as (Hrange & Ht & Ha).
        destruct (Hold2 (f1 x) ltac:(lia)) as [Ht' Ha'].
        split; [lia|]. split; congruence.
      * assert (Halloc1 : allocated w1 m)
          by (intros x Hx; specialize (Halloc x Hx); lia).
        destruct (Hcopies Halloc1 a Ha) as (f & Hf & Hvals).
        exists f. split; [exact Hf|]. intros x Hx.
        destruct (Hvals x Hx) as (Hrange & Ht & Ha').
        destruct (Hold1 x (Halloc x Hx)) as [Ht1 Ha1].
        split; [lia|]. split; congruence.
Qed.

End CopiedValues.

(** X7: for a module on which no forward call has run (its attribute
    slots hold [None]), [clones(module, N)] returns [max(N, 0)] objects;
    each of them is [module] with its locations renamed into fresh storage
    that holds, at that moment, the tensors the storage of [module] holds,
    and [None] in the attribute slots; everything already in the store,
    [module] included, keeps its value, and the random generator is not
    consumed. *)
Theorem clones_copies_hold_the_values_of_the_module {T : Torch}
  {M : Type} {HM : NNModule M} (module : M) (N : Z) (w : world) :
  lawful M -> allocated w module -> attrs_unset w module ->
  exists (ms : list M) (w' : world),
    clones module N w = Ok (ms, w') /\
    length ms = Z.to_nat N /\
    rng w' = rng w /\
    (forall x, x < next w -> tensors w' x = tensors w x /\ attrs w' x = attrs w x) /\
    (forall a, In a ms ->
       exists f : loc -> loc,
         a = relocate f module /\
         storages a = map f (storages module) /\
         forall x, In x (storages module) ->
           next w <= f x /\
           tensors w' (f x) = tensors w x /\ attrs w' (f x) = None).
Proof.
  intros Hlawful Halloc Hunset.
  destruct (clones_total module N w) as (ms & w' & E).
  exists ms, w'. split; [exact E|].
  destruct (@mapM_deepcopy_ordered T M HM Hlawful module (py_range N) w ms w' E)
    as (_ & Hlen & _).
  destruct (@mapM_deepcopy_values T M HM module (py_range N) w ms w' E)
    as (_ & Hrng & Hold & Hcopies).
  split; [rewrite Hlen; unfold py_range; apply length_seq|].
  split; [exact Hrng|]. split; [exact Hold|].
  intros a Ha. destruct (Hcopies Halloc a Ha) as (f & Hf & Hvals).
  exists f. split; [exact Hf|]. split; [rewrite Hf; apply Hlawful|].
  intros x Hx. destruct (Hvals x Hx) as (Hrange & Ht & Ha').
  split; [lia|]. split; [exact Ht|]. rewrite Ha'. exact (Hunset x Hx).
Qed.

Lemma clones_copies_hold_the_values_of_the_module_witness :
  (lawful MultiHeadedAttention /\
   allocated example_world example_self_attn /\
   attrs_unset example_world example_self_attn) /\
  exists (ms : list MultiHeadedAttention) (w' : world),
    clones example_self_attn 2 example_world = Ok (ms, w') /\
    length ms = 2 /\
    (forall a, In a ms ->
       attrs w' (mha_attn a) = None /\
       exists (lq : Linear) (rest : list Linear),
         mha_linears a = lq :: rest /\
         tensors w' (weight lq) = tensors example_world 0).
Proof.
  assert (H1 : lawful MultiHeadedAttention)
    by exact lawful_MultiHeadedAttention.
  assert (H2 : allocated example_world example_self_attn).
  { intros l Hl. simpl in Hl.
    repeat (destruct Hl as [<-|Hl]; [simpl; lia|]). contradiction. }
  assert (H3 : attrs_unset example_world example_self_attn)
    by (intros l _; reflexivity).
  split; [split; [exact H1 | split; [exact H2 | exact H3]]|].
  destruct (@clones_copies_hold_the_values_of_the_module RealTorch
              MultiHeadedAttention _ example_self_attn 2 example_world
              H1 H2 H3)
    as (ms & w' & E & Hlen & _ & _ & Hcopies).
  exists ms, w'. split; [exact E|]. split; [exact Hlen|].
  intros a Ha. destruct (Hcopies a Ha) as (f & -> & _ & Hvals).
  split.
  - refine (proj2 (proj2 (Hvals 46 _))).
    simpl. repeat (first [left; reflexivity | right]).
  - eexists _, _. split; [reflexivity|].
    refine (proj1 (proj2 (Hvals 0 _))).
    simpl. left. reflexivity.
Defined.

(** ** What [MultiHeadedAttention.__init__] builds *)

Lemma nn_Linear_inv {T : Torch} (i o : Z) (w : world) (l : Linear) (w1 : world) :
  nn_Linear i o w = Ok (l, w1) ->
  weight l = next w /\ bias l = S (next w) /\ next w1 = S (S (next w)) /\
  (forall x, x < next w -> tensors w1 x = tensors w x) /\
  attrs w1 = attrs w.
Proof.
  unfold nn_Linear. destruct ((i <? 0) || (o <? 0))%Z; [discriminate|].
  unfold bind. rewrite with_rng_Ok. unfold new_tensor. cbv beta iota zeta.
  rewrite with_rng_Ok. intros E. injection E as <- <-. cbn.
  repeat split; try reflexivity.
  intros x Hx.
  destruct (Nat.eqb_spec x (S (next w))); [lia|].
  destruct (Nat.eqb_spec x (next w)); [lia | reflexivity].
Qed.

(** X8: when [MultiHeadedAttention(h, d_model, dropout)] is constructed,
    [h * d_k = d_model], the dropout has the given rate and is in training
    mode, [attn] is [None], and [linears] holds four projections in
    pairwise disjoint storage which all carry the same weight and the same
    bias, those of the one [nn.Linear] they were cloned from; nothing that
    was in the store before is changed. *)
Theorem MultiHeadedAttention_init_invariants {T : Torch}
  (h d_model : Z) (dropout : Q) (w : world)
  (m : MultiHeadedAttention) (w' : world) :
  MultiHeadedAttention_init h d_model dropout w = Ok (m, w') ->
  mha_h m = h /\ (mha_h m * mha_d_k m = d_model)%Z /\
  mha_dropout m = mkDropout dropout true /\
  attrs w' (mha_attn m) = None /\
  length (mha_linears m) = 4 /\
  (forall a b, In a (mha_linears m) -> In b (mha_linears m) ->
     tensors w' (weight a) = tensors w' (weight b) /\
     tensors w' (bias a) = tensors w' (bias b)) /\
  (forall i j a b, i <> j ->
     nth_error (mha_linears m) i = Some a ->
     nth_error (mha_linears m) j = Some b -> ~ share_storage a b) /\
  (forall x, x < next w -> tensors w' x = tensors w x /\ attrs w' x = attrs w x).
Proof.
  intros E. unfold MultiHeadedAttention_init in E.
  apply bind_Ok_inv in E. destruct E as (r & w0 & Er & E).
  unfold lift, py_mod in Er.
  destruct (Z.eqb_spec h 0) as [Hh|Hh]; [discriminate|]. injection Er as <- <-.
  destruct (Z.eqb_spec (d_model mod h) 0) as [Hmod|Hmod]; simpl in E;
    [|discriminate].
  apply bind_Ok_inv in E. destruct E as (d_k & w0' & Ed & E).
  unfold lift, py_floordiv in Ed.
  destruct (Z.eqb_spec h 0); [contradiction|]. injection Ed as <- <-.
  apply bind_Ok_inv in E. destruct E as (tpl & w1 & El & E).
  apply bind_Ok_inv in E. destruct E as (ls & w2 & Ec & E).
  apply bind_Ok_inv in E. destruct E as (attn & w3 & Ea & E).
  apply bind_Ok_inv in E. destruct E as (drop & w4 & Edrop & E).
  injection E as <- <-.
  unfold new_attr in Ea. injection Ea as <- <-.
  unfold nn_Dropout in Edrop.
  destruct (Qle_bool 0 dropout && Qle_bool dropout 1); [|discriminate].
  injection Edrop as <- <-. cbn.
  destruct (nn_Linear_inv _ _ _ El) as (Hwt & Hbs & Hnext1 & Hold1 & Hattrs1).
  assert (Hlawful : lawful Linear) by (intros f l; reflexivity).
  assert (Halloc : allocated w1 tpl).
  { intros x Hx. simpl in Hx. destruct Hx as [<-|[<-|[]]]; lia. }
  destruct (@mapM_deepcopy_ordered T Linear _ Hlawful tpl (py_range 4) w1 ls w2 Ec)
    as (Hle2 & Hlen & Hin & Hord).
  destruct (@mapM_deepcopy_values T Linear _ tpl (py_range 4) w1 ls w2 Ec)
    as (_ & _ & Hold2 & Hcopies).
  split; [reflexivity|].
  split; [symmetry; apply Z.div_exact; assumption|].
  split; [reflexivity|].
  split; [now rewrite Nat.eqb_refl|].
  split; [exact Hlen|].
  split; [|split].
  - intros a b Ha Hb.
    destruct (Hcopies Halloc a Ha) as (fa & -> & Hfa).
    destruct (Hcopies Halloc b Hb) as (fb & -> & Hfb).
    simpl.
    destruct (Hfa (weight tpl) (or_introl eq_refl)) as (_ & Ewa & _).
    destruct (Hfb (weight tpl) (or_introl eq_refl)) as (_ & Ewb & _).
    destruct (Hfa (bias tpl) (or_intror (or_introl eq_refl))) as (_ & Eba & _).
    destruct (Hfb (bias tpl) (or_intror (or_introl eq_refl))) as (_ & Ebb & _).
    split; congruence.
  - intros i j a b Hij Hi Hj (x & Hx & Hx').
    destruct (Nat.lt_total i j) as [H|[H|H]]; [|contradiction|].
    + specialize (Hord i j a b x x H Hi Hj Hx Hx'). lia.
    + specialize (Hord j i b a x x H Hj Hi Hx' Hx). lia.
  - intros x Hx. destruct (Hold2 x ltac:(lia)) as [Ht Ha].
    split.
    + rewrite Ht. apply Hold1. exact Hx.
    + destruct (Nat.eqb_spec x (next w2)); [lia|]. rewrite Ha, Hattrs1.
      reflexivity.
Qed.

Lemma MultiHeadedAttention_init_invariants_witness :
  exists (m : MultiHeadedAttention) (w' : world),
    @MultiHeadedAttention_init RealTorch 1 2 (1 # 10) empty_world = Ok (m, w') /\
    (mha_h m * mha_d_k m = 2)%Z /\
    length (mha_linears m) = 4 /\
    attrs w' (mha_attn m) = None.
Proof.
  destruct (@MultiHeadedAttention_init_succeeds RealTorch 1 2 empty_world
              ltac:(lia) eq_refl) as (m & w' & E).
  exists m, w'. split; [exact E|].
  destruct (@MultiHeadedAttention_init_invariants RealTorch 1 2 (1 # 10)
              empty_world m w' E) as (_ & Hd & _ & Hattn & Hlen & _).
  repeat split; assumption.
Defined.

(** ** A freshly constructed [LayerNorm] *)

Lemma LayerNorm_init_real (feature_size : Z) (eps : Q) (w : world) :
  (0 <= feature_size)%Z ->
  exists (self : LayerNorm) (w' : world),
    @LayerNorm_init RealTorch feature_size eps w = Ok (self, w') /\
    ln_eps self = eps /\
    tensors w' (ln_a_2 self) = mkTensor [Z.to_nat feature_size] (fun _ => 1%R) /\
    tensors w' (ln_b_2 self) = mkTensor [Z.to_nat feature_size] (fun _ => 0%R) /\
    (forall x, x < next w -> tensors w' x = tensors w x) /\
    rng w' = rng w.
Proof.
  intros H. unfold LayerNorm_init.
  destruct (Z.ltb_spec feature_size 0); [lia|].
  unfold bind. rewrite with_rng_Ok. unfold new_tensor. cbv beta iota zeta.
  rewrite with_rng_Ok. eexists _, _. split; [reflexivity|]. cbn.
  split; [reflexivity|].
  rewrite Nat.eqb_refl.
  destruct (Nat.eqb_spec (next w) (S (next w))); [lia|].
  split; [reflexivity|]. split; [reflexivity|]. split; [|reflexivity].
  intros x Hx.
  destruct (Nat.eqb_spec x (S (next w))); [lia|].
  destruct (Nat.eqb_spec x (next w)); [lia | reflexivity].
Qed.

(** X9: over the reals, a [LayerNorm(feature_size, eps)] just constructed
    ([feature_size >= 2]) is the plain normalisation: applied to an input
    whose last axis has length [feature_size], its [forward] returns
    [(x - mean) / (std + eps)] at every entry, the scale being 1 and the
    shift 0; a negative [feature_size] is a [RuntimeError]. *)
Theorem LayerNorm_init_then_forward_is_plain_normalisation
  (feature_size : Z) (eps : Q) (x : tensor R) (w : world) :
  ((feature_size < 0)%Z ->
   @LayerNorm_init RealTorch feature_size eps w = Raise RuntimeError) /\
  ((2 <= feature_size)%Z ->
   nth (length (shape x) - 1) (shape x) 0 = Z.to_nat feature_size ->
   exists (self : LayerNorm) (w' : world) (out : tensor R),
     @LayerNorm_init RealTorch feature_size eps w = Ok (self, w') /\
     @LayerNorm_forward RealTorch self x w' = Ok (out, w') /\
     forall idx, valid_index (shape x) idx ->
       get out idx = get (layer_norm_normalized x eps) idx).
Proof.
  split.
  - intros H. unfold LayerNorm_init.
    destruct (Z.ltb_spec feature_size 0); [reflexivity | lia].
  - intros Hfs Hn.
    destruct (@LayerNorm_init_real feature_size eps w ltac:(lia))
      as (self & w' & E & Heps & Ha & Hb & _).
    exists self, w'. eexists. split; [exact E|].
    split; [apply LayerNorm_forward_eval|].
    intros idx Hidx.
    rewrite (@LayerNorm_forward_get self x w' idx Hidx);
      [| rewrite Hn; lia | rewrite Ha, Hn; reflexivity
       | rewrite Hb, Hn; reflexivity].
    rewrite Ha, Hb, Heps. cbn [get]. ring.
Qed.

Lemma LayerNorm_init_then_forward_is_plain_normalisation_witness :
  ((2 <= 2)%Z /\
   nth (length (shape example_vector) - 1) (shape example_vector) 0
   = Z.to_nat 2) /\
  exists (self : LayerNorm) (w' : world) (out : tensor R),
    @LayerNorm_init RealTorch 2 (1 # 1000000) empty_world = Ok (self, w') /\
    @LayerNorm_forward RealTorch self example_vector w' = Ok (out, w') /\
    get out [1] = get (layer_norm_normalized example_vector (1 # 1000000)) [1].
Proof.
  assert (H1 : (2 <= 2)%Z) by lia.
  assert (H2 : nth (length (shape example_vector) - 1) (shape example_vector) 0
               = Z.to_nat 2) by reflexivity.
  split; [split; assumption|].
  destruct (proj2 (@LayerNorm_init_then_forward_is_plain_normalisation
                     2 (1 # 1000000) example_vector empty_world) H1 H2)
    as (self & w' & out & E & E' & Hget).
  exists self, w', out. split; [exact E|]. split; [exact E'|].
  apply Hget. repeat constructor.
Defined.

(** ** What [make_model] accepts *)

Lemma py_mod_divides (d_model h : Z) :
  h <> 0%Z -> (d_model mod h = 0)%Z -> py_mod d_model h = Ok 0%Z.
Proof.
  intros Hh Hmod. unfold py_mod.
  destruct (Z.eqb_spec h 0); [contradiction | now rewrite Hmod].
Qed.

Lemma MultiHeadedAttention_init_negative {T : Torch} (h d_model : Z)
  (dropout : Q) (w : world) :
  h <> 0%Z -> (d_model mod h = 0)%Z -> (d_model < 0)%Z ->
  MultiHeadedAttention_init h d_model dropout w = Raise RuntimeError.
Proof.
  intros Hh Hmod Hneg. unfold MultiHeadedAttention_init.
  rewrite (@py_mod_divides d_model h Hh Hmod). unfold bind at 1. simpl.
  unfold py_floordiv. destruct (Z.eqb_spec h 0); [contradiction|].
  unfold bind at 1. simpl.
  apply bind_Raise. apply nn_Linear_negative. now left.
Qed.

(** X10: how [make_model(src_vocab, tgt_vocab, N, d_model, d_ff, h,
    dropout)] ends, by its arguments, in the order the constructors run:
    [ZeroDivisionError] for [h = 0]; [AssertionError] when [h] does not
    divide [d_model]; and when it does, [RuntimeError] for a negative
    [d_model], [RuntimeError] for a negative [d_ff], [ValueError] for a
    rate outside [0, 1], [RuntimeError] for an odd [d_model >= 3], which
    the positional table rejects although [h] passes the assertion; and a
    model for a positive even [d_model], a positive [d_ff], a valid rate
    and non-negative vocabulary sizes, whatever [N]. *)
Theorem make_model_outcomes {T : Torch}
  (src_vocab tgt_vocab N d_model d_ff h : Z) (dropout : Q) (w : world) :
  (h = 0%Z ->
   make_model src_vocab tgt_vocab N d_model d_ff h dropout w
   = Raise ZeroDivisionError) /\
  (h <> 0%Z -> (d_model mod h <> 0)%Z ->
   make_model src_vocab tgt_vocab N d_model d_ff h dropout w
   = Raise AssertionError) /\
  (h <> 0%Z -> (d_model mod h = 0)%Z ->
   ((d_model < 0)%Z ->
    make_model src_vocab tgt_vocab N d_model d_ff h dropout w
    = Raise RuntimeError) /\
   ((0 < d_model)%Z -> (d_ff < 0)%Z ->
    make_model src_vocab tgt_vocab N d_model d_ff h dropout w
    = Raise RuntimeError) /\
   ((0 < d_model)%Z -> (0 < d_ff)%Z -> ~ valid_rate dropout ->
    make_model src_vocab tgt_vocab N d_model d_ff h dropout w
    = Raise ValueError) /\
   ((3 <= d_model)%Z -> Z.odd d_model = true -> (0 < d_ff)%Z ->
    valid_rate dropout ->
    make_model src_vocab tgt_vocab N d_model d_ff h dropout w
    = Raise RuntimeError) /\
   ((0 < d_model)%Z -> Z.even d_model = true -> (0 < d_ff)%Z ->
    valid_rate dropout -> (0 <= src_vocab)%Z -> (0 <= tgt_vocab)%Z ->
    exists (model : EncoderDecoder) (w' : world),
      make_model src_vocab tgt_vocab N d_model d_ff h dropout w
      = Ok (model, w'))).
Proof.
  split; [|split].
  - intros ->. unfold make_model, MultiHeadedAttention_init, py_mod. reflexivity.
  - intros Hh Hmod. unfold make_model. apply bind_Raise.
    unfold MultiHeadedAttention_init, py_mod.
    destruct (Z.eqb_spec h 0); [contradiction|]. unfold bind at 1. simpl.
    destruct (Z.eqb_spec (d_model mod h) 0); [contradiction | reflexivity].
  - intros Hh Hmod.
    pose proof (@py_mod_divides d_model h Hh Hmod) as Hpy.
    split; [|split; [|split; [|split]]].
    + intros Hneg. unfold make_model. apply bind_Raise.
      now apply MultiHeadedAttention_init_negative.
    + intros Hd Hff. unfold make_model.
      destruct (@MultiHeadedAttention_init_succeeds T h d_model w
                  ltac:(lia) Hpy) as (attn & w1 & E).
      rewrite (bind_Ok _ _ _ E). apply bind_Raise.
      unfold PositionwiseFeedForward_init. apply bind_Raise.
      apply nn_Linear_negative. now right.
    + intros Hd' Hff' Hp. unfold make_model.
      assert (Hd : (0 <= d_model)%Z) by lia.
      assert (Hff : (0 <= d_ff)%Z) by lia.
      destruct (@MultiHeadedAttention_init_succeeds T h d_model w Hd Hpy)
        as (attn & w1 & E).
      rewrite (bind_Ok _ _ _ E). apply bind_Raise.
      unfold PositionwiseFeedForward_init.
      destruct (nn_Linear_total w1 Hd Hff) as (l1 & w2 & E1).
      rewrite (bind_Ok _ _ _ E1).
      destruct (nn_Linear_total w2 Hff Hd) as (l2 & w3 & E2).
      rewrite (bind_Ok _ _ _ E2).
      apply bind_Raise. unfold nn_Dropout. unfold valid_rate in Hp.
      destruct (Qle_bool 0 dropout && Qle_bool dropout 1);
        [now elim Hp | reflexivity].
    + intros Hd Hodd Hff Hp. unfold make_model.
      destruct (@MultiHeadedAttention_init_succeeds T h d_model w
                  ltac:(lia) Hpy) as (attn & w1 & E).
      rewrite (bind_Ok _ _ _ E).
      destruct (@PositionwiseFeedForward_init_total T d_model d_ff dropout w1
                  ltac:(lia) ltac:(lia) Hp) as (ff & w2 & E2).
      rewrite (bind_Ok _ _ _ E2). apply bind_Raise.
      rewrite Z.odd_spec in Hodd. destruct Hodd as (k & ->).
      apply PositionalEncoding_init_odd; [lia | lia | exact Hp].
    + intros Hd Heven Hff Hp Hsv Htv.
      apply make_model_total; try assumption. lia.
Qed.

Lemma make_model_outcomes_witness :
  ((1 <> 0)%Z /\ (2 mod 1 = 0)%Z /\ (0 < 2)%Z /\ Z.even 2 = true /\
   (0 < 4)%Z /\ valid_rate (1 # 10) /\ (0 <= 3)%Z) /\
  (exists (model : EncoderDecoder) (w' : world),
      @make_model RealTorch 3 3 1 2 4 1 (1 # 10) empty_world = Ok (model, w')) /\
  @make_model RealTorch 3 3 1 2 4 0 (1 # 10) empty_world = Raise ZeroDivisionError.
Proof.
  assert (H1 : (1 <> 0)%Z) by lia.
  assert (H2 : (2 mod 1 = 0)%Z) by reflexivity.
  assert (H3 : (0 < 2)%Z) by lia.
  assert (H4 : Z.even 2 = true) by reflexivity.
  assert (H5 : (0 < 4)%Z) by lia.
  assert (H6 : valid_rate (1 # 10)) by reflexivity.
  assert (H7 : (0 <= 3)%Z) by lia.
  split; [repeat split; assumption|]. split.
  - destruct (@make_model_outcomes RealTorch 3 3 1 2 4 1 (1 # 10) empty_world)
      as (_ & _ & Hrest).
    destruct (Hrest H1 H2) as (_ & _ & _ & _ & Hok).
    exact (Hok H3 H4 H5 H6 H7 H7).
  - exact (proj1 (@make_model_outcomes RealTorch 3 3 1 2 4 0 (1 # 10)
                    empty_world) eq_refl).
Defined.

(** ** Stacks without layers *)

(** X11: with [N <= 0], [clones] returns nothing, so [Encoder(layer, N)]
    and [Decoder(layer, N)] hold no layer at all, and their [forward] is
    the final [LayerNorm] applied to the input as it is: the masks, and for
    the decoder the memory, are not looked at. *)
Theorem stack_without_layers_is_the_final_norm {T : Torch}
  (N : Z) (w : world) (elayer : EncoderLayer) (dlayer : DecoderLayer) :
  (N <= 0)%Z -> (0 <= el_size elayer)%Z -> (0 <= dl_size dlayer)%Z ->
  (exists (enc : Encoder) (w' : world),
      Encoder_init elayer N w = Ok (enc, w') /\
      enc_layers enc = [] /\
      forall x mask w0,
        Encoder_forward enc x mask w0 = LayerNorm_forward (enc_norm enc) x w0) /\
  (exists (dec : Decoder) (w' : world),
      Decoder_init dlayer N w = Ok (dec, w') /\
      dec_layers dec = [] /\
      forall x memory src_mask tgt_mask w0,
        Decoder_forward dec x memory src_mask tgt_mask w0
        = LayerNorm_forward (dec_norm dec) x w0).
Proof.
  intros HN He Hd.
  assert (Hrange : py_range N = []) by (unfold py_range; replace (Z.to_nat N) with 0 by lia; reflexivity).
  split.
  - destruct (@LayerNorm_init_total T (el_size elayer) (1 # 1000000) w He)
      as (norm & w1 & En).
    exists (mkEncoder [] norm), w1. split; [|split; [reflexivity|]].
    + unfold Encoder_init, clones. rewrite Hrange. simpl mapM.
      unfold bind at 1. unfold ret at 1.
      rewrite (bind_Ok _ _ _ En). reflexivity.
    + intros x mask w0. reflexivity.
  - destruct (@LayerNorm_init_total T (dl_size dlayer) (1 # 1000000) w Hd)
      as (norm & w1 & En).
    exists (mkDecoder [] norm), w1. split; [|split; [reflexivity|]].
    + unfold Decoder_init, clones. rewrite Hrange. simpl mapM.
      unfold bind at 1. unfold ret at 1.
      rewrite (bind_Ok _ _ _ En). reflexivity.
    + intros x memory src_mask tgt_mask w0. reflexivity.
Qed.

Lemma stack_without_layers_is_the_final_norm_witness :
  ((0 <= 0)%Z /\ (0 <= el_size example_encoder_layer)%Z /\
   (0 <= dl_size example_decoder_layer)%Z) /\
  exists (enc : Encoder) (w' : world),
    @Encoder_init RealTorch example_encoder_layer 0 example_world
    = Ok (enc, w') /\
    enc_layers enc = [].
Proof.
  assert (H1 : (0 <= 0)%Z) by lia.
  assert (H2 : (0 <= el_size example_encoder_layer)%Z) by (simpl; lia).
  assert (H3 : (0 <= dl_size example_decoder_layer)%Z) by (simpl; lia).
  split; [repeat split; assumption|].
  destruct (@stack_without_layers_is_the_final_norm RealTorch 0 example_world
              example_encoder_layer example_decoder_layer H1 H2 H3)
    as [(enc & w' & E & Hnil & _) _].
  exists enc, w'. split; assumption.
Defined.

(** ** [subsequent_mask] at its edges *)

Lemma count_le_seq (i n : nat) :
  i < n -> length (filter (fun j => j <=? i) (seq 0 n)) = S i.
Proof.
  intros Hi.
  replace n with (S i + (n - S i)) by lia.
  rewrite seq_app, filter_app, length_app.
  replace (filter (fun j => j <=? i) (seq (0 + S i) (n - S i))) with (@nil nat).
  - rewrite (@forallb_filter_id nat (fun j => j <=? i) (seq 0 (S i))).
    + rewrite length_seq. simpl. lia.
    + apply forallb_forall. intros j Hj. apply in_seq in Hj.
      apply Nat.leb_le. lia.
  - symmetry. generalize (n - S i). intros k.
    assert (H : forall s, i < s -> filter (fun j => j <=? i) (seq s k) = []).
    { induction k as [|k IH]; intros s Hs; simpl; [reflexivity|].
      destruct (Nat.leb_spec s i); [lia|]. apply IH. lia. }
    apply H. lia.
Qed.

(** X12: [subsequent_mask(size)] raises [ValueError] for a negative size
    and fails in no other case; in the mask it returns, position [i] is
    permitted to attend to itself and to exactly [i + 1] positions in all,
    so that no query row is entirely forbidden. *)
Theorem subsequent_mask_edges (size : Z) :
  ((size < 0)%Z -> subsequent_mask size = Raise ValueError) /\
  ((0 <= size)%Z ->
   exists m : tensor bool,
     subsequent_mask size = Ok m /\
     shape m = [1; Z.to_nat size; Z.to_nat size] /\
     forall i, i < Z.to_nat size ->
       get m [0; i; i] = true /\
       length (filter (fun j => get m [0; i; j]) (seq 0 (Z.to_nat size))) = S i).
Proof.
  split.
  - intros Hneg. unfold subsequent_mask, np_ones. simpl.
    destruct (Z.leb_spec 0 size); [lia | reflexivity].
  - intros Hsize. eexists. split; [apply subsequent_mask_ok; exact Hsize|].
    split; [reflexivity|].
    intros i Hi. split.
    + rewrite subsequent_mask_entry. apply Nat.leb_refl.
    + rewrite (@filter_ext nat _ (fun j => j <=? i)).
      * apply count_le_seq. exact Hi.
      * intros j. apply subsequent_mask_entry.
Qed.

Lemma subsequent_mask_edges_witness :
  ((-1 < 0)%Z /\ (0 <= 3)%Z) /\
  subsequent_mask (-1) = Raise ValueError /\
  exists m : tensor bool,
    subsequent_mask 3 = Ok m /\
    length (filter (fun j => get m [0; 1; j]) (seq 0 3)) = 2.
Proof.
  assert (H1 : (-1 < 0)%Z) by lia.
  assert (H2 : (0 <= 3)%Z) by lia.
  split; [split; assumption|]. split.
  - exact (proj1 (subsequent_mask_edges (-1)) H1).
  - destruct (proj2 (subsequent_mask_edges 3) H2) as (m & E & _ & Hrow).
    exists m. split; [exact E|].
    exact (proj2 (Hrow 1 ltac:(simpl; lia))).
Defined.

(** ** Evaluation mode draws no random numbers *)

Section KeepsRng.

Context {T : Torch}.

Lemma kr_ret {A} (a : A) : keeps_rng (ret a).
Proof. intros w a' w' E. injection E as <- <-. reflexivity. Qed.

Lemma kr_raise {A} (e : exn) : keeps_rng (@raise T A e).
Proof. intros w a w' E. discriminate. Qed.

Lemma kr_lift {A} (r : result A) : keeps_rng (lift r).
Proof. destruct r as [a|e]; [apply kr_ret | apply kr_raise]. Qed.

Lemma kr_bind {A B} (m : Mon A) (k : A -> Mon B) :
  keeps_rng m -> (forall a, keeps_rng (k a)) -> keeps_rng (bind m k).
Proof.
  intros Hm Hk w b w' E. apply bind_Ok_inv in E.
  destruct E as (a & w1 & E1 & E2).
  rewrite (Hk a _ _ _ E2). exact (Hm _ _ _ E1).
Qed.

Lemma kr_read_tensor (l : loc) : keeps_rng (read_tensor l).
Proof. intros w a w' E. injection E as <- <-. reflexivity. Qed.

Lemma kr_write_attr (l : loc) (v : option Tensor) : keeps_rng (write_attr l v).
Proof. intros w a w' E. injection E as <- <-. reflexivity. Qed.

Lemma kr_item_last {A} (l : list A) : keeps_rng (item_last l).
Proof. unfold item_last. destruct (rev l); [apply kr_raise | apply kr_ret]. Qed.

(** [l[i]] followed by a computation on the element found. *)
Lemma kr_item_then {A B} (l : list A) (i : nat) (k : A -> Mon B) :
  (forall a, In a l -> keeps_rng (k a)) -> keeps_rng (bind (item l i) k).
Proof.
  intros Hk. unfold item. destruct (nth_error l i) as [a|] eqn:E.
  - intros w b w' Eb. unfold bind, ret in Eb.
    exact (Hk a (nth_error_In _ _ E) _ _ _ Eb).
  - intros w b w' Eb. discriminate.
Qed.

Lemma kr_mapM {A B} (f : A -> Mon B) (l : list A) :
  (forall a, keeps_rng (f a)) -> keeps_rng (mapM f l).
Proof.
  intros Hf. induction l as [|a l IH]; simpl; [apply kr_ret|].
  apply kr_bind; [apply Hf|]. intros b.
  apply kr_bind; [exact IH|]. intros bs. apply kr_ret.
Qed.

Lemma kr_foldM {A} (f : A -> Tensor -> Mon Tensor) (l : list A) (x : Tensor) :
  (forall a y, In a l -> keeps_rng (f a y)) -> keeps_rng (foldM f l x).
Proof.
  revert x. induction l as [|a l IH]; intros x Hf; simpl; [apply kr_ret|].
  apply kr_bind; [apply Hf; now left|].
  intros y. apply IH. intros b z Hb. apply Hf. now right.
Qed.

Ltac kr_step :=
  first [ apply kr_ret | apply kr_raise | apply kr_lift | apply kr_read_tensor
        | apply kr_write_attr | apply kr_item_last
        | apply kr_bind; [|intros ?] ].

Lemma kr_Linear_forward (self : Linear) (x : Tensor) :
  keeps_rng (Linear_forward self x).
Proof. unfold Linear_forward. repeat kr_step. Qed.

Lemma kr_Dropout_forward (self : Dropout) (x : Tensor) :
  training self = false -> keeps_rng (Dropout_forward self x).
Proof. intros H. unfold Dropout_forward. rewrite H. apply kr_ret. Qed.

Lemma kr_LayerNorm_forward (self : LayerNorm) (x : Tensor) :
  keeps_rng (LayerNorm_forward self x).
Proof. unfold LayerNorm_forward. repeat kr_step. Qed.

Lemma kr_Sequential_forward (self : Sequential) (x : LongTensor) :
  training (pos_dropout (seq_1 self)) = false ->
  keeps_rng (Sequential_forward self x).
Proof.
  intros H. unfold Sequential_forward, Embeddings_forward, Embedding_forward,
    PositionalEncoding_forward.
  apply kr_bind; [repeat kr_step|]. intros y.
  apply kr_bind; [apply kr_read_tensor|]. intros pe.
  apply kr_Dropout_forward. exact H.
Qed.

Lemma kr_MultiHeadedAttention_forward (self : MultiHeadedAttention)
  (query key value : Tensor) (mask : option MaskTensor) :
  training (mha_dropout self) = false ->
  keeps_rng (MultiHeadedAttention_forward self query key value mask).
Proof.
  intros H. unfold MultiHeadedAttention_forward. apply kr_bind.
  - apply kr_mapM. intros [l x]. kr_step; [apply kr_Linear_forward | kr_step].
  - intros projected.
    destruct projected as [|q [|k [|v [|? ?]]]]; try apply kr_raise.
    apply kr_bind.
    + unfold attention. kr_step; [kr_step|].
      kr_step; [apply kr_Dropout_forward; exact H | kr_step].
    + intros [x p_attn]. apply kr_bind; [apply kr_write_attr|].
      intros _. apply kr_bind; [apply kr_item_last|].
      intros l. apply kr_Linear_forward.
Qed.

Lemma kr_PositionwiseFeedForward_forward (self : PositionwiseFeedForward)
  (x : Tensor) :
  training (ff_dropout self) = false ->
  keeps_rng (PositionwiseFeedForward_forward self x).
Proof.
  intros H. unfold PositionwiseFeedForward_forward.
  apply kr_bind; [apply kr_Linear_forward|]. intros y.
  apply kr_bind; [apply kr_Dropout_forward; exact H|]. intros z.
  apply kr_Linear_forward.
Qed.

Lemma kr_SublayerConnection_forward (self : SublayerConnection) (x : Tensor)
  (sublayer : Tensor -> Mon Tensor) :
  training (sc_dropout self) = false ->
  (forall y, keeps_rng (sublayer y)) ->
  keeps_rng (SublayerConnection_forward self x sublayer).
Proof.
  intros H Hs. unfold SublayerConnection_forward.
  apply kr_bind; [apply Hs|]. intros y.
  apply kr_bind; [apply kr_Dropout_forward; exact H|]. intros z.
  apply kr_bind; [apply kr_LayerNorm_forward|]. intros n. apply kr_ret.
Qed.

Lemma kr_EncoderLayer_forward (self : EncoderLayer) (x : Tensor)
  (mask : option MaskTensor) :
  EncoderLayer_eval self -> keeps_rng (EncoderLayer_forward self x mask).
Proof.
  intros (Ha & Hf & Hs). rewrite Forall_forall in Hs.
  unfold EncoderLayer_forward.
  apply kr_item_then. intros s0 H0.
  apply kr_bind.
  { apply kr_SublayerConnection_forward; [apply Hs; exact H0|].
    intros y. apply kr_MultiHeadedAttention_forward. exact Ha. }
  intros y. apply kr_item_then. intros s1 H1.
  apply kr_bind; [|intros z; apply kr_ret].
  apply kr_SublayerConnection_forward; [apply Hs; exact H1|].
  intros z. apply kr_PositionwiseFeedForward_forward. exact Hf.
Qed.

Lemma kr_DecoderLayer_forward (self : DecoderLayer) (x memory : Tensor)
  (src_mask tgt_mask : option MaskTensor) :
  DecoderLayer_eval self ->
  keeps_rng (DecoderLayer_forward self x memory src_mask tgt_mask).
Proof.
  intros (Ha & Hb & Hf & Hs). rewrite Forall_forall in Hs.
  unfold DecoderLayer_forward.
  apply kr_item_then. intros s0 H0.
  apply kr_bind.
  { apply kr_SublayerConnection_forward; [apply Hs; exact H0|].
    intros y. apply kr_MultiHeadedAttention_forward. exact Ha. }
  intros y. apply kr_item_then. intros s1 H1.
  apply kr_bind.
  { apply kr_SublayerConnection_forward; [apply Hs; exact H1|].
    intros z. apply kr_MultiHeadedAttention_forward. exact Hb. }
  intros z. apply kr_item_then. intros s2 H2.
  apply kr_SublayerConnection_forward; [apply Hs; exact H2|].
  intros u. apply kr_PositionwiseFeedForward_forward. exact Hf.
Qed.

Lemma kr_EncoderDecoder_forward (self : EncoderDecoder) (src tgt : LongTensor)
  (src_mask tgt_mask : option MaskTensor) :
  EncoderDecoder_eval self ->
  keeps_rng (EncoderDecoder_forward self src tgt src_mask tgt_mask).
Proof.
  intros (He & Hd & Hs & Ht).
  rewrite Forall_forall in He. rewrite Forall_forall in Hd.
  unfold EncoderDecoder_forward, EncoderDecoder_encode, EncoderDecoder_decode,
    Encoder_forward, Decoder_forward.
  apply kr_bind.
  - apply kr_bind; [apply kr_Sequential_forward; exact Hs|]. intros e.
    apply kr_bind; [|intros y; apply kr_LayerNorm_forward].
    apply kr_foldM. intros a y Ha. apply kr_EncoderLayer_forward, He, Ha.
  - intros memory. apply kr_bind; [|intros res; apply kr_ret].
    apply kr_bind; [apply kr_Sequential_forward; exact Ht|]. intros e.
    apply kr_bind; [|intros y; apply kr_LayerNorm_forward].
    apply kr_foldM. intros a y Ha. apply kr_DecoderLayer_forward, Hd, Ha.
Qed.

End KeepsRng.

(** X13: for every tensor library, on a model in evaluation mode (every
    dropout with [training = False]), a call of [EncoderDecoder.forward]
    that returns has drawn nothing from the random generator and has left
    every parameter and buffer as it was, and calling it again on the same
    inputs returns the same output. *)
Theorem forward_in_evaluation_mode_is_repeatable {T : Torch}
  (self : EncoderDecoder) (src tgt : LongTensor)
  (src_mask tgt_mask : option MaskTensor) (w : world)
  (out : Tensor) (w1 : world) :
  EncoderDecoder_eval self ->
  EncoderDecoder_forward self src tgt src_mask tgt_mask w = Ok (out, w1) ->
  rng w1 = rng w /\
  (forall l, tensors w1 l = tensors w l) /\
  exists w2 : world,
    EncoderDecoder_forward self src tgt src_mask tgt_mask w1 = Ok (out, w2) /\
    rng w2 = rng w.
Proof.
  intros Heval E.
  pose proof (@kr_EncoderDecoder_forward T self src tgt src_mask tgt_mask Heval)
    as Hkr.
  destruct (@fl_EncoderDecoder_forward T self src tgt src_mask tgt_mask)
    as [Hdet Hpres].
  pose proof (Hkr _ _ _ E) as Hrng.
  destruct (Hpres _ _ _ E) as (_ & Ht & _).
  split; [exact Hrng|]. split; [exact Ht|].
  assert (Hagree : agree w w1).
  { split; [intros l; symmetry; apply Ht | symmetry; exact Hrng]. }
  specialize (Hdet w w1 Hagree). rewrite E in Hdet.
  unfold same_outcome in Hdet.
  destruct (EncoderDecoder_forward self src tgt src_mask tgt_mask w1)
    as [[out' w2]|e] eqn:E2; [|contradiction].
  destruct Hdet as [<- _]. exists w2. split; [reflexivity|].
  rewrite (Hkr _ _ _ E2). exact Hrng.
Qed.

Lemma example_model_eval : EncoderDecoder_eval example_model.
Proof.
  repeat split; repeat constructor.
Qed.

Lemma example_forward_returns :
  exists (out : tensor R) (w' : world),
    @EncoderDecoder_forward RealTorch example_model example_ids example_ids
                            None None example_world
    = Ok (out, w').
Proof.
  assert (Hids : forall (w : @world RealTorch) (l : loc),
            shape (tensors w l) = [3; 2] ->
            forall idx, valid_index (shape example_ids) idx ->
              (0 <= get example_ids idx
               < Z.of_nat (nth 0%nat (shape (tensors w l)) 0%nat))%Z).
  { intros w l E idx H. rewrite E. simpl in *.
    inversion H as [|i s idx' shp Hi H']; subst.
    inversion H' as [|j s' idx'' shp' Hj H'']; subst.
    simpl. lia. }
  unfold EncoderDecoder_forward, EncoderDecoder_encode, EncoderDecoder_decode.
  destruct (@Sequential_forward_eval (ed_src_embed example_model) example_ids
              example_world) as (e & Ee);
    [simpl; lia | apply Hids; reflexivity | reflexivity |].
  unfold bind at 1. rewrite (bind_Ok _ _ _ Ee).
  destruct (@EncoderLayer_forward_eval example_encoder_layer e None
              example_world (example_sublayer 3) (example_sublayer 4)
              (example_linear 10) (example_linear 11) (example_linear 12)
              (example_linear 13)) as (m0 & w1 & Em); try reflexivity.
  assert (Eenc : @Encoder_forward RealTorch (ed_encoder example_model) e None
                   example_world
                 = Ok (LayerNorm_value w1 (example_norm 5) m0, w1)).
  { unfold Encoder_forward. simpl enc_layers. simpl foldM.
    unfold bind at 1. rewrite (bind_Ok _ _ _ Em). reflexivity. }
  rewrite Eenc.
  destruct (proj2 (@fl_Encoder_forward RealTorch (ed_encoder example_model)
                     e None) example_world _ w1 Eenc) as (_ & Ht & _).
  destruct (@Sequential_forward_eval (ed_tgt_embed example_model) example_ids
              w1) as (t & Et);
    [simpl; lia | apply Hids; rewrite Ht; reflexivity | reflexivity |].
  unfold bind at 1. rewrite (bind_Ok _ _ _ Et).
  destruct (@DecoderLayer_forward_eval example_decoder_layer t
              (LayerNorm_value w1 (example_norm 5) m0) None None w1
              (example_sublayer 0) (example_sublayer 1) (example_sublayer 2)
              (example_linear 0) (example_linear 1) (example_linear 2)
              (example_linear 3) (example_linear 4) (example_linear 5)
              (example_linear 6) (example_linear 7))
    as (d0 & w2 & Ed & _); try reflexivity.
  { simpl. discriminate. }
  assert (Edec : @Decoder_forward RealTorch (ed_decoder example_model) t
                   (LayerNorm_value w1 (example_norm 5) m0) None None w1
                 = Ok (LayerNorm_value w2 (example_norm 6) d0, w2)).
  { unfold Decoder_forward. simpl dec_layers. simpl foldM.
    unfold bind at 1. rewrite (bind_Ok _ _ _ Ed). reflexivity. }
  exists (LayerNorm_value w2 (example_norm 6) d0), w2.
  rewrite Edec. reflexivity.
Qed.

Lemma forward_in_evaluation_mode_is_repeatable_witness :
  EncoderDecoder_eval example_model /\
  exists (out : tensor R) (w1 w2 : world),
    @EncoderDecoder_forward RealTorch example_model example_ids example_ids
                            None None example_world = Ok (out, w1) /\
    @EncoderDecoder_forward RealTorch example_model example_ids example_ids
                            None None w1 = Ok (out, w2) /\
    rng w1 = rng example_world.
Proof.
  split; [exact example_model_eval|].
  destruct example_forward_returns as (out & w1 & E).
  destruct (@forward_in_evaluation_mode_is_repeatable RealTorch example_model
              example_ids example_ids None None example_world out w1
              example_model_eval E) as (Hrng & _ & w2 & E2 & _).
  exists out, w1, w2. repeat split; assumption.
Defined.

(** ** What [make_model] assembles *)

Section Assembly.

Context {T : Torch}.

Lemma deepcopy_relocated {M} `{NNModule M} (m : M) (w : world) (m' : M)
  (w' : world) :
  deepcopy m w = Ok (m', w') -> exists f : loc -> loc, m' = relocate f m.
Proof.
  unfold deepcopy. cbv zeta. intros E. injection E as <- _.
  eexists. reflexivity.
Qed.

Lemma mapM_deepcopy_relocated {M} `{NNModule M} (m : M) (l : list nat) :
  forall w ms w',
    mapM (fun _ => deepcopy m) l w = Ok (ms, w') ->
    forall a, In a ms -> exists f : loc -> loc, a = relocate f m.
Proof.
  induction l as [|k l IH]; intros w ms w' E; simpl in E.
  - injection E as <- _. intros a [].
  - apply bind_Ok_inv in E. destruct E as (m1 & w1 & E1 & E).
    apply bind_Ok_inv in E. destruct E as (ms' & w2 & E2 & E).
    injection E as <- _. intros a [<-|Ha].
    + eapply deepcopy_relocated. exact E1.
    + eapply IH; [exact E2 | exact Ha].
Qed.

Lemma clones_relocated {M} `{NNModule M} (m : M) (N : Z) (w : world)
  (ms : list M) (w' : world) :
  clones m N w = Ok (ms, w') ->
  length ms = Z.to_nat N /\
  forall a, In a ms -> exists f : loc -> loc, a = relocate f m.
Proof.
  unfold clones. intros E. split.
  - pose proof E as Hlen. apply mapM_length in Hlen. rewrite Hlen.
    unfold py_range. apply length_seq.
  - intros a Ha. eapply mapM_deepcopy_relocated; [exact E | exact Ha].
Qed.

Lemma attention_built_relocate (h d_model : Z) (rate : Q) (f : loc -> loc)
  (m : MultiHeadedAttention) :
  attention_built h d_model rate m ->
  attention_built h d_model rate (relocate f m).
Proof.
  intros (Hh & Hd & Hl & Hdrop). unfold attention_built. simpl.
  rewrite length_map. repeat split; assumption.
Qed.

Lemma sublayers_built_relocate (n : nat) (rate : Q) (f : loc -> loc)
  (l : list SublayerConnection) :
  sublayers_built n rate l -> sublayers_built n rate (relocate f l).
Proof.
  intros (Hlen & Hall). unfold sublayers_built. simpl.
  rewrite length_map. split; [exact Hlen|].
  apply Forall_map. eapply Forall_impl; [|exact Hall].
  intros s Hs. exact Hs.
Qed.

Lemma EncoderLayer_built_relocate (h d_model : Z) (rate : Q) (f : loc -> loc)
  (m : EncoderLayer) :
  EncoderLayer_built h d_model rate m ->
  EncoderLayer_built h d_model rate (relocate f m).
Proof.
  intros (Hs & Ha & Hf & Hsub). unfold EncoderLayer_built.
  split; [exact Hs|]. split; [apply attention_built_relocate; exact Ha|].
  split; [exact Hf|]. apply sublayers_built_relocate. exact Hsub.
Qed.

Lemma DecoderLayer_built_relocate (h d_model : Z) (rate : Q) (f : loc -> loc)
  (m : DecoderLayer) :
  DecoderLayer_built h d_model rate m ->
  DecoderLayer_built h d_model rate (relocate f m).
Proof.
  intros (Hs & Ha & Hb & Hf & Hsub). unfold DecoderLayer_built.
  split; [exact Hs|]. split; [apply attention_built_relocate; exact Ha|].
  split; [apply attention_built_relocate; exact Hb|].
  split; [exact Hf|]. apply sublayers_built_relocate. exact Hsub.
Qed.

Lemma MultiHeadedAttention_init_built (h d_model : Z) (rate : Q) (w : world)
  (m : MultiHeadedAttention) (w' : world) :
  MultiHeadedAttention_init h d_model rate w = Ok (m, w') ->
  attention_built h d_model rate m.
Proof.
  intros E. unfold MultiHeadedAttention_init in E.
  apply bind_Ok_inv in E. destruct E as (r & w0 & Er & E).
  unfold lift, py_mod in Er.
  destruct (Z.eqb_spec h 0) as [Hh|Hh]; [discriminate|]. injection Er as <- <-.
  destruct (Z.eqb_spec (d_model mod h) 0) as [Hmod|Hmod]; simpl in E;
    [|discriminate].
  apply bind_Ok_inv in E. destruct E as (d_k & w0' & Ed & E).
  unfold lift, py_floordiv in Ed.
  destruct (Z.eqb_spec h 0); [contradiction|]. injection Ed as <- <-.
  apply bind_Ok_inv in E. destruct E as (tpl & w1 & El & E).
  apply bind_Ok_inv in E. destruct E as (ls & w2 & Ec & E).
  apply bind_Ok_inv in E. destruct E as (attn & w3 & Ea & E).
  apply bind_Ok_inv in E. destruct E as (drop & w4 & Edrop & E).
  injection E as <- _.
  unfold nn_Dropout in Edrop.
  destruct (Qle_bool 0 rate && Qle_bool rate 1); [|discriminate].
  injection Edrop as <- _.
  pose proof Ec as Hc; apply clones_relocated in Hc; destruct Hc as [Hlen _].
  unfold attention_built. simpl.
  split; [reflexivity|]. split; [symmetry; apply Z.div_exact; assumption|].
  split; [exact Hlen | reflexivity].
Qed.

Lemma nn_Dropout_inv (p : Q) (w : world) (d : Dropout) (w' : world) :
  nn_Dropout p w = Ok (d, w') -> d = mkDropout p true.
Proof.
  unfold nn_Dropout. destruct (Qle_bool 0 p && Qle_bool p 1); [|discriminate].
  intros E. injection E as <- _. reflexivity.
Qed.

Lemma PositionwiseFeedForward_init_built (d_model d_ff : Z) (rate : Q)
  (w : world) (m : PositionwiseFeedForward) (w' : world) :
  PositionwiseFeedForward_init d_model d_ff rate w = Ok (m, w') ->
  ff_dropout m = mkDropout rate true.
Proof.
  intros E. unfold PositionwiseFeedForward_init in E.
  apply bind_Ok_inv in E. destruct E as (l1 & w1 & _ & E).
  apply bind_Ok_inv in E. destruct E as (l2 & w2 & _ & E).
  apply bind_Ok_inv in E. destruct E as (d & w3 & Ed & E).
  injection E as <- _. simpl. eapply nn_Dropout_inv; exact Ed.
Qed.

Lemma PositionalEncoding_init_built (d_model : Z) (rate : Q) (max_len : Z)
  (w : world) (m : PositionalEncoding) (w' : world) :
  PositionalEncoding_init d_model rate max_len w = Ok (m, w') ->
  pos_dropout m = mkDropout rate true.
Proof.
  intros E. unfold PositionalEncoding_init in E.
  apply bind_Ok_inv in E. destruct E as (d & w1 & Ed & E).
  destruct ((max_len <? 0) || (d_model <? 0))%Z; [discriminate|].
  destruct (d_model =? 0)%Z; [discriminate|].
  destruct (negb (expandable ((d_model + 1) / 2) ((d_model + 1) / 2)));
    [discriminate|].
  destruct (negb (expandable ((d_model + 1) / 2) (d_model / 2)));
    [discriminate|].
  apply bind_Ok_inv in E. destruct E as (pe & w2 & _ & E).
  injection E as <- _. simpl. eapply nn_Dropout_inv; exact Ed.
Qed.

Lemma SublayerConnection_clones_built (size : Z) (rate : Q) (n : Z)
  (w : world) (t : SublayerConnection) (w1 : world)
  (ms : list SublayerConnection) (w2 : world) :
  SublayerConnection_init size rate w = Ok (t, w1) ->
  clones t n w1 = Ok (ms, w2) ->
  sublayers_built (Z.to_nat n) rate ms.
Proof.
  intros Et Ec. unfold SublayerConnection_init in Et.
  apply bind_Ok_inv in Et. destruct Et as (norm & w0 & _ & Et).
  apply bind_Ok_inv in Et. destruct Et as (d & w0' & Ed & Et).
  injection Et as <- _.
  pose proof Ec as Hc; apply clones_relocated in Hc; destruct Hc as [Hlen Hrel].
  split; [exact Hlen|]. apply Forall_forall. intros s Hs.
  destruct (Hrel s Hs) as (f & ->). simpl. eapply nn_Dropout_inv; exact Ed.
Qed.

End Assembly.

(** X14: a model returned by [make_model(src_vocab, tgt_vocab, N, d_model,
    d_ff, h, dropout)] has [max(N, 0)] encoder layers and as many decoder
    layers; every encoder layer has two sublayer connections and every
    decoder layer three; every attention module has [h] heads with
    [h * d_k = d_model] and four projections; the embeddings scale by
    [d_model]; every dropout is in training mode, with the rate [dropout]
    in the sublayer connections, the feed-forward networks and the
    positional encodings, but with the rate 0.1 in every attention module,
    whatever [dropout] is: [make_model] does not pass it on. *)
Theorem make_model_assembles {T : Torch}
  (src_vocab tgt_vocab N d_model d_ff h : Z) (dropout : Q) (w : world)
  (model : EncoderDecoder) (w' : world) :
  make_model src_vocab tgt_vocab N d_model d_ff h dropout w = Ok (model, w') ->
  length (enc_layers (ed_encoder model)) = Z.to_nat N /\
  Forall (EncoderLayer_built h d_model dropout) (enc_layers (ed_encoder model)) /\
  length (dec_layers (ed_decoder model)) = Z.to_nat N /\
  Forall (DecoderLayer_built h d_model dropout) (dec_layers (ed_decoder model)) /\
  emb_d_model (seq_0 (ed_src_embed model)) = d_model /\
  emb_d_model (seq_0 (ed_tgt_embed model)) = d_model /\
  pos_dropout (seq_1 (ed_src_embed model)) = mkDropout dropout true /\
  pos_dropout (seq_1 (ed_tgt_embed model)) = mkDropout dropout true.
Proof.
  intros E. unfold make_model in E.
  apply bind_Ok_inv in E. destruct E as (attn & w1 & Eattn & E).
  apply bind_Ok_inv in E. destruct E as (ff & w2 & Eff & E).
  apply bind_Ok_inv in E. destruct E as (position & w3 & Epos & E).
  apply bind_Ok_inv in E. destruct E as (a & w4 & Ea & E).
  apply bind_Ok_inv in E. destruct E as (f & w5 & Ef & E).
  apply bind_Ok_inv in E. destruct E as (elayer & w6 & Eel & E).
  apply bind_Ok_inv in E. destruct E as (encoder & w7 & Eenc & E).
  apply bind_Ok_inv in E. destruct E as (a1 & w8 & Ea1 & E).
  apply bind_Ok_inv in E. destruct E as (a2 & w9 & Ea2 & E).
  apply bind_Ok_inv in E. destruct E as (f' & w10 & Ef' & E).
  apply bind_Ok_inv in E. destruct E as (dlayer & w11 & Edl & E).
  apply bind_Ok_inv in E. destruct E as (decoder & w12 & Edec & E).
  apply bind_Ok_inv in E. destruct E as (src_emb & w13 & Esrc & E).
  apply bind_Ok_inv in E. destruct E as (src_pos & w14 & Esp & E).
  apply bind_Ok_inv in E. destruct E as (tgt_emb & w15 & Etgt & E).
  apply bind_Ok_inv in E. destruct E as (tgt_pos & w16 & Etp & E).
  apply bind_Ok_inv in E. destruct E as (generator & w17 & Egen & E).
  cbv zeta in E.
  apply bind_Ok_inv in E. destruct E as (u & w18 & _ & E).
  injection E as <- _. cbn [ed_encoder ed_decoder ed_src_embed ed_tgt_embed
                            seq_0 seq_1].
  pose proof Eattn as Hattn; apply MultiHeadedAttention_init_built in Hattn.
  pose proof Eff as Hff; apply PositionwiseFeedForward_init_built in Hff.
  pose proof Epos as Hpos; apply PositionalEncoding_init_built in Hpos.
  (* the encoder *)
  assert (Hel : EncoderLayer_built h d_model dropout elayer).
  { unfold EncoderLayer_init in Eel.
    apply bind_Ok_inv in Eel. destruct Eel as (t & v1 & Et & Eel).
    apply bind_Ok_inv in Eel. destruct Eel as (ms & v2 & Ec & Eel).
    injection Eel as <- _.
    apply deepcopy_relocated in Ea; destruct Ea as (fa & ->).
    apply deepcopy_relocated in Ef; destruct Ef as (ff' & ->).
    split; [reflexivity|]. split; [apply attention_built_relocate; exact Hattn|].
    split; [exact Hff|].
    exact (@SublayerConnection_clones_built T _ _ _ _ _ _ _ _ Et Ec). }
  assert (Henc : length (enc_layers encoder) = Z.to_nat N /\
                 Forall (EncoderLayer_built h d_model dropout) (enc_layers encoder)).
  { unfold Encoder_init in Eenc.
    apply bind_Ok_inv in Eenc. destruct Eenc as (ls & v1 & Ec & Eenc).
    apply bind_Ok_inv in Eenc. destruct Eenc as (norm & v2 & _ & Eenc).
    injection Eenc as <- _. simpl.
    pose proof Ec as Hc; apply clones_relocated in Hc; destruct Hc as [Hlen Hrel].
    split; [exact Hlen|]. apply Forall_forall. intros l Hl.
    destruct (Hrel l Hl) as (fl & ->).
    apply EncoderLayer_built_relocate. exact Hel. }
  (* the decoder *)
  assert (Hdl : DecoderLayer_built h d_model dropout dlayer).
  { unfold DecoderLayer_init in Edl.
    apply bind_Ok_inv in Edl. destruct Edl as (t & v1 & Et & Edl).
    apply bind_Ok_inv in Edl. destruct Edl as (ms & v2 & Ec & Edl).
    injection Edl as <- _.
    apply deepcopy_relocated in Ea1; destruct Ea1 as (fa1 & ->).
    apply deepcopy_relocated in Ea2; destruct Ea2 as (fa2 & ->).
    apply deepcopy_relocated in Ef'; destruct Ef' as (ff' & ->).
    split; [reflexivity|]. split; [apply attention_built_relocate; exact Hattn|].
    split; [apply attention_built_relocate; exact Hattn|].
    split; [exact Hff|].
    exact (@SublayerConnection_clones_built T _ _ _ _ _ _ _ _ Et Ec). }
  assert (Hdec : length (dec_layers decoder) = Z.to_nat N /\
                 Forall (DecoderLayer_built h d_model dropout) (dec_layers decoder)).
  { unfold Decoder_init in Edec.
    apply bind_Ok_inv in Edec. destruct Edec as (ls & v1 & Ec & Edec).
    apply bind_Ok_inv in Edec. destruct Edec as (norm & v2 & _ & Edec).
    injection Edec as <- _. simpl.
    pose proof Ec as Hc; apply clones_relocated in Hc; destruct Hc as [Hlen Hrel].
    split; [exact Hlen|]. apply Forall_forall. intros l Hl.
    destruct (Hrel l Hl) as (fl & ->).
    apply DecoderLayer_built_relocate. exact Hdl. }
  (* the embeddings *)
  assert (Hemb : forall vocab v0 e v1,
             Embeddings_init d_model vocab v0 = Ok (e, v1) ->
             emb_d_model e = d_model).
  { intros vocab v0 e v1 Ee. unfold Embeddings_init in Ee.
    apply bind_Ok_inv in Ee. destruct Ee as (lut & v2 & _ & Ee).
    injection Ee as <- _. reflexivity. }
  apply deepcopy_relocated in Esp; destruct Esp as (fsp & ->).
  apply deepcopy_relocated in Etp; destruct Etp as (ftp & ->).
  destruct Henc as [Henc1 Henc2]. destruct Hdec as [Hdec1 Hdec2].
  split; [exact Henc1|]. split; [exact Henc2|].
  split; [exact Hdec1|]. split; [exact Hdec2|].
  split; [exact (Hemb _ _ _ _ Esrc)|]. split; [exact (Hemb _ _ _ _ Etgt)|].
  split; exact Hpos.
Qed.

Lemma make_model_assembles_witness :
  exists (model : EncoderDecoder) (w' : world),
    @make_model RealTorch 3 3 2 4 8 2 (1 # 2) empty_world = Ok (model, w') /\
    length (enc_layers (ed_encoder model)) = 2 /\
    Forall (EncoderLayer_built 2 4 (1 # 2)) (enc_layers (ed_encoder model)).
Proof.
  destruct (@make_model_total RealTorch 3 3 2 4 8 2 (1 # 2)
              ltac:(lia) eq_refl ltac:(lia) ltac:(lia) ltac:(lia)
              eq_refl eq_refl empty_world) as (model & w' & E).
  exists model, w'. split; [exact E|].
  destruct (@make_model_assembles RealTorch 3 3 2 4 8 2 (1 # 2) empty_world
              model w' E) as (Hlen & Hall & _).
  split; [exact Hlen | exact Hall].
Defined.

(** ** Shapes through the multi-head attention *)

(** X15: over the reals, in evaluation mode, for an attention module with
    [h >= 1] heads of width [d_k >= 1] whose four projections have weights
    of shape [(h * d_k, h * d_k)]: on a query of shape [(B, Sq, h * d_k)]
    and a key and a value of shape [(B, Sk, h * d_k)], with [B, Sq, Sk >= 1]
    and a mask that broadcasts against the scores,
    [MultiHeadedAttention.forward] returns a tensor of the shape of the
    query, and leaves in [attn] weights of shape [(B, h, Sq, Sk)]. *)
Theorem MultiHeadedAttention_forward_shapes
  (self : MultiHeadedAttention) (query key value : tensor R)
  (mask : option (tensor bool)) (w : world) (lq lk lv lo : Linear)
  (B Sq Sk hN dk : nat) :
  mha_linears self = [lq; lk; lv; lo] ->
  training (mha_dropout self) = false ->
  mha_h self = Z.of_nat hN -> mha_d_k self = Z.of_nat dk ->
  0 < B -> 0 < hN -> 0 < dk -> 0 < Sq -> 0 < Sk ->
  shape query = [B; Sq; hN * dk] ->
  shape key = [B; Sk; hN * dk] ->
  shape value = [B; Sk; hN * dk] ->
  mask_fits B Sq Sk mask ->
  (forall l, In l [lq; lk; lv; lo] ->
             shape (tensors w (weight l)) = [hN * dk; hN * dk]) ->
  exists (out p_attn : tensor R) (w' : world),
    @MultiHeadedAttention_forward RealTorch self query key value mask w
    = Ok (out, w') /\
    shape out = shape query /\
    attrs w' (mha_attn self) = Some p_attn /\
    shape p_attn = [B; hN; Sq; Sk].
Proof.
  intros Hl Htr Hh Hd HB HhN Hdk _ _ Hq Hk Hv _ HW.
  rewrite (@MultiHeadedAttention_forward_eval self query key value mask w
             lq lk lv lo Hl Htr).
  destruct (@MultiHeadedAttention_output_shape self query key value mask w
              lq lk lv lo B Sq Sk hN dk Hh Hd HB HhN Hdk Hq Hk Hv HW)
    as [Hout Hp].
  eexists _, _, _. split; [reflexivity|].
  split; [rewrite Hq; exact Hout|]. split; [|exact Hp].
  cbn [attrs]. rewrite Nat.eqb_refl. reflexivity.
Qed.

Lemma example_projection_shapes (l : Linear) :
  In l [example_linear 0; example_linear 1; example_linear 2; example_linear 3] ->
  shape (tensors example_world (weight l)) = [1 * 2; 1 * 2].
Proof.
  intros H. simpl in H.
  repeat (destruct H as [<-|H]; [reflexivity|]). contradiction.
Qed.

Lemma MultiHeadedAttention_forward_shapes_witness :
  (mha_linears example_self_attn
   = [example_linear 0; example_linear 1; example_linear 2; example_linear 3] /\
   training (mha_dropout example_self_attn) = false /\
   mha_h example_self_attn = Z.of_nat 1 /\
   mha_d_k example_self_attn = Z.of_nat 2 /\
   0 < 1 /\ 0 < 2 /\ 0 < 3 /\
   shape (zeros [1; 3; 2]) = [1; 3; 1 * 2] /\
   shape (zeros [1; 2; 2]) = [1; 2; 1 * 2] /\
   mask_fits 1 3 2 None) /\
  exists (out p_attn : tensor R) (w' : world),
    @MultiHeadedAttention_forward RealTorch example_self_attn
       (zeros [1; 3; 2]) (zeros [1; 2; 2]) (zeros [1; 2; 2]) None example_world
    = Ok (out, w') /\
    shape out = [1; 3; 2] /\
    attrs w' (mha_attn example_self_attn) = Some p_attn /\
    shape p_attn = [1; 1; 3; 2].
Proof.
  assert (H1 : mha_linears example_self_attn
               = [example_linear 0; example_linear 1; example_linear 2;
                  example_linear 3]) by reflexivity.
  assert (H2 : training (mha_dropout example_self_attn) = false) by reflexivity.
  assert (H3 : mha_h example_self_attn = Z.of_nat 1) by reflexivity.
  assert (H4 : mha_d_k example_self_attn = Z.of_nat 2) by reflexivity.
  assert (H5 : 0 < 1) by lia.
  assert (H6 : 0 < 2) by lia.
  assert (H7 : shape (zeros [1; 3; 2]) = [1; 3; 1 * 2]) by reflexivity.
  assert (H8 : shape (zeros [1; 2; 2]) = [1; 2; 1 * 2]) by reflexivity.
  assert (H9 : 0 < 3) by lia.
  split.
  { split; [exact H1|]. split; [exact H2|]. split; [exact H3|].
    split; [exact H4|]. split; [exact H5|]. split; [exact H6|].
    split; [exact H9|]. split; [exact H7|]. split; [exact H8 | exact I]. }
  exact (@MultiHeadedAttention_forward_shapes example_self_attn
           (zeros [1; 3; 2]) (zeros [1; 2; 2]) (zeros [1; 2; 2]) None
           example_world (example_linear 0) (example_linear 1)
           (example_linear 2) (example_linear 3) 1 3 2 1 2
           H1 H2 H3 H4 H5 H5 H6 H9 H6 H7 H8 H8 I example_projection_shapes).
Defined.

(** ** An embedding and its vocabulary *)

Lemma Embeddings_init_real (d_model vocab : Z) (w : world) :
  (0 <= d_model)%Z -> (0 <= vocab)%Z ->
  exists (self : Embeddings) (w' : world),
    @Embeddings_init RealTorch d_model vocab w = Ok (self, w') /\
    emb_d_model self = d_model /\
    shape (tensors w' (emb_weight (emb_lut self)))
    = [Z.to_nat vocab; Z.to_nat d_model].
Proof.
  intros Hd Hv. unfold Embeddings_init, nn_Embedding.
  destruct (Z.ltb_spec vocab 0); [lia|].
  destruct (Z.ltb_spec d_model 0); [lia|]. simpl orb. cbv iota.
  unfold bind. rewrite with_rng_Ok. unfold new_tensor. cbv beta iota zeta.
  eexists _, _. split; [reflexivity|]. cbn.
  split; [reflexivity|]. now rewrite Nat.eqb_refl.
Qed.

(** X16: over the reals, [Embeddings(d_model, vocab)] with non-negative
    arguments is constructed, and its [forward] then accepts exactly the
    token ids of the vocabulary: when every id lies in [0, vocab) it returns
    a tensor of the shape of the input with one more axis of length
    [d_model]; when some id lies outside, it raises [IndexError].  A
    negative [d_model] or [vocab] is a [RuntimeError] at construction. *)
Theorem Embeddings_init_then_forward_accepts_exactly_the_vocabulary
  (d_model vocab : Z) (x : tensor Z) (w : world) :
  ((d_model < 0 \/ vocab < 0)%Z ->
   @Embeddings_init RealTorch d_model vocab w = Raise RuntimeError) /\
  ((0 <= d_model)%Z -> (0 <= vocab)%Z ->
   exists (self : Embeddings) (w' : world),
     @Embeddings_init RealTorch d_model vocab w = Ok (self, w') /\
     ((forall idx, valid_index (shape x) idx -> (0 <= get x idx < vocab)%Z) ->
      exists out : tensor R,
        @Embeddings_forward RealTorch self x w' = Ok (out, w') /\
        shape out = shape x ++ [Z.to_nat d_model]) /\
     (forall idx, valid_index (shape x) idx -> ~ (0 <= get x idx < vocab)%Z ->
        @Embeddings_forward RealTorch self x w' = Raise IndexError)).
Proof.
  split.
  - intros Hneg. unfold Embeddings_init, nn_Embedding.
    destruct (Z.ltb_spec vocab 0); destruct (Z.ltb_spec d_model 0);
      try reflexivity; lia.
  - intros Hd Hv.
    destruct (@Embeddings_init_real d_model vocab w Hd Hv)
      as (self & w' & E & Hdm & HW).
    exists self, w'. split; [exact E|]. split.
    + intros Hrange.
      assert (Hrange' : forall idx, valid_index (shape x) idx ->
                (0 <= get x idx
                 < Z.of_nat (nth 0%nat
                     (shape (tensors w' (emb_weight (emb_lut self)))) 0%nat))%Z).
      { intros idx Hidx. rewrite HW. cbn [nth]. rewrite Z2Nat.id by exact Hv.
        apply Hrange. exact Hidx. }
      eexists. split.
      * apply (@Embeddings_forward_eval self x w');
          [rewrite Hdm; exact Hd | exact Hrange'].
      * cbn [shape r_map]. rewrite HW. reflexivity.
    + intros idx Hidx Hout.
      unfold Embeddings_forward, Embedding_forward.
      unfold bind at 1. unfold bind at 1. unfold read_tensor.
      change (@t_embedding RealTorch x (tensors w' (emb_weight (emb_lut self))))
        with (r_embedding x (tensors w' (emb_weight (emb_lut self)))).
      rewrite (@r_embedding_out_of_range x _ idx Hidx); [reflexivity|].
      rewrite HW. cbn [nth]. rewrite Z2Nat.id by exact Hv. exact Hout.
Qed.

Lemma Embeddings_init_then_forward_accepts_exactly_the_vocabulary_witness :
  ((0 <= 4)%Z /\ (0 <= 3)%Z /\
   forall idx, valid_index (shape example_ids) idx ->
               (0 <= get example_ids idx < 3)%Z) /\
  exists (self : Embeddings) (w' : world) (out : tensor R),
    @Embeddings_init RealTorch 4 3 empty_world = Ok (self, w') /\
    @Embeddings_forward RealTorch self example_ids w' = Ok (out, w') /\
    shape out = [1; 2; 4].
Proof.
  assert (H1 : (0 <= 4)%Z) by lia.
  assert (H2 : (0 <= 3)%Z) by lia.
  assert (H3 : forall idx, valid_index (shape example_ids) idx ->
                 (0 <= get example_ids idx < 3)%Z).
  { intros idx H. simpl in *.
    inversion H as [|i s idx' shp Hi H']; subst.
    inversion H' as [|j s' idx'' shp' Hj H'']; subst.
    inversion H''; subst. simpl. lia. }
  split; [split; [exact H1 | split; [exact H2 | exact H3]]|].
  destruct (proj2 (@Embeddings_init_then_forward_accepts_exactly_the_vocabulary
                     4 3 example_ids empty_world) H1 H2)
    as (self & w' & E & Hin & _).
  destruct (Hin H3) as (out & E' & Hshape).
  exists self, w', out. repeat split; assumption.
Defined.

(** ** Shapes through the layers *)

Lemma bshape_refl (s : list nat) : bshape s s = s.
Proof.
  rewrite bshape_same_length by reflexivity.
  induction s as [|a s IH]; simpl; [reflexivity|].
  rewrite IH. destruct (a =? 1); reflexivity.
Qed.

Lemma bshape_vector_r (n : nat) (shp : list nat) :
  shp <> [] -> nth (length shp - 1) shp 0 = n -> bshape shp [n] = shp.
Proof.
  intros Hne Hn. unfold bshape, pad_left. simpl length.
  replace (Nat.max (length shp) 1) with (length shp)
    by (destruct shp; [contradiction | simpl; lia]).
  rewrite Nat.sub_diag. simpl repeat. rewrite app_nil_l.
  revert Hn. clear Hne. induction shp as [|s shp IH]; intros Hn; [reflexivity|].
  destruct shp as [|s' shp].
  - simpl in *. subst. destruct (Nat.eqb_spec n 1); auto.
  - replace (length (s :: s' :: shp) - 1) with (S (length (s' :: shp) - 1))
      in * by (simpl; lia).
    simpl nth in Hn. specialize (IH Hn).
    change (repeat 1 (S (length (s' :: shp) - 1)))
      with (1 :: repeat 1 (length (s' :: shp) - 1)).
    simpl app. simpl combine. cbn [map].
    f_equal; [destruct (Nat.eqb_spec s 1); auto | exact IH].
Qed.

Lemma LayerNorm_value_shape (w : @world RealTorch) (norm : LayerNorm)
  (y : tensor R) (d : nat) :
  shape y <> [] -> nth (length (shape y) - 1) (shape y) 0 = d ->
  LayerNorm_shaped (tensors w) d norm ->
  shape (LayerNorm_value w norm y) = shape y.
Proof.
  intros Hne Hd [Ha Hb].
  unfold LayerNorm_value, r_zip, r_map, r_mean, r_std. cbn [shape].
  rewrite Ha, Hb. rewrite !bshape_keepdim.
  rewrite (@bshape_vector d (shape y) Hne Hd).
  rewrite !bshape_keepdim.
  apply bshape_vector_r; assumption.
Qed.

Lemma r_linear_shape3 (x W b : tensor R) (B S inp out inp' : nat) :
  shape x = [B; S; inp] -> shape W = [out; inp'] ->
  shape (r_linear x W b) = [B; S; out].
Proof.
  intros Hx HW. unfold r_linear. cbn [shape]. rewrite Hx, HW. reflexivity.
Qed.

Lemma residual_shape (w : @world RealTorch) (norm : LayerNorm)
  (x s : tensor R) (B S d : nat) :
  shape x = [B; S; d] -> shape s = [B; S; d] ->
  LayerNorm_shaped (tensors w) d norm ->
  shape (r_zip Rplus x (LayerNorm_value w norm s)) = [B; S; d].
Proof.
  intros Hx Hs Hn. unfold r_zip. cbn [shape].
  rewrite (@LayerNorm_value_shape w norm s d);
    [| rewrite Hs; discriminate | rewrite Hs; reflexivity | exact Hn].
  rewrite Hx, Hs. apply bshape_refl.
Qed.

Lemma PositionwiseFeedForward_output_shape (w : @world RealTorch)
  (self : PositionwiseFeedForward) (x : tensor R) (B S d : nat) :
  PositionwiseFeedForward_shaped (tensors w) d self ->
  shape x = [B; S; d] ->
  shape (r_linear
           (r_map (Rmax 0)
              (r_linear x (tensors w (weight (ff_w_1 self)))
                        (tensors w (bias (ff_w_1 self)))))
           (tensors w (weight (ff_w_2 self))) (tensors w (bias (ff_w_2 self))))
  = [B; S; d].
Proof.
  intros (d_ff & [H1 _] & [H2 _]) Hx.
  eapply r_linear_shape3; [|exact H2].
  unfold r_map. cbn [shape]. eapply r_linear_shape3; [exact Hx | exact H1].
Qed.

(** In evaluation mode, a multi-head attention over well-shaped parameters
    returns a tensor of the shape of its query and writes no tensor. *)
Lemma MultiHeadedAttention_forward_keeps_shape
  (self : MultiHeadedAttention) (query key : tensor R)
  (mask : option (tensor bool)) (w : world) (B Sq Sk hN dk : nat) :
  MultiHeadedAttention_shaped (tensors w) hN dk self ->
  training (mha_dropout self) = false ->
  0 < B -> 0 < hN -> 0 < dk ->
  shape query = [B; Sq; hN * dk] -> shape key = [B; Sk; hN * dk] ->
  exists (out : tensor R) (w' : world),
    @MultiHeadedAttention_forward RealTorch self query key key mask w
    = Ok (out, w') /\
    shape out = [B; Sq; hN * dk] /\ tensors w' = tensors w.
Proof.
  intros Hshaped Htr HB HhN Hdk Hq Hk.
  destruct (four_linears Hshaped) as (lq & lk & lv & lo & Hl & HW).
  destruct Hshaped as (Hh & Hd & _).
  rewrite (@MultiHeadedAttention_forward_eval self query key key mask w
             lq lk lv lo Hl Htr).
  destruct (@MultiHeadedAttention_output_shape self query key key mask w
              lq lk lv lo B Sq Sk hN dk Hh Hd HB HhN Hdk Hq Hk Hk HW)
    as [Hout _].
  eexists _, _. split; [reflexivity|]. split; [exact Hout | reflexivity].
Qed.

Lemma EncoderLayer_forward_keeps_shape (self : EncoderLayer) (x : tensor R)
  (mask : option (tensor bool)) (w : world) (B S hN dk : nat) :
  EncoderLayer_shaped (tensors w) hN dk self -> EncoderLayer_eval self ->
  0 < B -> 0 < hN -> 0 < dk ->
  shape x = [B; S; hN * dk] ->
  exists (out : tensor R) (w' : world),
    @EncoderLayer_forward RealTorch self x mask w = Ok (out, w') /\
    shape out = [B; S; hN * dk] /\ tensors w' = tensors w.
Proof.
  intros (Hattn & Hff & Hlen & Hnorms) (Tattn & Tff & Tsub) HB HhN Hdk Hx.
  destruct (el_sublayer self) as [|s0 [|s1 [|? ?]]] eqn:Hsub; try discriminate.
  inversion Hnorms as [|? ? Hn0 Hnorms']; subst.
  inversion Hnorms' as [|? ? Hn1 _]; subst.
  inversion Tsub as [|? ? T0 Tsub']; subst.
  inversion Tsub' as [|? ? T1 _]; subst.
  destruct (@MultiHeadedAttention_forward_keeps_shape (el_self_attn self) x x
              mask w B S S hN dk Hattn Tattn HB HhN Hdk Hx Hx)
    as (a & w1 & Ea & Hsa & Htn).
  unfold EncoderLayer_forward. rewrite Hsub. unfold item at 1. simpl nth_error.
  unfold bind at 1. unfold ret at 1.
  rewrite (bind_Ok _ _ _
             (@SublayerConnection_forward_eval s0 x _ w w1 a T0 Ea)).
  unfold item at 1. simpl nth_error. unfold bind at 1. unfold ret at 1.
  assert (Hx1 : shape (r_zip Rplus x (LayerNorm_value w1 (sc_norm s0) a))
                = [B; S; hN * dk])
    by (apply residual_shape; [exact Hx | exact Hsa | rewrite Htn; exact Hn0]).
  rewrite (bind_Ok _ _ _
             (@SublayerConnection_forward_eval s1 _ _ w1 w1 _ T1
                (@PositionwiseFeedForward_forward_eval (el_feed_forward self)
                   _ w1 Tff))).
  eexists _, _. split; [reflexivity|]. split; [|exact Htn].
  apply residual_shape; [exact Hx1 | | rewrite Htn; exact Hn1].
  apply PositionwiseFeedForward_output_shape; [rewrite Htn; exact Hff | exact Hx1].
Qed.

Lemma DecoderLayer_forward_keeps_shape (self : DecoderLayer)
  (x memory : tensor R) (src_mask tgt_mask : option (tensor bool)) (w : world)
  (B S T' hN dk : nat) :
  DecoderLayer_shaped (tensors w) hN dk self -> DecoderLayer_eval self ->
  0 < B -> 0 < hN -> 0 < dk ->
  shape x = [B; T'; hN * dk] -> shape memory = [B; S; hN * dk] ->
  exists (out : tensor R) (w' : world),
    @DecoderLayer_forward RealTorch self x memory src_mask tgt_mask w
    = Ok (out, w') /\
    shape out = [B; T'; hN * dk] /\ tensors w' = tensors w.
Proof.
  intros (Hself & Hsrc & Hff & Hlen & Hnorms) (Tself & Tsrc & Tff & Tsub)
         HB HhN Hdk Hx Hm.
  destruct (dl_sublayer self) as [|s0 [|s1 [|s2 [|? ?]]]] eqn:Hsub;
    try discriminate.
  inversion Hnorms as [|? ? Hn0 Hnorms']; subst.
  inversion Hnorms' as [|? ? Hn1 Hnorms'']; subst.
  inversion Hnorms'' as [|? ? Hn2 _]; subst.
  inversion Tsub as [|? ? T0 Tsub']; subst.
  inversion Tsub' as [|? ? T1 Tsub'']; subst.
  inversion Tsub'' as [|? ? T2 _]; subst.
  destruct (@MultiHeadedAttention_forward_keeps_shape (dl_self_attn self) x x
              tgt_mask w B T' T' hN dk Hself Tself HB HhN Hdk Hx Hx)
    as (a & w1 & Ea & Hsa & Htn1).
  unfold DecoderLayer_forward. rewrite Hsub. unfold item at 1. simpl nth_error.
  unfold bind at 1. unfold ret at 1.
  rewrite (bind_Ok _ _ _
             (@SublayerConnection_forward_eval s0 x _ w w1 a T0 Ea)).
  unfold item at 1. simpl nth_error. unfold bind at 1. unfold ret at 1.
  set (x1 := r_zip Rplus x (LayerNorm_value w1 (sc_norm s0) a)).
  assert (Hx1 : shape x1 = [B; T'; hN * dk])
    by (apply residual_shape; [exact Hx | exact Hsa | rewrite Htn1; exact Hn0]).
  destruct (@MultiHeadedAttention_forward_keeps_shape (dl_src_attn self) x1
              memory src_mask w1 B T' S hN dk
              ltac:(rewrite Htn1; exact Hsrc) Tsrc HB HhN Hdk Hx1 Hm)
    as (c & w2 & Ec & Hsc & Htn2).
  rewrite (bind_Ok _ _ _
             (@SublayerConnection_forward_eval s1 x1 _ w1 w2 c T1 Ec)).
  unfold item at 1. simpl nth_error. unfold bind at 1. unfold ret at 1.
  set (x2 := r_zip Rplus x1 (LayerNorm_value w2 (sc_norm s1) c)).
  assert (Htn : tensors w2 = tensors w) by (rewrite Htn2; exact Htn1).
  assert (Hx2 : shape x2 = [B; T'; hN * dk])
    by (apply residual_shape; [exact Hx1 | exact Hsc | rewrite Htn; exact Hn1]).
  rewrite (@SublayerConnection_forward_eval s2 x2 _ w2 w2 _ T2
             (@PositionwiseFeedForward_forward_eval (dl_feed_forward self)
                x2 w2 Tff)).
  eexists _, _. split; [reflexivity|]. split; [|exact Htn].
  apply residual_shape; [exact Hx2 | | rewrite Htn; exact Hn2].
  apply PositionwiseFeedForward_output_shape; [rewrite Htn; exact Hff | exact Hx2].
Qed.

Lemma LayerNorm_forward_keeps_shape (self : LayerNorm) (x : tensor R)
  (w : world) (B S d : nat) :
  LayerNorm_shaped (tensors w) d self -> shape x = [B; S; d] ->
  exists out : tensor R,
    @LayerNorm_forward RealTorch self x w = Ok (out, w) /\
    shape out = [B; S; d].
Proof.
  intros Hn Hx. exists (LayerNorm_value w self x). split; [reflexivity|].
  rewrite (@LayerNorm_value_shape w self x d);
    [exact Hx | rewrite Hx; discriminate | rewrite Hx; reflexivity | exact Hn].
Qed.

Lemma Encoder_forward_keeps_shape (self : Encoder) (x : tensor R)
  (mask : option (tensor bool)) (w : world) (B S hN dk : nat) :
  Forall (EncoderLayer_shaped (tensors w) hN dk) (enc_layers self) ->
  LayerNorm_shaped (tensors w) (hN * dk) (enc_norm self) ->
  Forall EncoderLayer_eval (enc_layers self) ->
  0 < B -> 0 < hN -> 0 < dk ->
  shape x = [B; S; hN * dk] ->
  exists (out : tensor R) (w' : world),
    @Encoder_forward RealTorch self x mask w = Ok (out, w') /\
    shape out = [B; S; hN * dk] /\ tensors w' = tensors w.
Proof.
  intros Hlayers Hnorm Heval HB HhN Hdk Hx.
  assert (Hfold : exists (y : tensor R) (w1 : world),
             foldM (fun layer x => @EncoderLayer_forward RealTorch layer x mask)
                   (enc_layers self) x w = Ok (y, w1) /\
             shape y = [B; S; hN * dk] /\ tensors w1 = tensors w).
  { revert x w Hlayers Hnorm Hx.
    induction Heval as [|layer layers He _ IH]; intros x w Hlayers Hnorm Hx.
    - exists x, w. split; [reflexivity|]. split; [exact Hx | reflexivity].
    - inversion Hlayers as [|? ? Hl Hls]; subst.
      destruct (@EncoderLayer_forward_keeps_shape layer x mask w B S hN dk
                  Hl He HB HhN Hdk Hx) as (y & w1 & Ey & Hy & Htn).
      destruct (IH y w1 ltac:(rewrite Htn; exact Hls)
                   ltac:(rewrite Htn; exact Hnorm) Hy)
        as (z & w2 & Ez & Hz & Htn2).
      exists z, w2. split; [|split; [exact Hz | congruence]].
      simpl foldM. rewrite (bind_Ok _ _ _ Ey). exact Ez. }
  destruct Hfold as (y & w1 & Ey & Hy & Htn).
  destruct (@LayerNorm_forward_keeps_shape (enc_norm self) y w1 B S (hN * dk)
              ltac:(rewrite Htn; exact Hnorm) Hy) as (out & Eout & Hout).
  exists out, w1. split; [|split; [exact Hout | exact Htn]].
  unfold Encoder_forward. rewrite (bind_Ok _ _ _ Ey). exact Eout.
Qed.

Lemma Decoder_forward_keeps_shape (self : Decoder) (x memory : tensor R)
  (src_mask tgt_mask : option (tensor bool)) (w : world)
  (B S T' hN dk : nat) :
  Forall (DecoderLayer_shaped (tensors w) hN dk) (dec_layers self) ->
  LayerNorm_shaped (tensors w) (hN * dk) (dec_norm self) ->
  Forall DecoderLayer_eval (dec_layers self) ->
  0 < B -> 0 < hN -> 0 < dk ->
  shape x = [B; T'; hN * dk] -> shape memory = [B; S; hN * dk] ->
  exists (out : tensor R) (w' : world),
    @Decoder_forward RealTorch self x memory src_mask tgt_mask w = Ok (out, w') /\
    shape out = [B; T'; hN * dk] /\ tensors w' = tensors w.
Proof.
  intros Hlayers Hnorm Heval HB HhN Hdk Hx Hm.
  assert (Hfold : exists (y : tensor R) (w1 : world),
             foldM (fun layer x =>
                      @DecoderLayer_forward RealTorch layer x memory
                                            src_mask tgt_mask)
                   (dec_layers self) x w = Ok (y, w1) /\
             shape y = [B; T'; hN * dk] /\ tensors w1 = tensors w).
  { revert x w Hlayers Hnorm Hx.
    induction Heval as [|layer layers He _ IH]; intros x w Hlayers Hnorm Hx.
    - exists x, w. split; [reflexivity|]. split; [exact Hx | reflexivity].
    - inversion Hlayers as [|? ? Hl Hls]; subst.
      destruct (@DecoderLayer_forward_keeps_shape layer x memory src_mask
                  tgt_mask w B S T' hN dk Hl He HB HhN Hdk Hx Hm)
        as (y & w1 & Ey & Hy & Htn).
      destruct (IH y w1 ltac:(rewrite Htn; exact Hls)
                   ltac:(rewrite Htn; exact Hnorm) Hy)
        as (z & w2 & Ez & Hz & Htn2).
      exists z, w2. split; [|split; [exact Hz | congruence]].
      simpl foldM. rewrite (bind_Ok _ _ _ Ey). exact Ez. }
  destruct Hfold as (y & w1 & Ey & Hy & Htn).
  destruct (@LayerNorm_forward_keeps_shape (dec_norm self) y w1 B T' (hN * dk)
              ltac:(rewrite Htn; exact Hnorm) Hy) as (out & Eout & Hout).
  exists out, w1. split; [|split; [exact Hout | exact Htn]].
  unfold Decoder_forward. rewrite (bind_Ok _ _ _ Ey). exact Eout.
Qed.

Lemma Sequential_forward_shape (self : Sequential) (x : tensor Z) (w : world)
  (B S d vocab max_len : nat) :
  Sequential_shaped (tensors w) d vocab max_len self ->
  training (pos_dropout (seq_1 self)) = false ->
  shape x = [B; S] -> S <= max_len -> ids_within vocab x ->
  exists out : tensor R,
    @Sequential_forward RealTorch self x w = Ok (out, w) /\
    shape out = [B; S; d].
Proof.
  intros (Hd & HW & Hpe) Htr Hx HS Hids.
  assert (Hrange : forall idx, valid_index (shape x) idx ->
            (0 <= get x idx
             < Z.of_nat (nth 0%nat
                 (shape (tensors w (emb_weight (emb_lut (seq_0 self))))) 0%nat))%Z).
  { intros idx Hidx. rewrite HW. cbn [nth]. apply Hids. exact Hidx. }
  unfold Sequential_forward.
  rewrite (bind_Ok _ _ _ (@Embeddings_forward_eval (seq_0 self) x w Hd Hrange)).
  rewrite PositionalEncoding_forward_eval by exact Htr.
  eexists. split; [reflexivity|].
  unfold r_zip, r_slice1, r_size, r_map. cbn [shape].
  rewrite HW, Hpe, Hx. cbn [app nth length].
  change (norm_dim 3 1) with 1. cbn [nth set_nth].
  rewrite Nat2Z.id. replace (Nat.min S max_len) with S by lia.
  apply bshape_batch1.
Qed.

(** X17: over the reals, in evaluation mode, for an encoder and a decoder
    whose layers have two, respectively three, sublayer connections and
    four projections in each attention module, with parameters of the
    shapes of a model of dimension [h * d_k] ([h >= 1] heads of width
    [d_k >= 1]): on a batch of [B >= 1] non-empty sequences,
    [Encoder.forward] maps an input of shape [(B, S, h * d_k)] to a memory
    of the same shape, and [Decoder.forward] maps an input of shape
    [(B, T, h * d_k)] and that memory to an output of shape
    [(B, T, h * d_k)], for masks that broadcast against the scores; no
    tensor of the store is written. *)
Theorem Encoder_and_Decoder_forward_keep_the_shape
  (enc : Encoder) (dec : Decoder) (x y : tensor R)
  (src_mask tgt_mask : option (tensor bool)) (w : world)
  (B S T' hN dk : nat) :
  Forall (EncoderLayer_shaped (tensors w) hN dk) (enc_layers enc) ->
  LayerNorm_shaped (tensors w) (hN * dk) (enc_norm enc) ->
  Forall EncoderLayer_eval (enc_layers enc) ->
  Forall (DecoderLayer_shaped (tensors w) hN dk) (dec_layers dec) ->
  LayerNorm_shaped (tensors w) (hN * dk) (dec_norm dec) ->
  Forall DecoderLayer_eval (dec_layers dec) ->
  0 < B -> 0 < hN -> 0 < dk -> 0 < S -> 0 < T' ->
  shape x = [B; S; hN * dk] -> shape y = [B; T'; hN * dk] ->
  mask_fits B S S src_mask -> mask_fits B T' S src_mask ->
  mask_fits B T' T' tgt_mask ->
  exists (memory : tensor R) (w1 : world),
    @Encoder_forward RealTorch enc x src_mask w = Ok (memory, w1) /\
    shape memory = [B; S; hN * dk] /\
    tensors w1 = tensors w /\
    exists (out : tensor R) (w2 : world),
      @Decoder_forward RealTorch dec y memory src_mask tgt_mask w1
      = Ok (out, w2) /\
      shape out = [B; T'; hN * dk] /\
      tensors w2 = tensors w.
Proof.
  intros He Hen Hee Hd Hdn Hde HB HhN Hdk _ _ Hx Hy _ _ _.
  destruct (@Encoder_forward_keeps_shape enc x src_mask w B S hN dk
              He Hen Hee HB HhN Hdk Hx) as (memory & w1 & Em & Hm & Htn).
  exists memory, w1. split; [exact Em|]. split; [exact Hm|].
  split; [exact Htn|].
  destruct (@Decoder_forward_keeps_shape dec y memory src_mask tgt_mask w1
              B S T' hN dk ltac:(rewrite Htn; exact Hd)
              ltac:(rewrite Htn; exact Hdn) Hde HB HhN Hdk Hy Hm)
    as (out & w2 & Eo & Ho & Htn2).
  exists out, w2. split; [exact Eo|]. split; [exact Ho | congruence].
Qed.

(** X18: over the reals, in evaluation mode, for a model whose layers have
    two, respectively three, sublayer connections and four projections in
    each attention module, with parameters of the shapes of a model of
    dimension [h * d_k] (embedding tables of [src_vocab] and [tgt_vocab]
    rows, positional tables of [max_len] positions): on source ids of shape
    [(B, S)] and target ids of shape [(B, T)], all inside their
    vocabularies, with [B >= 1] and [1 <= S, T <= max_len], and masks that
    broadcast against the scores, [EncoderDecoder.forward] returns a tensor
    of shape [(B, T, h * d_k)], the decoder's states and not yet the
    generator's log-probabilities, and writes no tensor of the store. *)
Theorem EncoderDecoder_forward_returns_decoder_states_of_model_dimension
  (self : EncoderDecoder) (src tgt : tensor Z)
  (src_mask tgt_mask : option (tensor bool)) (w : world)
  (B S T' hN dk src_vocab tgt_vocab max_len : nat) :
  EncoderDecoder_shaped (tensors w) hN dk src_vocab tgt_vocab max_len self ->
  EncoderDecoder_eval self ->
  0 < B -> 0 < hN -> 0 < dk -> 0 < S -> 0 < T' ->
  shape src = [B; S] -> shape tgt = [B; T'] ->
  S <= max_len -> T' <= max_len ->
  ids_within src_vocab src -> ids_within tgt_vocab tgt ->
  mask_fits B S S src_mask -> mask_fits B T' S src_mask ->
  mask_fits B T' T' tgt_mask ->
  exists (out : tensor R) (w' : world),
    @EncoderDecoder_forward RealTorch self src tgt src_mask tgt_mask w
    = Ok (out, w') /\
    shape out = [B; T'; hN * dk] /\
    tensors w' = tensors w.
Proof.
  intros (He & Hen & Hd & Hdn & Hse & Hte) (Hee & Hde & Hsp & Htp)
         HB HhN Hdk _ _ Hsrc Htgt HS HT Hsi Hti _ _ _.
  destruct (@Sequential_forward_shape (ed_src_embed self) src w B S (hN * dk)
              src_vocab max_len Hse Hsp Hsrc HS Hsi) as (e & Ee & Hes).
  destruct (@Encoder_forward_keeps_shape (ed_encoder self) e src_mask w
              B S hN dk He Hen Hee HB HhN Hdk Hes)
    as (memory & w1 & Em & Hm & Htn).
  destruct (@Sequential_forward_shape (ed_tgt_embed self) tgt w1 B T' (hN * dk)
              tgt_vocab max_len ltac:(rewrite Htn; exact Hte) Htp Htgt HT Hti)
    as (t & Et & Hts).
  destruct (@Decoder_forward_keeps_shape (ed_decoder self) t memory src_mask
              tgt_mask w1 B S T' hN dk ltac:(rewrite Htn; exact Hd)
              ltac:(rewrite Htn; exact Hdn) Hde HB HhN Hdk Hts Hm)
    as (out & w2 & Eo & Ho & Htn2).
  exists out, w2. split; [|split; [exact Ho | congruence]].
  unfold EncoderDecoder_forward, EncoderDecoder_encode, EncoderDecoder_decode.
  unfold bind at 1. rewrite (bind_Ok _ _ _ Ee). rewrite Em.
  unfold bind at 1. rewrite (bind_Ok _ _ _ Et). rewrite Eo. reflexivity.
Qed.

Lemma example_ids_within : ids_within 3 example_ids.
Proof.
  intros idx H. simpl in *.
  inversion H as [|i s idx' shp Hi H']; subst.
  inversion H' as [|j s' idx'' shp' Hj H'']; subst.
  inversion H''; subst. simpl. lia.
Qed.

Lemma Encoder_and_Decoder_forward_keep_the_shape_witness :
  (Forall (EncoderLayer_shaped (tensors example_world) 1 2)
          (enc_layers (ed_encoder example_model)) /\
   LayerNorm_shaped (tensors example_world) (1 * 2)
                    (enc_norm (ed_encoder example_model)) /\
   Forall EncoderLayer_eval (enc_layers (ed_encoder example_model)) /\
   Forall (DecoderLayer_shaped (tensors example_world) 1 2)
          (dec_layers (ed_decoder example_model)) /\
   LayerNorm_shaped (tensors example_world) (1 * 2)
                    (dec_norm (ed_decoder example_model)) /\
   Forall DecoderLayer_eval (dec_layers (ed_decoder example_model)) /\
   0 < 1 /\ 0 < 2 /\ 0 < 3 /\
   shape (zeros [1; 3; 2]) = [1; 3; 1 * 2] /\
   shape (zeros [1; 2; 2]) = [1; 2; 1 * 2] /\
   mask_fits 1 3 3 None /\ mask_fits 1 2 3 None /\ mask_fits 1 2 2 None) /\
  exists (memory out : tensor R) (w1 w2 : world),
    @Encoder_forward RealTorch (ed_encoder example_model) (zeros [1; 3; 2])
                     None example_world = Ok (memory, w1) /\
    shape memory = [1; 3; 2] /\
    @Decoder_forward RealTorch (ed_decoder example_model) (zeros [1; 2; 2])
                     memory None None w1 = Ok (out, w2) /\
    shape out = [1; 2; 2].
Proof.
  destruct example_model_shaped as (He & Hen & Hd & Hdn & _).
  destruct example_model_eval as (Hee & Hde & _).
  assert (H1 : 0 < 1) by lia.
  assert (H2 : 0 < 2) by lia.
  assert (Hx : shape (zeros [1; 3; 2]) = [1; 3; 1 * 2]) by reflexivity.
  assert (Hy : shape (zeros [1; 2; 2]) = [1; 2; 1 * 2]) by reflexivity.
  assert (H3 : 0 < 3) by lia.
  split.
  { split; [exact He|]. split; [exact Hen|]. split; [exact Hee|].
    split; [exact Hd|]. split; [exact Hdn|]. split; [exact Hde|].
    split; [exact H1|]. split; [exact H2|]. split; [exact H3|].
    split; [exact Hx|].
    split; [exact Hy|]. split; [exact I|]. split; exact I. }
  destruct (@Encoder_and_Decoder_forward_keep_the_shape
              (ed_encoder example_model) (ed_decoder example_model)
              (zeros [1; 3; 2]) (zeros [1; 2; 2]) None None example_world
              1 3 2 1 2 He Hen Hee Hd Hdn Hde H1 H1 H2 H3 H2 Hx Hy I I I)
    as (memory & w1 & Em & Hm & _ & out & w2 & Eo & Ho & _).
  exists memory, out, w1, w2.
  split; [exact Em|]. split; [exact Hm|]. split; [exact Eo | exact Ho].
Defined.

Lemma EncoderDecoder_forward_returns_decoder_states_of_model_dimension_witness :
  (EncoderDecoder_shaped (tensors example_world) 1 2 3 3 5000 example_model /\
   EncoderDecoder_eval example_model /\
   0 < 1 /\ 0 < 2 /\ shape example_ids = [1; 2] /\ 2 <= 5000 /\
   ids_within 3 example_ids /\ mask_fits 1 2 2 None) /\
  exists (out : tensor R) (w' : world),
    @EncoderDecoder_forward RealTorch example_model example_ids example_ids
                            None None example_world = Ok (out, w') /\
    shape out = [1; 2; 2].
Proof.
  assert (H1 : 0 < 1) by lia.
  assert (H2 : 0 < 2) by lia.
  assert (Hs : shape example_ids = [1; 2]) by reflexivity.
  assert (Hl : 2 <= 5000) by lia.
  split.
  { split; [exact example_model_shaped|]. split; [exact example_model_eval|].
    split; [exact H1|]. split; [exact H2|]. split; [exact Hs|].
    split; [exact Hl|]. split; [exact example_ids_within | exact I]. }
  destruct (@EncoderDecoder_forward_returns_decoder_states_of_model_dimension
              example_model example_ids example_ids None None example_world
              1 2 2 1 2 3 3 5000 example_model_shaped example_model_eval
              H1 H1 H2 H2 H2 Hs Hs Hl Hl example_ids_within example_ids_within
              I I I) as (out & w' & E & Ho & _).
  exists out, w'. split; [exact E | exact Ho].
Defined.
